(** * The Oracle AI Vector Search and spaCy notebooks

    A shallow embedding of the code cells of
    [cookbook/oracleai_demo.ipynb] and
    [docs/docs/integrations/text_embedding/spacy_embedding.ipynb].

    A cell is a program over the calls it makes to the libraries it
    imports (python-oracledb, langchain_community, spaCy).  Calls are the
    nodes of a finite tree whose continuation receives either the value
    the library returned or the exception it raised; a run of a tree
    against a model of the outside world gives the log of the calls made,
    the final world and the value or exception the cell ends with.
    Python dictionaries are objects in a store, so that [dict.copy] and
    item assignment can be told apart from rebinding a name. *)

From Stdlib Require Import PrimFloat.
From stdpp Require Import gmap strings list fin_maps pretty.

Set Default Proof Using "Type".

(** ** Python values *)

(** The values the notebooks put into dictionaries: strings, integers
    and lists of them ([{"document_id": ["1"]}]). *)
#[warnings="-register-all"]
Inductive pyval : Type :=
| PStr (s : string)
| PInt (n : Z)
| PList (l : list pyval).

Abbreviation pydict := (gmap string pyval).

(** Exceptions.  [KeyError], [IndexError] and [TypeError] are what the
    subscripts and the [+] of the pipeline cell raise by themselves; a
    library may raise anything. *)
Inductive exn : Type :=
| KeyError (key : string)
| IndexError
| TypeError
| LibraryError (cls msg : string).

(** A [List[float]]. *)
Definition Embedding : Type := list float.

(** Objects owned by the libraries are opaque handles. *)
Definition Connection : Type := nat.
Definition Cursor : Type := nat.
Definition Loader : Type := nat.
Definition Summary : Type := nat.
Definition Splitter : Type := nat.
Definition Embedder : Type := nat.
Definition VectorStore : Type := nat.

(** [langchain_community.vectorstores.utils.DistanceStrategy]. *)
Inductive DistanceStrategy : Type :=
| EUCLIDEAN_DISTANCE
| MAX_INNER_PRODUCT
| DOT_PRODUCT
| JACCARD
| COSINE.

(** A document as a library hands it over or receives it: the text and
    the contents of its metadata dictionary. *)
Record RawDocument : Type := mkRaw {
  raw_content : string;
  raw_metadata : pydict
}.

(** What [print] is given: the literal pieces of an f-string and the
    objects formatted into it. *)
Inductive shown : Type :=
| ShowStr (s : string)
| ShowEmbedding (e : Embedding)
| ShowDocs (l : list RawDocument)
| ShowScored (l : list (RawDocument * float)).

(** ** The calls *)

Module Ext.

(** One constructor per function or method the cells call, indexed by
    the type of what it returns. *)
Inductive call : Type -> Type :=
(* python-oracledb *)
| connect (user password dsn : string) : call Connection
| connection_exit (c : Connection) : call unit
| cursor (c : Connection) : call Cursor
| cursor_exit (cur : Cursor) : call unit
| execute (cur : Cursor) (sql : string) : call unit
| executemany (cur : Cursor) (sql : string) (rows : list (Z * string))
  : call unit
| commit (c : Connection) : call unit
(* langchain_community: document processing *)
| load_onnx_model (c : Connection) (dir file model : string) : call unit
| OracleDocLoader (conn : Connection) (params : pydict) : call Loader
| load (l : Loader) : call (list RawDocument)
| OracleSummary (conn : Connection) (params : pydict)
    (proxy : option string) : call Summary
| get_summary (s : Summary) (docs : string) : call (list string)
| OracleTextSplitter (conn : Connection) (params : pydict) : call Splitter
| split_text (sp : Splitter) (text : string) : call (list string)
| OracleEmbeddings (conn : Connection) (params : pydict)
    (proxy : option string) : call Embedder
| embed_query (e : Embedder) (text : string) : call Embedding
(* langchain_community: vector store *)
| from_documents (docs : list RawDocument) (embedder : Embedder)
    (client : Connection) (table_name : string)
    (distance_strategy : DistanceStrategy) : call VectorStore
| table_name (vs : VectorStore) : call string
| create_index (conn : Connection) (vs : VectorStore) (params : pydict)
  : call unit
| similarity_search (vs : VectorStore) (query : string) (k : nat)
    (filter : option pydict) : call (list RawDocument)
| similarity_search_with_score (vs : VectorStore) (query : string)
    (k : nat) (filter : option pydict) : call (list (RawDocument * float))
| max_marginal_relevance_search (vs : VectorStore) (query : string)
    (k fetch_k : nat) (lambda_mult : float) (filter : option pydict)
  : call (list RawDocument)
(* langchain_community: spaCy *)
| SpacyEmbeddings (model_name : string) : call Embedder
| embed_documents (e : Embedder) (texts : list string)
  : call (list Embedding)
| spacy_embed_query (e : Embedder) (text : string) : call Embedding
(* builtin *)
| print (parts : list shown) : call unit.

End Ext.

(** ** Programs *)

(** A cell is a finite tree: it returns, raises, or makes a call and
    goes on with its outcome. *)
Inductive prog (A : Type) : Type :=
| Ret (a : A)
| Raise (e : exn)
| Vis {R : Type} (c : Ext.call R) (k : exn + R -> prog A).

Arguments Ret {A} a.
Arguments Raise {A} e.
Arguments Vis {A R} c k.

Fixpoint bind {A B : Type} (p : prog A) (f : A -> prog B) : prog B :=
  match p with
  | Ret a => f a
  | Raise e => Raise e
  | Vis c k => Vis c (fun r => bind (k r) f)
  end.

(** A call statement: an exception of the library is raised again at
    the call site, which has no handler. *)
Definition perform {R : Type} (c : Ext.call R) : prog R :=
  Vis c (fun r => match r with inl e => Raise e | inr v => Ret v end).

(** [finally_ p fin] runs [fin] when [p] is left, normally or by an
    exception; an exception of [fin] itself replaces the pending one. *)
Fixpoint finally_ {A : Type} (p : prog A) (fin : prog unit) : prog A :=
  match p with
  | Ret a => bind fin (fun _ => Ret a)
  | Raise e => bind fin (fun _ => Raise e)
  | Vis c k => Vis c (fun r => finally_ (k r) fin)
  end.

(** ** The store of dictionaries *)

Definition loc : Type := nat.
Abbreviation heap := (list pydict).

(** [langchain_core.documents.Document]: the metadata is a reference to
    a dictionary of the store. *)
Record Document : Type := mkDocument {
  page_content : string;
  metadata : loc
}.

(** A notebook computation: a program that threads the store. *)
Definition nb (A : Type) : Type := heap -> prog (A * heap).

#[export] Instance nb_ret : MRet nb := fun A a hp => Ret (a, hp).
#[export] Instance nb_bind : MBind nb :=
  fun A B f m hp => bind (m hp) (fun '(a, hp') => f a hp').

Definition raise {A : Type} (e : exn) : nb A := fun _ => Raise e.

Definition ext {R : Type} (c : Ext.call R) : nb R :=
  fun hp => bind (perform c) (fun r => Ret (r, hp)).

(** [with mgr as x: body], for a context manager whose [__enter__]
    returns the manager itself and whose [__exit__] returns [None], as
    those of a python-oracledb connection and cursor do: the call that
    makes the manager stands for making and entering it, and [x] is the
    manager.  The [__exit__] call is made however the body is left. *)
Definition with_ {R A : Type} (mgr : Ext.call R) (exit_ : R -> Ext.call unit)
    (body : R -> nb A) : nb A :=
  fun hp =>
    bind (perform mgr) (fun x => finally_ (body x hp) (perform (exit_ x))).

(** [for x in xs: s = body x s]. *)
Fixpoint for_each {X S : Type} (xs : list X) (body : X -> S -> nb S) (s : S)
    : nb S :=
  match xs with
  | [] => mret s
  | x :: xs' => s' ← body x s; for_each xs' body s'
  end.

(** [enumerate(xs, start)]. *)
Fixpoint enumerate {X : Type} (xs : list X) (start : nat) : list (nat * X) :=
  match xs with
  | [] => []
  | x :: xs' => (start, x) :: enumerate xs' (S start)
  end.

(** Allocation of a new dictionary object. *)
Definition new_dict (d : pydict) : nb loc :=
  fun hp => Ret (length hp, hp ++ [d]).

(** [d.copy()]: a new object with the same items.  A reference of the
    notebook always denotes an object of the store; [!!!] reads the
    empty mapping at any other number. *)
Definition dict_copy (l : loc) : nb loc :=
  fun hp => Ret (length hp, hp ++ [hp !!! l]).

(** [d[key]]. *)
Definition dict_getitem (l : loc) (key : string) : nb pyval :=
  fun hp =>
    match (hp !!! l : pydict) !! key with
    | Some v => Ret (v, hp)
    | None => Raise (KeyError key)
    end.

(** [d[key] = v]: the object at [l] is updated in place. *)
Definition dict_setitem (l : loc) (key : string) (v : pyval) : nb unit :=
  fun hp => Ret (tt, alter (fun d : pydict => <[key := v]> d) l hp).

(** [xs[i]] on a list. *)
Definition list_getitem {A : Type} (xs : list A) (i : nat) : nb A :=
  match xs !! i with
  | Some x => mret x
  | None => raise IndexError
  end.

(** [v + s] for a [str] [s]: concatenation when [v] is a [str], a
    [TypeError] otherwise. *)
Definition add_str (v : pyval) (s : string) : nb string :=
  match v with
  | PStr a => mret (a +:+ s)
  | _ => raise TypeError
  end.

(** [str(n)] for an [int]. *)
Definition str_of_int (n : nat) : string := pretty n.

(** The documents a library returns become objects of the notebook:
    each owns a metadata dictionary. *)
Fixpoint receive_documents (raws : list RawDocument) : nb (list Document) :=
  match raws with
  | [] => mret []
  | r :: raws' =>
      l ← new_dict (raw_metadata r);
      ds ← receive_documents raws';
      mret (mkDocument (raw_content r) l :: ds)
  end.

(** What a library sees of a document it is given. *)
Definition resolve (hp : heap) (d : Document) : RawDocument :=
  mkRaw (page_content d) (hp !!! metadata d).

Definition send_documents (ds : list Document) : nb (list RawDocument) :=
  fun hp => Ret (resolve hp <$> ds, hp).

(** ** Running a program *)

(** An entry of the log: the call and its outcome. *)
Record entry : Type := Entry {
  entry_type : Type;
  entry_call : Ext.call entry_type;
  entry_outcome : exn + entry_type
}.

Arguments Entry {entry_type} entry_call entry_outcome.

Section Run.
Context {World : Type}.

(** The outside world answers every call and moves on. *)
Definition handler : Type :=
  forall R : Type, Ext.call R -> World -> World * (exn + R).

Fixpoint run {A : Type} (p : prog A) (h : handler) (w : World)
    : list entry * World * (exn + A) :=
  match p with
  | Ret a => ([], w, inr a)
  | Raise e => ([], w, inl e)
  | Vis c k =>
      let '(w1, r) := h _ c w in
      let '(tr, w2, res) := run (k r) h w1 in
      (Entry c r :: tr, w2, res)
  end.

Definition log {A : Type} (p : prog A) (h : handler) (w : World)
    : list entry := (run p h w).1.1.

Definition outcome {A : Type} (p : prog A) (h : handler) (w : World)
    : exn + A := (run p h w).2.

End Run.

Arguments handler World : clear implicits.

(** ** The cells of [oracleai_demo.ipynb] *)

Module OracleDemo.

(** *** Create Demo User *)

Definition create_user_sql : string :=
  "
            begin
                -- Drop user
                execute immediate 'drop user if exists testuser cascade';

                -- Create user and grant privileges
                execute immediate 'create user testuser identified by testuser';
                execute immediate 'grant connect, unlimited tablespace, create credential, create procedure, create any index to testuser';
                execute immediate 'create or replace directory DEMO_PY_DIR as ''/home/yourname/demo/orachain''';
                execute immediate 'grant read, write on directory DEMO_PY_DIR to public';
                execute immediate 'grant create mining model to testuser';

                -- Network access
                begin
                    DBMS_NETWORK_ACL_ADMIN.APPEND_HOST_ACE(
                        host => '*',
                        ace => xs$ace_type(privilege_list => xs$name_list('connect'),
                                           principal_name => 'testuser',
                                           principal_type => xs_acl.ptype_db)
                    );
                end;
            end;
            ".

Definition create_demo_user : nb unit :=
  let username := "SYSTEM" in
  let password := EmptyString in
  let dsn := EmptyString in
  with_ (Ext.connect username password dsn) Ext.connection_exit
    (fun connection =>
       ext (Ext.print [ShowStr "Connection successful!"]);;
       with_ (Ext.cursor connection) Ext.cursor_exit
         (fun cursor =>
            ext (Ext.execute cursor create_user_sql);;
            ext (Ext.print [ShowStr "User setup done!"]))).

(** *** Connect to Demo User *)

Definition connect_demo_user : nb Connection :=
  let username := "testuser" in
  let password := EmptyString in
  let dsn := EmptyString in
  connection ← ext (Ext.connect username password dsn);
  ext (Ext.print [ShowStr "Connection successful!"]);;
  mret connection.

(** *** Populate a Demo Table *)

Definition rows_to_insert : list (Z * string) :=
  [ (1%Z,
     "If the answer to any preceding questions is yes, then the database stops the search and allocates space from the specified tablespace; otherwise, space is allocated from the database default shared temporary tablespace.");
    (2%Z,
     "A tablespace can be online (accessible) or offline (not accessible) whenever the database is open.
A tablespace is usually online so that its data is available to users. The SYSTEM tablespace and temporary tablespaces cannot be taken offline.");
    (3%Z,
     "The database stores LOBs differently from other data types. Creating a LOB column implicitly creates a LOB segment and a LOB index. The tablespace containing the LOB segment and LOB index, which are always stored together, may be different from the tablespace containing the table.
Sometimes the database can store small amounts of LOB data in the table itself rather than in a separate LOB segment.") ].

Definition populate_demo_table (connection : Connection) : nb unit :=
  with_ (Ext.cursor connection) Ext.cursor_exit
    (fun cursor =>
       let drop_table_sql := "drop table if exists demo_tab" in
       ext (Ext.execute cursor drop_table_sql);;
       let create_table_sql :=
         "create table demo_tab (id number, data clob)" in
       ext (Ext.execute cursor create_table_sql);;
       let insert_row_sql := "insert into demo_tab values (:1, :2)" in
       ext (Ext.executemany cursor insert_row_sql rows_to_insert));;
  ext (Ext.commit connection);;
  ext (Ext.print [ShowStr "Table created and populated."]).

(** *** Load the ONNX Model *)

Definition load_the_onnx_model (connection : Connection) : nb unit :=
  let onnx_dir := "DEMO_PY_DIR" in
  let onnx_file := "tinybert.onnx" in
  let model_name := "demo_model" in
  ext (Ext.load_onnx_model connection onnx_dir onnx_file model_name);;
  ext (Ext.print [ShowStr "ONNX model loaded."]).

(** *** Create Credential *)

Definition create_credential_sql : string :=
  "
       declare
           jo json_object_t;
       begin
           -- HuggingFace
           dbms_vector_chain.drop_credential(credential_name  => 'HF_CRED');
           jo := json_object_t();
           jo.put('access_token', '<access_token>');
           dbms_vector_chain.create_credential(
               credential_name   =>  'HF_CRED',
               params            => json(jo.to_string));

           -- OCIGENAI
           dbms_vector_chain.drop_credential(credential_name  => 'OCI_CRED');
           jo := json_object_t();
           jo.put('user_ocid','<user_ocid>');
           jo.put('tenancy_ocid','<tenancy_ocid>');
           jo.put('compartment_ocid','<compartment_ocid>');
           jo.put('private_key','<private_key>');
           jo.put('fingerprint','<fingerprint>');
           dbms_vector_chain.create_credential(
               credential_name   => 'OCI_CRED',
               params            => json(jo.to_string));
       end;
       ".

Definition create_credential (connection : Connection) : nb unit :=
  with_ (Ext.cursor connection) Ext.cursor_exit
    (fun cursor => ext (Ext.execute cursor create_credential_sql)).

(** *** Load Documents *)

Definition loader_params : pydict :=
  {[ "owner" := PStr "testuser";
     "tablename" := PStr "demo_tab";
     "colname" := PStr "data" ]}.

Definition load_documents (connection : Connection)
    : nb (Loader * list Document) :=
  loader ← ext (Ext.OracleDocLoader connection loader_params);
  raws ← ext (Ext.load loader);
  docs ← receive_documents raws;
  ext (Ext.print
         [ShowStr ("Number of docs loaded: " +:+ str_of_int (length docs))]);;
  mret (loader, docs).

(** *** Generate Summary *)

Definition proxy : string := EmptyString.

Definition summary_params : pydict :=
  {[ "provider" := PStr "database";
     "glevel" := PStr "S";
     "numParagraphs" := PInt 1;
     "language" := PStr "english" ]}.

Definition generate_summary (connection : Connection) (proxy : string)
    (docs : list Document) : nb (Summary * list (list string)) :=
  summ ← ext (Ext.OracleSummary connection summary_params (Some proxy));
  list_summary ←
    for_each docs
      (fun doc list_summary =>
         summary ← ext (Ext.get_summary summ (page_content doc));
         mret (list_summary ++ [summary]))
      [];
  ext (Ext.print
         [ShowStr ("Number of Summaries: "
                   +:+ str_of_int (length list_summary))]);;
  mret (summ, list_summary).

(** *** Split Documents *)

Definition splitter_params : pydict := {[ "normalize" := PStr "all" ]}.

(** The loop that fills [list_chunks]. *)
Definition collect_chunks (splitter : Splitter) (docs : list Document)
    : nb (list string) :=
  for_each docs
    (fun doc list_chunks =>
       chunks ← ext (Ext.split_text splitter (page_content doc));
       mret (list_chunks ++ chunks))
    [].

Definition split_documents (connection : Connection) (docs : list Document)
    : nb (Splitter * list string) :=
  splitter ← ext (Ext.OracleTextSplitter connection splitter_params);
  list_chunks ← collect_chunks splitter docs;
  ext (Ext.print
         [ShowStr ("Number of Chunks: " +:+ str_of_int (length list_chunks))]);;
  mret (splitter, list_chunks).

(** *** Generate Embeddings *)

Definition embedder_params : pydict :=
  {[ "provider" := PStr "database"; "model" := PStr "demo_model" ]}.

(** The loop that fills [embeddings]. *)
Definition collect_embeddings (embedder : Embedder) (splitter : Splitter)
    (docs : list Document) : nb (list Embedding) :=
  for_each docs
    (fun doc embeddings =>
       chunks ← ext (Ext.split_text splitter (page_content doc));
       for_each chunks
         (fun chunk embeddings =>
            embed ← ext (Ext.embed_query embedder chunk);
            mret (embeddings ++ [embed]))
         embeddings)
    [].

Definition generate_embeddings (connection : Connection) (proxy : string)
    (splitter : Splitter) (docs : list Document)
    : nb (Embedder * list Embedding) :=
  embedder ← ext (Ext.OracleEmbeddings connection embedder_params (Some proxy));
  embeddings ← collect_embeddings embedder splitter docs;
  ext (Ext.print
         [ShowStr ("Number of embeddings: "
                   +:+ str_of_int (length embeddings))]);;
  mret (embedder, embeddings).

(** *** Create Oracle AI Vector Store: the combined processing cell *)

(** [str(s)] for a [str]. *)
Definition str_of_str (s : string) : string := s.

(** The body of the loop over the chunks of one document. *)
Definition process_chunk (id : nat) (doc : Document) (summ : list string)
    (ic : nat) (chunk : string) (chunks_with_mdata : list Document)
    : nb (list Document) :=
  chunk_metadata ← dict_copy (metadata doc);
  oid ← dict_getitem chunk_metadata "_oid";
  prefix ← add_str oid "$";
  dict_setitem chunk_metadata "id"
    (PStr (((prefix +:+ str_of_int id) +:+ "$") +:+ str_of_int ic));;
  dict_setitem chunk_metadata "document_id" (PStr (str_of_int id));;
  summ0 ← list_getitem summ 0;
  dict_setitem chunk_metadata "document_summary" (PStr (str_of_str summ0));;
  mret (chunks_with_mdata
          ++ [mkDocument (str_of_str chunk) chunk_metadata]).

(** The loop over the documents. *)
Definition process_documents (summary : Summary) (splitter : Splitter)
    (docs : list Document) : nb (list Document) :=
  for_each (enumerate docs 1)
    (fun '(id, doc) chunks_with_mdata =>
       summ ← ext (Ext.get_summary summary (page_content doc));
       chunks ← ext (Ext.split_text splitter (page_content doc));
       for_each (enumerate chunks 1)
         (fun '(ic, chunk) chunks_with_mdata =>
            process_chunk id doc summ ic chunk chunks_with_mdata)
         chunks_with_mdata)
    [].

(** The names the cell binds that later cells read. *)
Record pipeline_names : Type := mkPipeline {
  pl_connection : Connection;
  pl_embedder : Embedder;
  pl_chunks_with_mdata : list Document
}.

(** [docs] is the list bound by the Load Documents cell: the pipeline
    cell makes a loader but does not call its [load]. *)
Definition end_to_end_pipeline (docs : list Document) : nb pipeline_names :=
  let username := EmptyString in
  let password := EmptyString in
  let dsn := EmptyString in
  with_ (Ext.connect username password dsn) Ext.connection_exit
    (fun connection =>
       ext (Ext.print [ShowStr "Connection successful!"]);;
       let onnx_dir := "DEMO_PY_DIR" in
       let onnx_file := "tinybert.onnx" in
       let model_name := "demo_model" in
       ext (Ext.load_onnx_model connection onnx_dir onnx_file model_name);;
       ext (Ext.print [ShowStr "ONNX model loaded."]);;
       loader ← ext (Ext.OracleDocLoader connection loader_params);
       summary ← ext (Ext.OracleSummary connection summary_params None);
       splitter ← ext (Ext.OracleTextSplitter connection splitter_params);
       embedder ← ext (Ext.OracleEmbeddings connection embedder_params None);
       chunks_with_mdata ← process_documents summary splitter docs;
       ext (Ext.print
              [ShowStr ("Number of total chunks with metadata: "
                        +:+ str_of_int (length chunks_with_mdata))]);;
       mret (mkPipeline connection embedder chunks_with_mdata)).

(** *** The vector store and its index *)

Definition create_vector_store (chunks_with_mdata : list Document)
    (embedder : Embedder) (connection : Connection) : nb VectorStore :=
  sent ← send_documents chunks_with_mdata;
  vectorstore ←
    ext (Ext.from_documents sent embedder connection "oravs" DOT_PRODUCT);
  name ← ext (Ext.table_name vectorstore);
  ext (Ext.print [ShowStr ("Vector Store Table: " +:+ name)]);;
  mret vectorstore.

Definition index_params : pydict :=
  {[ "idx_name" := PStr "hnsw_oravs"; "idx_type" := PStr "HNSW" ]}.

Definition create_the_index (connection : Connection)
    (vectorstore : VectorStore) : nb unit :=
  ext (Ext.create_index connection vectorstore index_params);;
  ext (Ext.print [ShowStr "Index created."]).

(** *** Perform Semantic Search *)

Definition query : string := "What is Oracle AI Vector Store?".
Definition filter : pydict := {[ "document_id" := PList [PStr "1"] ]}.

Definition semantic_search (vectorstore : VectorStore) : nb unit :=
  (* Similarity search without a filter *)
  r ← ext (Ext.similarity_search vectorstore query 1 None);
  ext (Ext.print [ShowDocs r]);;
  (* Similarity search with a filter *)
  r ← ext (Ext.similarity_search vectorstore query 1 (Some filter));
  ext (Ext.print [ShowDocs r]);;
  (* Similarity search with relevance score *)
  r ← ext (Ext.similarity_search_with_score vectorstore query 1 None);
  ext (Ext.print [ShowScored r]);;
  (* Similarity search with relevance score with filter *)
  r ← ext (Ext.similarity_search_with_score vectorstore query 1 (Some filter));
  ext (Ext.print [ShowScored r]);;
  (* Max marginal relevance search *)
  r ← ext (Ext.max_marginal_relevance_search vectorstore query 1 20
             0.5%float None);
  ext (Ext.print [ShowDocs r]);;
  (* Max marginal relevance search with filter *)
  r ← ext (Ext.max_marginal_relevance_search vectorstore query 1 20
             0.5%float (Some filter));
  ext (Ext.print [ShowDocs r]).

(** *** The notebook, top to bottom *)

(** The cells in the order of the file; a name read by a cell is the
    value an earlier cell bound to it.  The two cells that only set
    [proxy] and the cell of imports make no call. *)
Definition notebook : nb unit :=
  create_demo_user;;
  connection ← connect_demo_user;
  populate_demo_table connection;;
  load_the_onnx_model connection;;
  create_credential connection;;
  '(loader, docs) ← load_documents connection;
  '(summ, list_summary) ← generate_summary connection proxy docs;
  '(splitter, list_chunks) ← split_documents connection docs;
  '(embedder, embeddings) ←
    generate_embeddings connection proxy splitter docs;
  names ← end_to_end_pipeline docs;
  let connection := pl_connection names in
  let embedder := pl_embedder names in
  let chunks_with_mdata := pl_chunks_with_mdata names in
  vectorstore ← create_vector_store chunks_with_mdata embedder connection;
  create_the_index connection vectorstore;;
  semantic_search vectorstore.

End OracleDemo.

(** ** The cells of [spacy_embedding.ipynb] *)

Module SpacyDemo.

Definition texts : list string :=
  [ "The quick brown fox jumps over the lazy dog.";
    "Pack my box with five dozen liquor jugs.";
    "How vexingly quick daft zebras jump!";
    "Bright vixens jump; dozy fowl quack." ].

Definition initialize : nb Embedder :=
  ext (Ext.SpacyEmbeddings "en_core_web_sm").

Definition embed_the_texts (embedder : Embedder) : nb (list Embedding) :=
  embeddings ← ext (Ext.embed_documents embedder texts);
  for_each (enumerate embeddings 0)
    (fun '(i, embedding) (_ : unit) =>
       ext (Ext.print
              [ShowStr ("Embedding for document " +:+ str_of_int (i + 1)
                        +:+ ": ");
               ShowEmbedding embedding]))
    tt;;
  mret embeddings.

Definition query : string := "Quick foxes and lazy dogs.".

Definition embed_the_query (embedder : Embedder) : nb Embedding :=
  query_embedding ← ext (Ext.spacy_embed_query embedder query);
  ext (Ext.print [ShowStr "Embedding for query: ";
                  ShowEmbedding query_embedding]);;
  mret query_embedding.

Definition notebook : nb unit :=
  embedder ← initialize;
  embeddings ← embed_the_texts embedder;
  query_embedding ← embed_the_query embedder;
  mret tt.

End SpacyDemo.

(** ** Reading a log *)

(** The exception of an outcome, if it is one. *)
Definition failure_of {R : Type} (r : exn + R) : option exn :=
  match r with inl e => Some e | inr _ => None end.

(** The exception of the last call of the log that raised. *)
Fixpoint last_failure (tr : list entry) : option exn :=
  match tr with
  | [] => None
  | Entry _ r :: tr' =>
      match last_failure tr' with
      | Some e => Some e
      | None => failure_of r
      end
  end.

(** The text given to a [split_text] call. *)
Definition split_text_of (en : entry) : option string :=
  match entry_call en with
  | Ext.split_text _ text => Some text
  | _ => None
  end.

(** The chunks a [split_text] call returned. *)
Definition chunks_of (en : entry) : option (list string) :=
  match en with
  | Entry c r =>
      match c in Ext.call R return exn + R -> option (list string) with
      | Ext.split_text _ _ =>
          fun r => match r with inr chunks => Some chunks | inl _ => None end
      | _ => fun _ => None
      end r
  end.

(** The configuration mapping given to an instantiation of the
    summarization API. *)
Definition summary_params_of (en : entry) : option pydict :=
  match entry_call en with
  | Ext.OracleSummary _ params _ => Some params
  | _ => None
  end.

(** ** The chain of stages *)

Inductive stage : Type :=
| Connect
| LoadDocuments
| Summarize
| Split
| Embed
| Store
| Index
| Query.

#[export] Instance stage_eq_dec : EqDecision stage.
Proof. solve_decision. Defined.

(** The place of a stage in
    connect, load documents, summarize, split, embed, store, index, query. *)
Definition rank (s : stage) : nat :=
  match s with
  | Connect => 0
  | LoadDocuments => 1
  | Summarize => 2
  | Split => 3
  | Embed => 4
  | Store => 5
  | Index => 6
  | Query => 7
  end.

(** The stage a call belongs to; instantiations, SQL statements and
    prints belong to none. *)
Definition stage_of_call {R : Type} (c : Ext.call R) : option stage :=
  match c with
  | Ext.connect _ _ _ => Some Connect
  | Ext.load _ => Some LoadDocuments
  | Ext.get_summary _ _ => Some Summarize
  | Ext.split_text _ _ => Some Split
  | Ext.embed_query _ _ => Some Embed
  | Ext.from_documents _ _ _ _ _ => Some Store
  | Ext.create_index _ _ _ => Some Index
  | Ext.similarity_search _ _ _ _ => Some Query
  | Ext.similarity_search_with_score _ _ _ _ => Some Query
  | Ext.max_marginal_relevance_search _ _ _ _ _ _ => Some Query
  | _ => None
  end.

Definition stage_of (en : entry) : option stage :=
  stage_of_call (entry_call en).

Definition stages (tr : list entry) : list stage := omap stage_of tr.

(** The calls are in the order of the chain: none comes before a call
    of a stage listed earlier. *)
Definition in_chain_order (l : list stage) : Prop :=
  forall i j a b, l !! i = Some a -> l !! j = Some b -> i < j ->
                  rank a <= rank b.

(** The weaker order: when a stage is called for the first time, all
    the calls made before it are of stages listed earlier. *)
Definition first_calls_in_chain_order (l : list stage) : Prop :=
  forall l1 b l2, l = l1 ++ b :: l2 -> b ∉ l1 ->
                  Forall (fun a => rank a < rank b) l1.

(** ** The variants of a search *)

Inductive search_variant : Type :=
| PlainSimilarity
| FilteredSimilarity
| ScoredSimilarity
| MaxMarginalRelevance.

#[export] Instance search_variant_eq_dec : EqDecision search_variant.
Proof. solve_decision. Defined.

Definition is_search_call {R : Type} (c : Ext.call R) : bool :=
  match c with
  | Ext.similarity_search _ _ _ _ => true
  | Ext.similarity_search_with_score _ _ _ _ => true
  | Ext.max_marginal_relevance_search _ _ _ _ _ _ => true
  | _ => false
  end.

(** A scored or max-marginal-relevance search is counted as such with
    or without a filter. *)
Definition variant_of_call {R : Type} (c : Ext.call R)
    : option search_variant :=
  match c with
  | Ext.similarity_search _ _ _ None => Some PlainSimilarity
  | Ext.similarity_search _ _ _ (Some _) => Some FilteredSimilarity
  | Ext.similarity_search_with_score _ _ _ _ => Some ScoredSimilarity
  | Ext.max_marginal_relevance_search _ _ _ _ _ _ =>
      Some MaxMarginalRelevance
  | _ => None
  end.

Definition variant_of (en : entry) : option search_variant :=
  variant_of_call (entry_call en).

(** ** The calls of the spaCy notebook *)

(** The instantiation, the two embedding entry points, or any other
    call but [print]. *)
Inductive api_call : Type :=
| Instantiate (model_name : string)
| Batch (texts : list string)
| SingleQuery (text : string)
| OtherCall.

Definition api_call_of (en : entry) : option api_call :=
  match entry_call en with
  | Ext.SpacyEmbeddings model_name => Some (Instantiate model_name)
  | Ext.embed_documents _ texts => Some (Batch texts)
  | Ext.spacy_embed_query _ text => Some (SingleQuery text)
  | Ext.print _ => None
  | _ => Some OtherCall
  end.

(** ** What the pipeline cell is to build *)

(** The keys the pipeline cell sets. *)
Definition pipeline_keys : gset string :=
  {[ "id"; "document_id"; "document_summary" ]}.

(** Two mappings agree outside a set of keys. *)
Definition agree_off (keys : gset string) (m1 m2 : pydict) : Prop :=
  forall k, k ∉ keys -> m1 !! k = m2 !! k.

(** The [_oid] of a metadata mapping and the first summary of a list,
    when there is one. *)
Definition oid_of (m : pydict) : string :=
  match m !! "_oid" with
  | Some (PStr oid) => oid
  | _ => EmptyString
  end.

Definition first_of (summ : list string) : string :=
  default EmptyString (summ !! 0).

(** The metadata of chunk [ic] of document [id]: the mapping [m] of the
    document with three keys set. *)
Definition expected_metadata (m : pydict) (id ic : nat)
    (summ : list string) : pydict :=
  <["document_summary" := PStr (first_of summ)]>
    (<["document_id" := PStr (str_of_int id)]>
       (<["id" := PStr ((((oid_of m +:+ "$") +:+ str_of_int id) +:+ "$")
                        +:+ str_of_int ic)]> m)).

(** One document per chunk, document by document and chunk by chunk,
    both counted from 1. *)
Definition expected_documents (hp : heap)
    (summarize split : string -> list string) (docs : list Document)
    : list RawDocument :=
  concat
    (imap
       (fun i doc =>
          imap
            (fun j chunk =>
               mkRaw chunk
                 (expected_metadata (hp !!! metadata doc) (i + 1) (j + 1)
                    (summarize (page_content doc))))
            (split (page_content doc)))
       docs).

(** [built hp hp' ds raws]: the store [hp'] is [hp] followed by the
    metadata of [raws], one new object each, and the documents [ds]
    hold the texts of [raws] and refer to those objects in order. *)
Definition built (hp hp' : heap) (ds : list Document)
    (raws : list RawDocument) : Prop :=
  hp' = hp ++ (raw_metadata <$> raws) /\
  ds = imap (fun j r => mkDocument (raw_content r) (length hp + j)) raws.

(** A document the pipeline cell can process in the store [hp]: its
    metadata has a [str] under [_oid] and its summary is not empty. *)
Definition processable (hp : heap) (summarize : string -> list string)
    (doc : Document) : Prop :=
  exists (m : pydict) (oid s0 : string),
    hp !! metadata doc = Some m /\
    m !! "_oid" = Some (PStr oid) /\
    summarize (page_content doc) !! 0 = Some s0.

(** ** Worlds to run the notebooks in *)

(** A library that answers every call: [load] with [docs], the
    summarizer, the splitter and the embedder as functions of the text
    they are given. *)
Definition answers (docs : list RawDocument)
    (summarize split : string -> list string) (embed : string -> Embedding)
    (R : Type) (c : Ext.call R) : R :=
  match c in Ext.call R return R with
  | Ext.connect _ _ _ => 1
  | Ext.connection_exit _ => tt
  | Ext.cursor _ => 2
  | Ext.cursor_exit _ => tt
  | Ext.execute _ _ => tt
  | Ext.executemany _ _ _ => tt
  | Ext.commit _ => tt
  | Ext.load_onnx_model _ _ _ _ => tt
  | Ext.OracleDocLoader _ _ => 3
  | Ext.load _ => docs
  | Ext.OracleSummary _ _ _ => 4
  | Ext.get_summary _ text => summarize text
  | Ext.OracleTextSplitter _ _ => 5
  | Ext.split_text _ text => split text
  | Ext.OracleEmbeddings _ _ _ => 6
  | Ext.embed_query _ text => embed text
  | Ext.from_documents _ _ _ _ _ => 7
  | Ext.table_name _ => "oravs"
  | Ext.create_index _ _ _ => tt
  | Ext.similarity_search _ _ k _ => take k docs
  | Ext.similarity_search_with_score _ _ k _ =>
      (fun d => (d, 0%float)) <$> take k docs
  | Ext.max_marginal_relevance_search _ _ k _ _ _ => take k docs
  | Ext.SpacyEmbeddings _ => 8
  | Ext.embed_documents _ texts => embed <$> texts
  | Ext.spacy_embed_query _ text => embed text
  | Ext.print _ => tt
  end.

(** The world counts the calls it has answered. *)
Definition obliging (docs : list RawDocument)
    (summarize split : string -> list string) (embed : string -> Embedding)
    : handler nat :=
  fun R c w => (S w, inr (answers docs summarize split embed R c)).

(** The same world, except that its call number [n] raises [e]. *)
Definition failing_at (n : nat) (e : exn) (docs : list RawDocument)
    (summarize split : string -> list string) (embed : string -> Embedding)
    : handler nat :=
  fun R c w =>
    (S w,
     if decide (w = n) then inl e
     else inr (answers docs summarize split embed R c)).

(** Two documents as the loader returns them for the demo table, a
    one-sentence summary, a split at full stops and a constant
    embedding. *)
Definition sample_docs : list RawDocument :=
  [ mkRaw "One. Two." {[ "_oid" := PStr "6F1A"; "_rowid" := PStr "AAAR" ]};
    mkRaw "Three." {[ "_oid" := PStr "6F1B"; "_rowid" := PStr "AAAS" ]} ].

Definition sample_summarize (text : string) : list string :=
  ["About: " +:+ text].

Definition sample_split (text : string) : list string :=
  if decide (text = "One. Two.") then ["One."; "Two."] else [text].

Definition sample_embed (text : string) : Embedding := [0.5%float].

Definition sample_world : handler nat :=
  obliging sample_docs sample_summarize sample_split sample_embed.

(** The sample documents once received by the notebook. *)
Definition sample_heap : heap := raw_metadata <$> sample_docs.

Definition sample_documents : list Document :=
  [ mkDocument "One. Two." 0; mkDocument "Three." 1 ].

(** ** Properties of programs *)

Section Safe.
Context {S : Type}.
Variable ok : forall R : Type, S -> Ext.call R -> Prop.
Variable step : forall R : Type, S -> Ext.call R -> exn + R -> S.

(** [safe Q s p]: started in state [s], whatever the libraries answer,
    every call of [p] is allowed in the state it is made in, and [Q]
    holds of the state in which [p] returns and of what it returns.
    The state is a record of the calls made and of their outcomes. *)
Inductive safe {A : Type} (Q : S -> A -> Prop) : S -> prog A -> Prop :=
| safe_Ret s a : Q s a -> safe Q s (Ret a)
| safe_Raise s e : safe Q s (Raise e)
| safe_Vis s R (c : Ext.call R) k :
    ok R s c -> (forall r, safe Q (step R s c r) (k r)) ->
    safe Q s (Vis c k).

(** The same of a log. *)
Fixpoint accepts (s : S) (tr : list entry) : Prop :=
  match tr with
  | [] => True
  | Entry c r :: tr' => ok _ s c /\ accepts (step _ s c r) tr'
  end.

Fixpoint after (s : S) (tr : list entry) : S :=
  match tr with
  | [] => s
  | Entry c r :: tr' => after (step _ s c r) tr'
  end.

End Safe.

(** The same of a notebook computation started in the store [hp]; [Q]
    also speaks of the store it ends with. *)
Definition Safe {S : Type} (ok : forall R : Type, S -> Ext.call R -> Prop)
    (step : forall R : Type, S -> Ext.call R -> exn + R -> S) {A : Type}
    (Q : S -> A -> heap -> Prop) (s : S) (hp : heap) (m : nb A) : Prop :=
  safe ok step (fun s' r => Q s' r.1 r.2) s (m hp).

(** A computation that makes no call. *)
Definition local {A : Type} (m : nb A) : Prop :=
  forall hp, (exists r, m hp = Ret r) \/ (exists e, m hp = Raise e).

(** [doomed e p]: [p] can only end by raising [e], or the exception of
    a call it makes on the way. *)
Inductive doomed {A : Type} (e : exn) : prog A -> Prop :=
| doomed_Raise : doomed e (Raise e)
| doomed_Vis R (c : Ext.call R) k :
    (forall e', doomed e' (k (inl e'))) ->
    (forall v, doomed e (k (inr v))) ->
    doomed e (Vis c k).

(** [handlerless p]: no call of [p] is guarded: when one raises, [p]
    can only end by raising that exception, or the exception of a call
    made while leaving a [with] block. *)
Inductive handlerless {A : Type} : prog A -> Prop :=
| handlerless_Ret a : handlerless (Ret a)
| handlerless_Raise e : handlerless (Raise e)
| handlerless_Vis R (c : Ext.call R) k :
    (forall e, doomed e (k (inl e))) ->
    (forall v, handlerless (k (inr v))) ->
    handlerless (Vis c k).

(** The same of a notebook computation, in every store. *)
Definition Handlerless {A : Type} (m : nb A) : Prop :=
  forall hp, handlerless (m hp).

(** ** Recording calls *)

(** Every call is allowed. *)
Definition any_call {S : Type} (R : Type) (s : S) (c : Ext.call R) : Prop :=
  True.

(** The state is the list, latest first, of what [f] reads from the
    calls made. *)
Definition record {X : Type} (f : entry -> option X) (R : Type)
    (s : list X) (c : Ext.call R) (r : exn + R) : list X :=
  match f (Entry c r) with
  | Some x => x :: s
  | None => s
  end.

(** ** The configuration of the summarization API *)

(** The keys of the configuration of the summarization API. *)
Definition summary_keys : gset string :=
  {[ "provider"; "glevel"; "numParagraphs"; "language" ]}.

Definition summary_keys_ok (R : Type) (_ : unit) (c : Ext.call R) : Prop :=
  match c with
  | Ext.OracleSummary _ params _ => dom params = summary_keys
  | _ => True
  end.

(** A property of single calls has no state to keep. *)
Definition no_step (R : Type) (s : unit) (c : Ext.call R) (_ : exn + R)
    : unit := s.

(** ** The states of the chain *)

(** The states of the chain: the stages called so far.  A call of a
    stage is allowed when the stage was called before or is listed
    after all of them. *)
Definition chain_ok (R : Type) (seen : list stage) (c : Ext.call R) : Prop :=
  match stage_of_call c with
  | None => True
  | Some b => b ∈ seen \/ Forall (fun a => rank a < rank b) seen
  end.

Definition chain_step (R : Type) (seen : list stage) (c : Ext.call R)
    (_ : exn + R) : list stage :=
  match stage_of_call c with
  | None => seen
  | Some b => b :: seen
  end.

(** The stages called so far are listed no later than [m]. *)
Definition seen_upto (m : stage) (seen : list stage) : Prop :=
  Forall (fun a => rank a <= rank m) seen.

(** ** Where the texts and documents given to the libraries come from *)

(** What the libraries have returned so far: the documents of [load]
    and the chunks of [split_text]. *)
Record provenance : Type := mkProvenance {
  loaded : list RawDocument;
  returned_chunks : list string
}.

Definition provenance_step (R : Type) (s : provenance) (c : Ext.call R)
    : exn + R -> provenance :=
  match c in Ext.call R return exn + R -> provenance with
  | Ext.load _ =>
      fun r =>
        match r with
        | inr docs => mkProvenance (loaded s ++ docs) (returned_chunks s)
        | inl _ => s
        end
  | Ext.split_text _ _ =>
      fun r =>
        match r with
        | inr chunks => mkProvenance (loaded s) (returned_chunks s ++ chunks)
        | inl _ => s
        end
  | _ => fun _ => s
  end.

(** A document given to the vector store comes from the libraries: its
    text is a chunk that [split_text] returned and its metadata is, up
    to [rel], the metadata of a document that [load] returned. *)
Definition from_libraries (rel : pydict -> pydict -> Prop) (s : provenance)
    (raw : RawDocument) : Prop :=
  raw_content raw ∈ returned_chunks s /\
  exists src, src ∈ loaded s /\ rel (raw_metadata raw) (raw_metadata src).

(** The text given to the summarizer or the splitter is the text of a
    loaded document, the text given to the embedder is a chunk, and the
    documents given to the vector store come from the libraries. *)
Definition provenance_ok (rel : pydict -> pydict -> Prop) (R : Type)
    (s : provenance) (c : Ext.call R) : Prop :=
  match c with
  | Ext.get_summary _ text => text ∈ raw_content <$> loaded s
  | Ext.split_text _ text => text ∈ raw_content <$> loaded s
  | Ext.embed_query _ text => text ∈ returned_chunks s
  | Ext.from_documents docs _ _ _ _ => Forall (from_libraries rel s) docs
  | _ => True
  end.

(** Every text and document is passed through as the libraries
    returned it. *)
Definition passes_through (tr : list entry) : Prop :=
  accepts (provenance_ok eq) provenance_step (mkProvenance [] []) tr.

(** The logic the order of the cells is checked in. *)
Abbreviation Chain := (Safe chain_ok chain_step).

(** ** Further readers of a log *)

(** The text given to a [get_summary] call and the summaries it
    returned. *)
Definition summary_text_of (en : entry) : option string :=
  match entry_call en with
  | Ext.get_summary _ text => Some text
  | _ => None
  end.

Definition summaries_of (en : entry) : option (list string) :=
  match en with
  | Entry c r =>
      match c in Ext.call R return exn + R -> option (list string) with
      | Ext.get_summary _ _ =>
          fun r => match r with inr summ => Some summ | inl _ => None end
      | _ => fun _ => None
      end r
  end.

(** ** The errors of the pipeline cell *)

(** What the body of the loop over the chunks raises for a document of
    metadata [m] and summary [summ], in the order in which the body
    subscripts and adds: [m["_oid"]], then [+ "$"], then [summ[0]]. *)
Definition chunk_error (m : pydict) (summ : list string) : option exn :=
  match m !! "_oid" with
  | None => Some (KeyError "_oid")
  | Some (PStr _) =>
      match summ !! 0 with
      | None => Some IndexError
      | Some _ => None
      end
  | Some _ => Some TypeError
  end.

(** A document the loop gets through: it has no chunk, or the body
    raises nothing for it. *)
Definition passable (hp : heap) (summarize split : string -> list string)
    (doc : Document) : Prop :=
  split (page_content doc) = [] \/
  (metadata doc < length hp /\
   chunk_error (hp !!! metadata doc) (summarize (page_content doc)) = None).

(** ** The identifiers of the chunks *)

(** The separator of the parts of an identifier. *)
Definition dollar : Ascii.ascii :=
  Eval cbv in match "$" with String c _ => c | EmptyString => Ascii.zero end.

(** A string without the separator. *)
Fixpoint no_dollar (s : string) : Prop :=
  match s with
  | EmptyString => True
  | String c s' => c ≠ dollar /\ no_dollar s'
  end.

(** The value the pipeline cell puts under ["id"]. *)
Definition chunk_id (oid : string) (id ic : nat) : string :=
  (((oid +:+ "$") +:+ str_of_int id) +:+ "$") +:+ str_of_int ic.

(** The column of a key in a list of documents. *)
Definition column (key : string) (raws : list RawDocument)
    : list (option pyval) :=
  (fun r => raw_metadata r !! key) <$> raws.

(** A store whose second mapping has no [_oid], and a splitter that
    finds no chunk in the second sample text. *)
Definition odd_heap : heap := [ {[ "_oid" := PStr "6F1A" ]}; ∅ ].

Definition sparse_split (text : string) : list string :=
  if decide (text = "Three.") then [] else sample_split text.

(** Two documents that share one metadata mapping. *)
Definition sharing_documents : list Document :=
  [ mkDocument "One. Two." 0; mkDocument "Three." 0 ].

(** ** Leaving after a failure *)

(** A call made on leaving a [with] block. *)
Definition is_exit {R : Type} (c : Ext.call R) : bool :=
  match c with
  | Ext.connection_exit _ | Ext.cursor_exit _ => true
  | _ => false
  end.

Definition leaves (en : entry) : bool := is_exit (entry_call en).

(** A call that raised. *)
Definition failed (en : entry) : bool :=
  match en with
  | Entry _ (inl _) => true
  | Entry _ (inr _) => false
  end.

(** [unwinding p]: [p] only leaves [with] blocks, and raises. *)
Inductive unwinding {A : Type} : prog A -> Prop :=
| unwinding_Raise e : unwinding (Raise e)
| unwinding_Vis R (c : Ext.call R) k :
    is_exit c = true -> (forall r, unwinding (k r)) -> unwinding (Vis c k).

(** [fail_fast p]: when a call of [p] raises, [p] only leaves the
    [with] blocks it is in. *)
Inductive fail_fast {A : Type} : prog A -> Prop :=
| fail_fast_Ret a : fail_fast (Ret a)
| fail_fast_Raise e : fail_fast (Raise e)
| fail_fast_Vis R (c : Ext.call R) k :
    (forall e, unwinding (k (inl e))) ->
    (forall v, fail_fast (k (inr v))) ->
    fail_fast (Vis c k).

Definition Fail_fast {A : Type} (m : nb A) : Prop :=
  forall hp, fail_fast (m hp).

(** ** The connections *)

(** The connection given to the vector store or to its index. *)
Definition client_of {R : Type} (c : Ext.call R) : option Connection :=
  match c with
  | Ext.from_documents _ _ client _ _ => Some client
  | Ext.create_index client _ _ => Some client
  | _ => None
  end.

Definition client (en : entry) : option Connection :=
  client_of (entry_call en).

(** The connection whose [with] block a call leaves. *)
Definition left_of {R : Type} (c : Ext.call R) : option Connection :=
  match c with
  | Ext.connection_exit connection => Some connection
  | _ => None
  end.

Definition left (en : entry) : option Connection := left_of (entry_call en).

(** The state is the list of the connections left so far: the vector
    store and its index are given one of them. *)
Definition left_ok (R : Type) (s : list Connection) (c : Ext.call R)
    : Prop :=
  match client_of c with
  | Some connection => connection ∈ s
  | None => True
  end.

(** ** The connections and cursors of a run *)

Inductive resource_event : Type :=
| Opened (connection : Connection)
| Closed (connection : Connection)
| CursorOpened (connection : Connection) (cursor : Cursor)
| CursorClosed (cursor : Cursor)
| Committed (connection : Connection).

(** What a call that returned has done to a connection or a cursor:
    [connect] and [cursor] open what they return, the [__exit__] of a
    [with] block closes its connection or cursor, [commit] commits.  A
    call that raised is no event. *)
Definition resource_event_of (en : entry) : option resource_event :=
  match en with
  | Entry c r =>
      match c in Ext.call R return exn + R -> option resource_event with
      | Ext.connect _ _ _ =>
          fun r =>
            match r with
            | inr connection => Some (Opened connection)
            | inl _ => None
            end
      | Ext.connection_exit connection =>
          fun r =>
            match r with
            | inr _ => Some (Closed connection)
            | inl _ => None
            end
      | Ext.cursor connection =>
          fun r =>
            match r with
            | inr cursor => Some (CursorOpened connection cursor)
            | inl _ => None
            end
      | Ext.cursor_exit cursor =>
          fun r =>
            match r with
            | inr _ => Some (CursorClosed cursor)
            | inl _ => None
            end
      | Ext.commit connection =>
          fun r =>
            match r with
            | inr _ => Some (Committed connection)
            | inl _ => None
            end
      | _ => fun _ => None
      end r
  end.

(** The events of a run of [oracleai_demo.ipynb] in which every cell
    returns, cell by cell: Create Demo User, Connect to Demo User,
    Populate a Demo Table, Create Credential, the pipeline cell. *)
Definition resource_protocol (c1 : Connection) (k1 : Cursor)
    (c2 : Connection) (k2 k3 : Cursor) (c3 : Connection)
    : list resource_event :=
  [ Opened c1; CursorOpened c1 k1; CursorClosed k1; Closed c1;
    Opened c2;
    CursorOpened c2 k2; CursorClosed k2; Committed c2;
    CursorOpened c2 k3; CursorClosed k3;
    Opened c3; Closed c3 ].

(** [mute f p]: [f] reads nothing from the calls of [p]. *)
Inductive mute {X A : Type} (f : entry -> option X) : prog A -> Prop :=
| mute_Ret a : mute f (Ret a)
| mute_Raise e : mute f (Raise e)
| mute_Vis R (c : Ext.call R) k :
    (forall r, f (Entry c r) = None) -> (forall r, mute f (k r)) ->
    mute f (Vis c k).

Definition Mute {X A : Type} (f : entry -> option X) (m : nb A) : Prop :=
  forall hp, mute f (m hp).

(** ** The loaders of a run *)

Inductive loader_event : Type :=
| LoaderMade (loader : Loader)
| LoadCalled (loader : Loader).

(** [OracleDocLoader] makes the loader it returns; [load] is a call on
    a loader, whatever its outcome. *)
Definition loader_event_of (en : entry) : option loader_event :=
  match en with
  | Entry c r =>
      match c in Ext.call R return exn + R -> option loader_event with
      | Ext.OracleDocLoader _ _ =>
          fun r =>
            match r with
            | inr loader => Some (LoaderMade loader)
            | inl _ => None
            end
      | Ext.load loader => fun _ => Some (LoadCalled loader)
      | _ => fun _ => None
      end r
  end.

(** ** The statements of the populate cell *)

Definition is_commit {R : Type} (c : Ext.call R) : bool :=
  match c with
  | Ext.commit _ => true
  | _ => false
  end.

(** ** The flow of texts and documents through a run *)

(** The documents [load] returned. *)
Definition loaded_of (en : entry) : option (list RawDocument) :=
  match en with
  | Entry c r =>
      match c in Ext.call R return exn + R -> option (list RawDocument) with
      | Ext.load _ =>
          fun r => match r with inr docs => Some docs | inl _ => None end
      | _ => fun _ => None
      end r
  end.

(** A [get_summary] call that returned: its text and its answer. *)
Definition summary_call_of (en : entry) : option (string * list string) :=
  match en with
  | Entry c r =>
      match c in Ext.call R
            return exn + R -> option (string * list string) with
      | Ext.get_summary _ text =>
          fun r =>
            match r with inr summ => Some (text, summ) | inl _ => None end
      | _ => fun _ => None
      end r
  end.

(** A [split_text] call that returned: its text and its answer. *)
Definition split_call_of (en : entry) : option (string * list string) :=
  match en with
  | Entry c r =>
      match c in Ext.call R
            return exn + R -> option (string * list string) with
      | Ext.split_text _ text =>
          fun r =>
            match r with inr chunks => Some (text, chunks) | inl _ => None end
      | _ => fun _ => None
      end r
  end.

(** What has come from the libraries so far: the documents [load]
    returned, and the [get_summary] and [split_text] calls that
    returned, each with its text and its answer, in the order of the
    calls. *)
Record flow : Type := mkFlow {
  fl_loaded : list RawDocument;
  fl_summaries : list (string * list string);
  fl_splits : list (string * list string)
}.

Definition flow_step (R : Type) (s : flow) (c : Ext.call R)
    : exn + R -> flow :=
  match c in Ext.call R return exn + R -> flow with
  | Ext.load _ =>
      fun r =>
        match r with
        | inr docs =>
            mkFlow (fl_loaded s ++ docs) (fl_summaries s) (fl_splits s)
        | inl _ => s
        end
  | Ext.get_summary _ text =>
      fun r =>
        match r with
        | inr summ =>
            mkFlow (fl_loaded s) (fl_summaries s ++ [(text, summ)])
              (fl_splits s)
        | inl _ => s
        end
  | Ext.split_text _ text =>
      fun r =>
        match r with
        | inr chunks =>
            mkFlow (fl_loaded s) (fl_summaries s)
              (fl_splits s ++ [(text, chunks)])
        | inl _ => s
        end
  | _ => fun _ => s
  end.

(** The last [n] elements of a list. *)
Definition lastn {X : Type} (n : nat) (l : list X) : list X :=
  drop (length l - n) l.

(** [docs] has, for every document of [raws] in order and for every
    chunk of the list of [chunkss] at its place, in order, one document
    with the chunk as its text and with a metadata mapping that agrees
    with that of the document of [raws] outside [pipeline_keys]. *)
Definition chunk_documents_of (raws : list RawDocument)
    (chunkss : list (list string)) (docs : list RawDocument) : Prop :=
  exists groups : list (list RawDocument),
    docs = concat groups /\
    Forall3
      (fun raw chunks group =>
         raw_content <$> group = chunks /\
         Forall (fun d => agree_off pipeline_keys (raw_metadata d)
                            (raw_metadata raw)) group)
      raws chunkss groups.

(** The documents given to the vector store are made of the loaded
    documents and of their chunks: the last [split_text] calls, one for
    each loaded document, were made on the texts of the loaded
    documents in order, and [docs] holds the chunks they returned. *)
Definition made_of_chunks (s : flow) (docs : list RawDocument) : Prop :=
  (lastn (length (fl_loaded s)) (fl_splits s)).*1
  = raw_content <$> fl_loaded s /\
  chunk_documents_of (fl_loaded s)
    (lastn (length (fl_loaded s)) (fl_splits s)).*2 docs.

(** A call is in the flow: the text given to [get_summary] or to
    [split_text] is the text of a loaded document, the text given to
    [embed_query] is a chunk that [split_text] returned, and the
    documents given to the vector store are made of the loaded
    documents and of their chunks. *)
Definition flow_ok (R : Type) (s : flow) (c : Ext.call R) : Prop :=
  match c with
  | Ext.get_summary _ text => text ∈ raw_content <$> fl_loaded s
  | Ext.split_text _ text => text ∈ raw_content <$> fl_loaded s
  | Ext.embed_query _ text => text ∈ concat (fl_splits s).*2
  | Ext.from_documents docs _ _ _ _ => made_of_chunks s docs
  | _ => True
  end.

Definition flows (tr : list entry) : Prop :=
  accepts flow_ok flow_step (mkFlow [] [] []) tr.

(** Once a call has raised, only [with] blocks are left. *)
Definition fails_fast (tr : list entry) : Prop :=
  forall tr1 en tr2,
    tr = tr1 ++ en :: tr2 -> failed en = true ->
    Forall (fun en' => leaves en' = true) tr2.

(** ** What the pipeline cell builds, whatever the libraries answer *)

(** One document per chunk: for the document number [i] of [docs],
    counted from [start], with the summary [summs !! i] and the chunks
    [chunkss !! i], and for its chunk number [j], counted from 1. *)
Definition chunk_documents_from (start : nat) (hp : heap)
    (docs : list Document) (summs chunkss : list (list string))
    : list RawDocument :=
  concat
    (imap
       (fun i '(doc, (summ, chunks)) =>
          imap
            (fun j chunk =>
               mkRaw chunk
                 (expected_metadata (hp !!! metadata doc) (i + start)
                    (j + 1) summ))
            chunks)
       (zip docs (zip summs chunkss))).

Definition chunk_documents (hp : heap) (docs : list Document)
    (summs chunkss : list (list string)) : list RawDocument :=
  chunk_documents_from 1 hp docs summs chunkss.

(** The loop over the chunks of a document raises nothing: there is no
    chunk, or the metadata has a [str] under [_oid] and the summary is
    not empty. *)
Definition processed (hp : heap)
    (x : Document * (list string * list string)) : Prop :=
  x.2.2 = [] \/ chunk_error (hp !!! metadata x.1) x.2.1 = None.

(** A document whose metadata has a [str] under [_oid]. *)
Definition has_oid (hp : heap) (doc : Document) : Prop :=
  exists (m : pydict) (oid : string),
    hp !! metadata doc = Some m /\ m !! "_oid" = Some (PStr oid).

(** A world in which [get_summary] answers the number of the call with
    the text: the same text gets another summary each time. *)
Definition counting_world : handler nat :=
  fun R c w =>
    (S w,
     match c in Ext.call R return exn + R with
     | Ext.get_summary _ text => inr [str_of_int w +:+ ": " +:+ text]
     | c' => inr (answers sample_docs sample_summarize sample_split
                    sample_embed _ c')
     end).

(** Two documents with the same text. *)
Definition twin_documents : list Document :=
  [ mkDocument "Three." 0; mkDocument "Three." 1 ].

(** The logic the flow of the cells is checked in. *)
Abbreviation Flow := (Safe flow_ok flow_step).

(** The documents of the notebook are the loaded ones, in order. *)
Definition held (s : flow) (hp : heap) (docs : list Document) : Prop :=
  Forall (fun d => metadata d < length hp) docs /\
  resolve hp <$> docs = fl_loaded s.

(** What the pipeline cell hands on: documents built from the loaded
    ones and from the chunks its own [split_text] calls returned. *)
Definition handed_on (s : flow) (hp : heap) (docs : list Document)
    (s' : flow) (hp' : heap) (cwm : list Document) : Prop :=
  exists summs chunkss,
    fl_loaded s' = fl_loaded s /\
    fl_splits s' = fl_splits s ++ zip (page_content <$> docs) chunkss /\
    length summs = length docs /\ length chunkss = length docs /\
    built hp hp' cwm (chunk_documents hp docs summs chunkss).

(** ** Equations of [run] *)

Section RunFacts.
Context {World : Type}.
Implicit Types (h : handler World) (w : World).

Lemma run_bind {A B : Type} (p : prog A) (f : A -> prog B) h w :
  run (bind p f) h w =
  match run p h w with
  | (tr, w1, inl e) => (tr, w1, inl e)
  | (tr, w1, inr a) =>
      let '(tr2, w2, res) := run (f a) h w1 in (tr ++ tr2, w2, res)
  end.
Proof.
  revert w. induction p as [a|e|R c k IH]; intros w; simpl.
  - by destruct (run (f a) h w) as [[tr2 w2] res].
  - done.
  - destruct (h R c w) as [w1 r]. rewrite IH.
    destruct (run (k r) h w1) as [[tr w2] [e|a]]; [done|].
    by destruct (run (f a) h w2) as [[tr2 w3] res].
Qed.

Lemma run_perform {R : Type} (c : Ext.call R) h w :
  run (perform c) h w = ([Entry c (h R c w).2], (h R c w).1, (h R c w).2).
Proof.
  unfold perform. simpl. destruct (h R c w) as [w1 [e|v]]; done.
Qed.

Lemma run_ext {R : Type} (c : Ext.call R) (hp : heap) h w :
  run (ext c hp) h w =
  match (h R c w).2 with
  | inl e => ([Entry c (inl e)], (h R c w).1, inl e)
  | inr v => ([Entry c (inr v)], (h R c w).1, inr (v, hp))
  end.
Proof.
  unfold ext. rewrite run_bind, run_perform.
  destruct (h R c w) as [w1 [e|v]]; done.
Qed.

Lemma run_ext_inr {R : Type} (c : Ext.call R) (hp : heap) h w tr w' v hp' :
  run (ext c hp) h w = (tr, w', inr (v, hp')) ->
  (h R c w).2 = inr v /\ tr = [Entry c (inr v)] /\ w' = (h R c w).1 /\
  hp' = hp.
Proof.
  rewrite run_ext. destruct ((h R c w).2) as [e|v0]; [done|].
  by intros [= <- <- <- <-].
Qed.

Lemma run_mbind {A B : Type} (m : nb A) (f : A -> nb B) (hp : heap) h w :
  run ((m ≫= f) hp) h w =
  match run (m hp) h w with
  | (tr, w1, inl e) => (tr, w1, inl e)
  | (tr, w1, inr (a, hp1)) =>
      let '(tr2, w2, res) := run (f a hp1) h w1 in (tr ++ tr2, w2, res)
  end.
Proof.
  unfold mbind, nb_bind. rewrite run_bind.
  by destruct (run (m hp) h w) as [[tr w1] [e|[a hp1]]].
Qed.

Lemma run_mbind_inr {A B : Type} (m : nb A) (f : A -> nb B) (hp : heap)
    h w tr w' b hp' :
  run ((m ≫= f) hp) h w = (tr, w', inr (b, hp')) ->
  exists tr1 w1 a hp1 tr2,
    run (m hp) h w = (tr1, w1, inr (a, hp1)) /\
    run (f a hp1) h w1 = (tr2, w', inr (b, hp')) /\
    tr = tr1 ++ tr2.
Proof.
  rewrite run_mbind. destruct (run (m hp) h w) as [[tr1 w1] [e|[a hp1]]];
    [done|].
  destruct (run (f a hp1) h w1) as [[tr2 w2] res] eqn:E2.
  intros [= <- <- <-]. by exists tr1, w1, a, hp1, tr2.
Qed.

Lemma run_mret_inr {A : Type} (a : A) (hp : heap) h w tr w' b hp' :
  run ((mret a : nb A) hp) h w = (tr, w', inr (b, hp')) ->
  tr = [] /\ w' = w /\ b = a /\ hp' = hp.
Proof. by intros [= <- <- <- <-]. Qed.

End RunFacts.

(** ** The loops that collect chunks and embeddings *)

Section Loops.
Context {World : Type}.
Implicit Types (h : handler World) (w : World).

Lemma collect_chunks_from (splitter : Splitter) (docs : list Document)
    (acc : list string) (hp : heap) h w tr w' list_chunks hp' :
  run (for_each docs
         (fun doc list_chunks =>
            chunks ← ext (Ext.split_text splitter (page_content doc));
            mret (list_chunks ++ chunks))
         acc hp) h w = (tr, w', inr (list_chunks, hp')) ->
  omap split_text_of tr = page_content <$> docs /\
  list_chunks = acc ++ concat (omap chunks_of tr) /\
  hp' = hp.
Proof.
  revert acc hp w tr. induction docs as [|doc docs IH]; intros acc hp w tr.
  - intros (-> & _ & -> & ->)%run_mret_inr. by rewrite app_nil_r.
  - cbn [for_each].
    intros (tr1 & w1 & acc1 & hp1 & tr2 & Hbody & Hrest & ->)%run_mbind_inr.
    apply run_mbind_inr in Hbody
      as (tra & wa & chunks & hpa & trb & Hcall & Hret & ->).
    apply run_ext_inr in Hcall as (Hans & -> & -> & ->).
    apply run_mret_inr in Hret as (-> & -> & -> & ->).
    apply IH in Hrest as (Htexts & -> & ->).
    split_and!; [|by rewrite <-(assoc_L (++))|done].
    cbn. by rewrite Htexts.
Qed.

Section Pure.
Variables (split : string -> list string) (embed : string -> Embedding).
Variable h : handler World.
Hypothesis split_pure :
  forall sp text w, (h _ (Ext.split_text sp text) w).2 = inr (split text).
Hypothesis embed_pure :
  forall e text w, (h _ (Ext.embed_query e text) w).2 = inr (embed text).

Lemma embed_chunks_from (embedder : Embedder) (chunks : list string)
    (acc : list Embedding) (hp : heap) w :
  exists tr w',
    run (for_each chunks
           (fun chunk embeddings =>
              embed ← ext (Ext.embed_query embedder chunk);
              mret (embeddings ++ [embed]))
           acc hp) h w
    = (tr, w', inr (acc ++ (embed <$> chunks), hp)).
Proof using embed_pure.
  revert acc w. induction chunks as [|chunk chunks IH]; intros acc w.
  - exists [], w. by rewrite app_nil_r.
  - cbn [for_each]. rewrite !run_mbind, run_ext, embed_pure. cbn [mret nb_ret run].
    destruct (IH (acc ++ [embed chunk])
                (h _ (Ext.embed_query embedder chunk) w).1) as (tr & w' & ->).
    rewrite <-(assoc_L (++) acc). by eexists _, _.
Qed.

Lemma collect_embeddings_from (embedder : Embedder) (splitter : Splitter)
    (docs : list Document) (acc : list Embedding) (hp : heap) w :
  exists tr w',
    run (for_each docs
           (fun doc embeddings =>
              chunks ← ext (Ext.split_text splitter (page_content doc));
              for_each chunks
                (fun chunk embeddings =>
                   embed ← ext (Ext.embed_query embedder chunk);
                   mret (embeddings ++ [embed]))
                embeddings)
           acc hp) h w
    = (tr, w',
       inr (acc ++ concat ((fun doc => embed <$> split (page_content doc))
                             <$> docs), hp)).
Proof using split_pure embed_pure.
  revert acc w. induction docs as [|doc docs IH]; intros acc w.
  - exists [], w. by rewrite app_nil_r.
  - cbn [for_each]. rewrite !run_mbind, run_ext, split_pure.
    destruct (embed_chunks_from embedder (split (page_content doc)) acc hp
                (h _ (Ext.split_text splitter (page_content doc)) w).1)
      as (tr1 & w1 & ->).
    destruct (IH (acc ++ (embed <$> split (page_content doc))) w1)
      as (tr2 & w2 & ->).
    rewrite <-(assoc_L (++) acc). by eexists _, _.
Qed.

End Pure.

End Loops.
Section Heap.
Implicit Types (hp : heap) (m : pydict).

Lemma heap_lookup_new hp m : (hp ++ [m]) !!! length hp = m.
Proof. by apply list_lookup_total_middle. Qed.

Lemma heap_alter_new hp m (f : pydict -> pydict) :
  alter f (length hp) (hp ++ [m]) = hp ++ [f m].
Proof. rewrite alter_app_r_alt by lia. by rewrite Nat.sub_diag. Qed.

Lemma oid_of_str m oid : m !! "_oid" = Some (PStr oid) -> oid_of m = oid.
Proof. unfold oid_of. by intros ->. Qed.

Lemma process_chunk_eq (id : nat) (doc : Document) (summ : list string)
    (ic : nat) (chunk : string) (cwm : list Document) hp :
  OracleDemo.process_chunk id doc summ ic chunk cwm hp =
  match (hp !!! metadata doc : pydict) !! "_oid" with
  | Some (PStr _) =>
      match summ !! 0 with
      | Some _ =>
          Ret (cwm ++ [mkDocument chunk (length hp)],
               hp ++ [expected_metadata (hp !!! metadata doc) id ic summ])
      | None => Raise IndexError
      end
  | Some _ => Raise TypeError
  | None => Raise (KeyError "_oid")
  end.
Proof.
  unfold OracleDemo.process_chunk, dict_copy, dict_getitem.
  unfold mbind at 1. unfold nb_bind at 1. cbn [bind].
  unfold mbind at 1. unfold nb_bind at 1. rewrite heap_lookup_new.
  destruct ((hp !!! metadata doc : pydict) !! "_oid") as [[oid|n|l]|] eqn:Hoid;
    cbn [bind]; try done.
  unfold list_getitem, dict_setitem, mbind, nb_bind, mret, nb_ret, raise.
  cbn [add_str bind]. unfold mret, nb_ret. cbn [bind].
  rewrite !heap_alter_new.
  destruct (summ !! 0) as [s0|] eqn:Hs; cbn [bind]; [|done].
  rewrite heap_alter_new. unfold expected_metadata, first_of, OracleDemo.str_of_str.
  by rewrite Hs, (oid_of_str _ _ Hoid).
Qed.
End Heap.

Section Built.
Implicit Types (hp : heap) (ds : list Document) (raws : list RawDocument).

Lemma built_nil hp : built hp hp [] [].
Proof. split; [by rewrite app_nil_r|done]. Qed.

Lemma built_one hp (text : string) (m : pydict) :
  built hp (hp ++ [m]) [mkDocument text (length hp)] [mkRaw text m].
Proof. split; [done|]. cbn. by rewrite Nat.add_0_r. Qed.

Lemma built_app hp hp1 hp2 ds1 ds2 raws1 raws2 :
  built hp hp1 ds1 raws1 -> built hp1 hp2 ds2 raws2 ->
  built hp hp2 (ds1 ++ ds2) (raws1 ++ raws2).
Proof.
  intros [-> ->] [-> ->]. split.
  - by rewrite fmap_app, (assoc_L (++)).
  - rewrite imap_app. f_equal. apply imap_ext. intros j r _. cbn.
    f_equal. rewrite length_app, length_fmap. lia.
Qed.

Lemma built_length hp hp' ds raws :
  built hp hp' ds raws -> length hp' = length hp + length raws.
Proof. intros [-> _]. by rewrite length_app, length_fmap. Qed.

(** Objects that were in the store before are still there, unchanged. *)
Lemma built_frame hp hp' ds raws l m :
  built hp hp' ds raws -> hp !! l = Some m -> hp' !! l = Some m.
Proof. intros [-> _] Hl. by apply lookup_app_l_Some. Qed.

Lemma built_frame_total hp hp' ds raws l :
  built hp hp' ds raws -> l < length hp -> hp' !!! l = hp !!! l.
Proof. intros [-> _] Hl. by apply lookup_total_app_l. Qed.

(** The documents refer to the new objects only. *)
Lemma built_new hp hp' ds raws :
  built hp hp' ds raws ->
  Forall (fun d => length hp <= metadata d < length hp') ds.
Proof.
  intros [-> ->]. apply Forall_forall. intros d Hd.
  apply elem_of_lookup_imap in Hd as (j & r & -> & Hj). cbn.
  apply lookup_lt_Some in Hj. rewrite length_app, length_fmap. lia.
Qed.

(** What a library sees of the documents, now or after the store grew. *)
Lemma built_resolve hp hp' ds raws (more : heap) :
  built hp hp' ds raws -> resolve (hp' ++ more) <$> ds = raws.
Proof.
  intros [-> ->]. rewrite fmap_imap. apply list_eq. intros j.
  rewrite list_lookup_imap. destruct (raws !! j) as [r|] eqn:Hj; [|done].
  cbn. unfold resolve. cbn. f_equal. destruct r as [text m]. cbn. f_equal.
  apply list_lookup_total_correct.
  rewrite <-(assoc_L (++)), lookup_app_r by lia.
  replace (length hp + j - length hp) with j by lia.
  apply lookup_app_l_Some. by rewrite list_lookup_fmap, Hj.
Qed.

End Built.

(** ** The pipeline cell: the loop over the chunks of a document *)

Section Chunks.
Implicit Types (hp : heap) (doc : Document) (summ chunks : list string).

Lemma process_chunks_ok (id : nat) doc summ chunks (start : nat)
    (cwm : list Document) hp (oid s0 : string) :
  metadata doc < length hp ->
  (hp !!! metadata doc : pydict) !! "_oid" = Some (PStr oid) ->
  summ !! 0 = Some s0 ->
  exists ds hp',
    for_each (enumerate chunks start)
      (fun '(ic, chunk) chunks_with_mdata =>
         OracleDemo.process_chunk id doc summ ic chunk chunks_with_mdata)
      cwm hp
    = Ret (cwm ++ ds, hp') /\
    built hp hp' ds
      (imap (fun j chunk =>
               mkRaw chunk
                 (expected_metadata (hp !!! metadata doc) id (j + start) summ))
         chunks).
Proof.
  intros Hvalid Hoid Hs. revert start cwm hp Hvalid Hoid.
  induction chunks as [|chunk chunks IH]; intros start cwm hp Hvalid Hoid.
  - exists [], hp. split; [by rewrite app_nil_r|apply built_nil].
  - cbn [enumerate for_each]. unfold mbind at 1. unfold nb_bind at 1.
    rewrite process_chunk_eq, Hoid, Hs. cbn [bind].
    set (m' := expected_metadata (hp !!! metadata doc) id start summ).
    assert (Hsame : (hp ++ [m']) !!! metadata doc = hp !!! metadata doc)
      by by apply lookup_total_app_l.
    destruct (IH (S start) (cwm ++ [mkDocument chunk (length hp)])
                (hp ++ [m'])) as (ds & hp' & -> & Hbuilt).
    { rewrite length_app. lia. }
    { by rewrite Hsame. }
    exists (mkDocument chunk (length hp) :: ds), hp'. split.
    + by rewrite <-(assoc_L (++)).
    + rewrite imap_cons. cbn [Nat.add].
      apply (built_app hp (hp ++ [m']) hp' [_] ds [_]); [apply built_one|].
      rewrite Hsame in Hbuilt.
      erewrite imap_ext; [exact Hbuilt|]. intros j x _. cbn.
      by rewrite Nat.add_succ_r.
Qed.

End Chunks.

Section CollectTotal.
Context {World : Type}.
Variable h : handler World.
Hypothesis split_answers :
  forall sp text w, exists chunks,
    (h _ (Ext.split_text sp text) w).2 = inr chunks.

Lemma collect_chunks_total (splitter : Splitter) (docs : list Document)
    (acc : list string) (hp : heap) (w : World) :
  exists tr w' list_chunks,
    run (for_each docs
           (fun doc list_chunks =>
              chunks ← ext (Ext.split_text splitter (page_content doc));
              mret (list_chunks ++ chunks))
           acc hp) h w = (tr, w', inr (list_chunks, hp)).
Proof using split_answers.
  revert acc w. induction docs as [|doc docs IH]; intros acc w.
  - by exists [], w, acc.
  - cbn [for_each]. rewrite !run_mbind, run_ext.
    destruct (split_answers splitter (page_content doc) w) as [chunks ->].
    cbn [mret nb_ret run].
    destruct (IH (acc ++ chunks)
                (h _ (Ext.split_text splitter (page_content doc)) w).1)
      as (tr & w' & lc & ->).
    by eexists _, _, _.
Qed.

End CollectTotal.

(** ** Programs whose calls are allowed *)

Section SafeFacts.
Context {S : Type}.
Variable ok : forall R : Type, S -> Ext.call R -> Prop.
Variable step : forall R : Type, S -> Ext.call R -> exn + R -> S.

Lemma safe_run {World A : Type} (Q : S -> A -> Prop) (s : S) (p : prog A) :
  safe ok step Q s p ->
  forall (h : handler World) w tr w' res,
    run p h w = (tr, w', res) ->
    accepts ok step s tr /\
    (forall a, res = inr a -> Q (after step s tr) a).
Proof.
  induction 1 as [s a HQ|s e|s R c k Hok _ IH]; intros h w tr w' res; cbn.
  - intros [= <- _ <-]. split; [done|]. by intros ? [= <-].
  - by intros [= <- _ <-].
  - destruct (h R c w) as [w1 r].
    destruct (run (k r) h w1) as [[tr1 w2] res1] eqn:Hk.
    intros [= <- _ <-]. cbn. apply IH in Hk as [Hacc Hres]. by split_and!.
Qed.

Lemma safe_weaken {A : Type} (Q Q' : S -> A -> Prop) (s : S) (p : prog A) :
  (forall s' a, Q s' a -> Q' s' a) ->
  safe ok step Q s p -> safe ok step Q' s p.
Proof. intros HQ. induction 1; constructor; auto. Qed.

Lemma safe_bind {A B : Type} (Q1 : S -> A -> Prop) (Q2 : S -> B -> Prop)
    (s : S) (p : prog A) (f : A -> prog B) :
  safe ok step Q1 s p ->
  (forall s' a, Q1 s' a -> safe ok step Q2 s' (f a)) ->
  safe ok step Q2 s (bind p f).
Proof.
  intros Hp Hf. induction Hp as [s a HQ|s e|s R c k Hok _ IH]; cbn.
  - by apply Hf.
  - constructor.
  - by constructor.
Qed.

Lemma safe_perform {R : Type} (Q : S -> R -> Prop) (s : S) (c : Ext.call R) :
  ok R s c -> (forall v, Q (step R s c (inr v)) v) ->
  safe ok step Q s (perform c).
Proof. intros Hok HQ. constructor; [done|]. intros [e|v]; by constructor. Qed.

(** Leaving a [with] block makes a call that is always allowed and
    changes no state. *)
Lemma safe_finally {A : Type} (Q : S -> A -> Prop) (s : S) (p : prog A)
    (x : Ext.call unit) :
  (forall s', ok unit s' x) -> (forall s' r, step unit s' x r = s') ->
  safe ok step Q s p -> safe ok step Q s (finally_ p (perform x)).
Proof.
  intros Hok Hstep. induction 1 as [s a HQ|s e|s R c k Hc _ IH]; cbn.
  - constructor; [done|]. intros r. rewrite Hstep.
    destruct r as [e|v]; by constructor.
  - constructor; [done|]. intros [e'|v]; constructor.
  - by constructor.
Qed.

Lemma Safe_weaken {A : Type} (Q Q' : S -> A -> heap -> Prop) (s : S)
    (hp : heap) (m : nb A) :
  (forall s' a hp', Q s' a hp' -> Q' s' a hp') ->
  Safe ok step Q s hp m -> Safe ok step Q' s hp m.
Proof. intros HQ. apply safe_weaken. intros s' [a hp']. apply HQ. Qed.

Lemma Safe_ret {A : Type} (Q : S -> A -> heap -> Prop) (s : S) (hp : heap)
    (a : A) :
  Q s a hp -> Safe ok step Q s hp (mret a).
Proof. intros HQ. by constructor. Qed.

(** A computation that makes no call leaves the state as it is. *)
Lemma Safe_local {A : Type} (Q : S -> A -> heap -> Prop) (s : S) (hp : heap)
    (m : nb A) :
  local m -> (forall a hp', m hp = Ret (a, hp') -> Q s a hp') ->
  Safe ok step Q s hp m.
Proof.
  intros Hm HQ. unfold Safe. destruct (Hm hp) as [[[a hp'] Hr]|[e ->]].
  - rewrite Hr. constructor. by apply HQ.
  - constructor.
Qed.

Lemma Safe_bind {A B : Type} (Q1 : S -> A -> heap -> Prop)
    (Q2 : S -> B -> heap -> Prop) (s : S) (hp : heap) (m : nb A)
    (f : A -> nb B) :
  Safe ok step Q1 s hp m ->
  (forall s' a hp', Q1 s' a hp' -> Safe ok step Q2 s' hp' (f a)) ->
  Safe ok step Q2 s hp (m ≫= f).
Proof.
  intros Hm Hf. eapply safe_bind; [apply Hm|].
  intros s' [a hp'] HQ. by apply Hf.
Qed.

Lemma Safe_ext {R : Type} (Q : S -> R -> heap -> Prop) (s : S) (hp : heap)
    (c : Ext.call R) :
  ok R s c -> (forall v, Q (step R s c (inr v)) v hp) ->
  Safe ok step Q s hp (ext c).
Proof.
  intros Hok HQ.
  eapply safe_bind;
    [by apply (safe_perform (fun s' v => s' = step R s c (inr v)))|].
  intros s' r ->. constructor. apply HQ.
Qed.

(** A call followed by the rest of the cell. *)
Lemma Safe_ext_bind {R B : Type} (Q : S -> B -> heap -> Prop) (s : S)
    (hp : heap) (c : Ext.call R) (f : R -> nb B) :
  ok R s c ->
  (forall v, Safe ok step Q (step R s c (inr v)) hp (f v)) ->
  Safe ok step Q s hp (ext c ≫= f).
Proof.
  intros Hok Hf.
  apply (Safe_bind (fun s' v hp' => s' = step R s c (inr v) /\ hp' = hp)).
  - by apply Safe_ext.
  - intros s' v hp' [-> ->]. apply Hf.
Qed.

Lemma Safe_local_bind {A B : Type} (Q : S -> B -> heap -> Prop) (s : S)
    (hp : heap) (m : nb A) (f : A -> nb B) :
  local m ->
  (forall a hp', m hp = Ret (a, hp') -> Safe ok step Q s hp' (f a)) ->
  Safe ok step Q s hp (m ≫= f).
Proof.
  intros Hm Hf.
  apply (Safe_bind (fun s' a hp' => s' = s /\ m hp = Ret (a, hp'))).
  - by apply Safe_local.
  - intros s' a hp' [-> Hr]. by apply Hf.
Qed.

Lemma Safe_with {R A : Type} (Q : S -> A -> heap -> Prop) (s : S)
    (hp : heap) (mgr : Ext.call R) (exit_ : R -> Ext.call unit)
    (body : R -> nb A) :
  ok R s mgr ->
  (forall x s', ok unit s' (exit_ x)) ->
  (forall x s' r, step unit s' (exit_ x) r = s') ->
  (forall x, Safe ok step Q (step R s mgr (inr x)) hp (body x)) ->
  Safe ok step Q s hp (with_ mgr exit_ body).
Proof.
  intros Hok Hexit Hneutral Hbody. unfold Safe, with_.
  eapply safe_bind;
    [by apply (safe_perform (fun s' x => s' = step R s mgr (inr x)))|].
  intros s' x ->. apply safe_finally; [apply Hexit|apply Hneutral|apply Hbody].
Qed.

(** A loop: [I0] holds before the first round and [I1] after a round. *)
Lemma Safe_for_each {X T : Type} (I0 I1 : S -> T -> heap -> Prop) (s : S)
    (hp : heap) (xs : list X) (body : X -> T -> nb T) (acc : T) :
  I0 s acc hp ->
  (forall x acc s' hp', x ∈ xs -> I0 s' acc hp' \/ I1 s' acc hp' ->
                        Safe ok step I1 s' hp' (body x acc)) ->
  Safe ok step (fun s' acc' hp' => (xs = [] /\ I0 s' acc' hp') \/ I1 s' acc' hp')
    s hp (for_each xs body acc).
Proof.
  intros H0 Hbody.
  assert (Hloop : forall ys acc s' hp',
            (forall y, y ∈ ys -> y ∈ xs) -> I1 s' acc hp' ->
            Safe ok step I1 s' hp' (for_each ys body acc)).
  { induction ys as [|y ys IH]; intros acc' s' hp' Hin H1; cbn.
    - by apply Safe_ret.
    - eapply Safe_bind.
      + apply Hbody; [apply Hin; left|by right].
      + intros s'' acc'' hp'' H1'. apply IH; [|done].
        intros z Hz. apply Hin. by right. }
  destruct xs as [|x xs]; cbn.
  - apply Safe_ret. by left.
  - eapply Safe_bind.
    + apply Hbody; [left|by left].
    + intros s' acc' hp' H1. eapply Safe_weaken; [|apply Hloop; [|done]].
      * intros s'' acc'' hp''. by right.
      * intros y Hy. by right.
Qed.

End SafeFacts.

Section Local.

Lemma local_ret {A : Type} (a : A) : local (mret a).
Proof. intros hp. left. by eexists. Qed.

Lemma local_raise {A : Type} (e : exn) : local (raise (A:=A) e).
Proof. intros hp. right. by eexists. Qed.

Lemma local_bind {A B : Type} (m : nb A) (f : A -> nb B) :
  local m -> (forall a, local (f a)) -> local (m ≫= f).
Proof.
  intros Hm Hf hp. unfold mbind, nb_bind.
  destruct (Hm hp) as [[[a hp'] ->]|[e ->]]; cbn; [apply Hf|].
  right. by eexists.
Qed.

Lemma local_for_each {X T : Type} (xs : list X) (body : X -> T -> nb T)
    (acc : T) :
  (forall x acc, local (body x acc)) -> local (for_each xs body acc).
Proof.
  intros Hbody. revert acc. induction xs as [|x xs IH]; intros acc; cbn.
  - apply local_ret.
  - apply local_bind; [apply Hbody|apply IH].
Qed.

Lemma local_new_dict (d : pydict) : local (new_dict d).
Proof. intros hp. left. by eexists. Qed.

Lemma local_send_documents (ds : list Document) : local (send_documents ds).
Proof. intros hp. left. by eexists. Qed.

Lemma local_receive_documents (raws : list RawDocument) :
  local (receive_documents raws).
Proof.
  induction raws as [|r raws IH]; cbn; [apply local_ret|].
  apply local_bind; [apply local_new_dict|]. intros l.
  apply local_bind; [apply IH|]. intros ds. apply local_ret.
Qed.

Lemma local_process_chunk (id : nat) (doc : Document) (summ : list string)
    (ic : nat) (chunk : string) (cwm : list Document) :
  local (OracleDemo.process_chunk id doc summ ic chunk cwm).
Proof.
  intros hp. rewrite process_chunk_eq.
  destruct (_ !! "_oid") as [[oid|n|l]|]; [|right; by eexists..].
  destruct (summ !! 0); [left|right]; by eexists.
Qed.

End Local.

(** A computation is shown to be local through its structure. *)
Ltac local_tac :=
  repeat first
    [ apply local_ret
    | apply local_raise
    | apply local_receive_documents
    | apply local_send_documents
    | apply local_process_chunk
    | apply local_for_each
    | apply local_bind
    | intros [? ?]
    | intros ? ].

Ltac split_pair :=
  match goal with
  | |- context [match ?a with pair _ _ => _ end] => is_var a; destruct a
  | |- context [let (_, _) := ?a in _] => is_var a; destruct a
  end.


(** ** Programs without handlers *)

Section Handlerless.
Context {World : Type}.
Implicit Types (h : handler World) (w : World).

Lemma doomed_run {A : Type} (e : exn) (p : prog A) :
  doomed e p ->
  forall h w tr w' res,
    run p h w = (tr, w', res) -> res = inl (default e (last_failure tr)).
Proof.
  induction 1 as [|e R c k _ IHl _ IHr]; intros h w tr w' res; cbn.
  - by intros [= <- _ <-].
  - destruct (h R c w) as [w1 [e'|v]];
      destruct (run (k _) h w1) as [[tr1 w2] res1] eqn:Hk;
      intros [= <- _ <-]; cbn.
    + apply IHl in Hk as ->. by destruct (last_failure tr1).
    + apply IHr in Hk as ->. by destruct (last_failure tr1).
Qed.

(** When a call of a program without handlers raises, the program ends
    with the exception of the last call that raised. *)
Lemma handlerless_run {A : Type} (p : prog A) :
  handlerless p ->
  forall h w tr w' res e,
    run p h w = (tr, w', res) -> last_failure tr = Some e -> res = inl e.
Proof.
  induction 1 as [a|e0|R c k Hl _ IHr]; intros h w tr w' res e; cbn.
  - by intros [= <- _ _].
  - by intros [= <- _ _].
  - destruct (h R c w) as [w1 [e'|v]];
      destruct (run (k _) h w1) as [[tr1 w2] res1] eqn:Hk;
      intros [= <- _ <-]; cbn.
    + apply (doomed_run _ _ (Hl e')) in Hk as ->.
      destruct (last_failure tr1); by intros [= ->].
    + destruct (last_failure tr1) eqn:Hlast; [|done].
      intros [= ->]. by eapply IHr.
Qed.

End Handlerless.

Section HandlerlessRules.

Lemma doomed_bind {A B : Type} (e : exn) (p : prog A) (f : A -> prog B) :
  doomed e p -> doomed e (bind p f).
Proof. induction 1; cbn; by constructor. Qed.

Lemma handlerless_bind {A B : Type} (p : prog A) (f : A -> prog B) :
  handlerless p -> (forall a, handlerless (f a)) -> handlerless (bind p f).
Proof.
  intros Hp Hf. induction Hp as [a|e|R c k Hl _ IHr]; cbn.
  - apply Hf.
  - constructor.
  - constructor; [|done]. intros e. by apply doomed_bind.
Qed.

Lemma handlerless_perform {R : Type} (c : Ext.call R) :
  handlerless (perform c).
Proof. constructor; by constructor. Qed.

Lemma doomed_finally {A : Type} (e : exn) (p : prog A)
    (x : Ext.call unit) :
  doomed e p -> doomed e (finally_ p (perform x)).
Proof.
  induction 1; cbn.
  - constructor; intros; constructor.
  - by constructor.
Qed.

Lemma handlerless_finally {A : Type} (p : prog A) (x : Ext.call unit) :
  handlerless p -> handlerless (finally_ p (perform x)).
Proof.
  induction 1 as [a|e|R' c k Hl _ IHr]; cbn.
  - constructor; intros; constructor.
  - constructor; intros; constructor.
  - constructor; [|done]. intros e. by apply doomed_finally.
Qed.

End HandlerlessRules.

Section HandlerlessNotebook.

Lemma Handlerless_ret {A : Type} (a : A) : Handlerless (mret a).
Proof. intros hp. constructor. Qed.

Lemma Handlerless_bind {A B : Type} (m : nb A) (f : A -> nb B) :
  Handlerless m -> (forall a, Handlerless (f a)) -> Handlerless (m ≫= f).
Proof.
  intros Hm Hf hp. apply handlerless_bind; [apply Hm|].
  intros [a hp']. apply Hf.
Qed.

Lemma Handlerless_ext {R : Type} (c : Ext.call R) : Handlerless (ext c).
Proof.
  intros hp. apply handlerless_bind; [apply handlerless_perform|].
  intros r. constructor.
Qed.

Lemma Handlerless_with {R A : Type} (mgr : Ext.call R)
    (exit_ : R -> Ext.call unit) (body : R -> nb A) :
  (forall x, Handlerless (body x)) -> Handlerless (with_ mgr exit_ body).
Proof.
  intros Hbody hp. apply handlerless_bind; [apply handlerless_perform|].
  intros x. apply handlerless_finally, Hbody.
Qed.

Lemma Handlerless_for_each {X S : Type} (xs : list X) (body : X -> S -> nb S)
    (s : S) :
  (forall x s, Handlerless (body x s)) -> Handlerless (for_each xs body s).
Proof.
  intros Hbody. revert s. induction xs as [|x xs IH]; intros s; cbn.
  - apply Handlerless_ret.
  - apply Handlerless_bind; [apply Hbody|apply IH].
Qed.

Lemma Handlerless_local {A : Type} (m : nb A) : local m -> Handlerless m.
Proof. intros Hm hp. destruct (Hm hp) as [[r ->]|[e ->]]; constructor. Qed.

End HandlerlessNotebook.

(** The rules, applied through the structure of a cell. *)
Ltac handlerless_step :=
  first
    [ apply Handlerless_ext
    | apply Handlerless_local; solve [local_tac]
    | apply Handlerless_bind
    | apply Handlerless_with
    | apply Handlerless_for_each
    | progress cbv zeta
    | intros [? ?]
    | intros ? ].

Ltac handlerless_cell := repeat handlerless_step.

Section HandlerlessCells.
Import OracleDemo.

Lemma Handlerless_oracle_notebook : Handlerless OracleDemo.notebook.
Proof.
  unfold OracleDemo.notebook, create_demo_user, connect_demo_user,
    populate_demo_table, load_the_onnx_model, create_credential,
    load_documents, generate_summary, split_documents, collect_chunks,
    generate_embeddings, collect_embeddings, end_to_end_pipeline,
    process_documents, create_vector_store, create_the_index,
    semantic_search.
  handlerless_cell.
Qed.

Lemma Handlerless_spacy_notebook : Handlerless SpacyDemo.notebook.
Proof.
  unfold SpacyDemo.notebook, SpacyDemo.initialize, SpacyDemo.embed_the_texts,
    SpacyDemo.embed_the_query.
  handlerless_cell.
Qed.

End HandlerlessCells.

(** ** The configuration of the summarization API *)

Lemma summary_params_keys : dom OracleDemo.summary_params = summary_keys.
Proof. vm_compute. reflexivity. Qed.

(** The rules for a property of single calls; [ok_tac] proves that a
    call is allowed. *)
Ltac calls_step ok_tac :=
  first
    [ apply Safe_ret; exact I
    | apply Safe_ext_bind; [ok_tac | intros ?]
    | apply Safe_ext; [ok_tac | intros; exact I]
    | apply Safe_with; [ok_tac | intros; exact I | reflexivity | intros ?]
    | apply Safe_local_bind; [solve [local_tac] | intros ? ? _]
    | apply Safe_local; [solve [local_tac] | intros; exact I]
    | eapply Safe_weaken;
      [ | apply (Safe_for_each _ _ (fun _ _ _ => True) (fun _ _ _ => True));
          [exact I | intros ? ? ? ? _ _] ];
      [intros; exact I | ]
    | apply (Safe_bind _ _ (fun _ _ _ => True)); [ | intros ? ? ? _ ]
    | split_pair
    | progress cbv zeta
    | progress cbn beta ].

Ltac keys_ok := first [exact I | exact summary_params_keys].

Section SummaryKeys.
Import OracleDemo.

Lemma summary_keys_oracle_notebook (hp : heap) :
  Safe summary_keys_ok no_step (fun _ _ _ => True) tt hp OracleDemo.notebook.
Proof.
  unfold OracleDemo.notebook, create_demo_user, connect_demo_user,
    populate_demo_table, load_the_onnx_model, create_credential,
    load_documents, generate_summary, split_documents, collect_chunks,
    generate_embeddings, collect_embeddings, end_to_end_pipeline,
    process_documents, create_vector_store, create_the_index,
    semantic_search.
  repeat calls_step keys_ok.
Qed.

Lemma summary_keys_spacy_notebook (hp : heap) :
  Safe summary_keys_ok no_step (fun _ _ _ => True) tt hp SpacyDemo.notebook.
Proof.
  unfold SpacyDemo.notebook, SpacyDemo.initialize, SpacyDemo.embed_the_texts,
    SpacyDemo.embed_the_query.
  repeat calls_step keys_ok.
Qed.

End SummaryKeys.


(** ** The chain of stages *)

Section ChainFacts.

Lemma rank_inj (a b : stage) : rank a = rank b -> a = b.
Proof. by destruct a, b. Qed.

Lemma chain_ok_none (R : Type) (seen : list stage) (c : Ext.call R) :
  stage_of_call c = None -> chain_ok R seen c.
Proof. unfold chain_ok. by intros ->. Qed.

Lemma chain_ok_seen (R : Type) (seen : list stage) (c : Ext.call R) b :
  stage_of_call c = Some b -> b ∈ seen -> chain_ok R seen c.
Proof. unfold chain_ok. intros ->. by left. Qed.

(** A stage listed no earlier than all the stages called so far was
    called before or is listed after all of them. *)
Lemma chain_ok_upto (R : Type) (seen : list stage) (c : Ext.call R) b :
  stage_of_call c = Some b -> seen_upto b seen -> chain_ok R seen c.
Proof.
  unfold chain_ok, seen_upto. intros ->.
  induction 1 as [|a seen Ha _ [IH|IH]].
  - right. constructor.
  - left. by right.
  - destruct (decide (a = b)) as [->|Hne]; [left; left|].
    right. constructor; [|done].
    assert (rank a ≠ rank b) by (intros ?%rank_inj; done). lia.
Qed.

(** A log that [chain_ok] accepts has its first calls in chain order. *)
Lemma accepts_first_calls (seen : list stage) (tr : list entry) :
  accepts chain_ok chain_step seen tr ->
  forall l1 b l2,
    stages tr = l1 ++ b :: l2 -> b ∉ l1 -> b ∉ seen ->
    Forall (fun a => rank a < rank b) (l1 ++ seen).
Proof.
  revert seen. induction tr as [|[R c r] tr IH]; intros seen Hacc l1 b l2.
  - by destruct l1.
  - destruct Hacc as [Hok Hacc]. unfold stages in *. cbn.
    unfold stage_of at 1. cbn. unfold chain_ok, chain_step in *.
    destruct (stage_of_call c) as [x|]; cbn; [|by apply IH].
    destruct l1 as [|y l1]; cbn.
    + intros [= <- _] _ Hb. by destruct Hok.
    + intros [= <- Htr] [Hne Hl1]%not_elem_of_cons Hb.
      specialize (IH _ Hacc l1 b l2 Htr Hl1).
      rewrite Forall_app, Forall_cons in IH.
      destruct IH as (H1 & Hx & H2).
      { by apply not_elem_of_cons. }
      rewrite Forall_cons, Forall_app. done.
Qed.

Lemma enumerate_nonempty {X : Type} (xs : list X) (start : nat) p :
  p ∈ enumerate xs start -> xs ≠ [].
Proof. destruct xs; [by intros ?%elem_of_nil|done]. Qed.

End ChainFacts.

Ltac seen_tac :=
  repeat first [ apply list_elem_of_here | apply list_elem_of_further ];
  assumption.

Ltac upto_tac :=
  unfold seen_upto in *;
  repeat (apply Forall_cons; split; [cbn; lia|]);
  first [ apply Forall_nil
        | eapply Forall_impl; [eassumption|cbn; intros; lia] ].

Ltac chain_ok_tac :=
  first
    [ apply chain_ok_none; reflexivity
    | eapply chain_ok_seen; [reflexivity|solve [seen_tac]]
    | eapply chain_ok_upto; [reflexivity|solve [upto_tac]] ].

Ltac post_tac :=
  repeat first [ split | intros ? ];
  first [ exact I | congruence | solve [seen_tac] | solve [upto_tac] ].

Ltac chain_cell :=
  repeat first
    [ apply Safe_ret; post_tac
    | apply Safe_ext_bind; [chain_ok_tac | intros ?]
    | apply Safe_ext; [chain_ok_tac | intros ?; post_tac]
    | apply Safe_with; [chain_ok_tac | intros; exact I | reflexivity | intros ?]
    | apply Safe_local_bind; [solve [local_tac] | intros ? ? _]
    | apply Safe_local; [solve [local_tac] | intros ? ? _; post_tac]
    | split_pair
    | progress cbv zeta
    | progress cbn beta
    | progress cbn [chain_step stage_of_call] ].

Section ChainCells.
Import OracleDemo.
Implicit Types (s : list stage) (hp : heap).

Lemma chain_create_demo_user s hp :
  seen_upto Connect s ->
  Chain (fun s' _ _ => seen_upto Connect s' /\ Connect ∈ s') s hp
    create_demo_user.
Proof. intros Hs. unfold create_demo_user. chain_cell. Qed.

Lemma chain_connect_demo_user s hp :
  seen_upto Connect s -> Connect ∈ s ->
  Chain (fun s' _ _ => seen_upto Connect s' /\ Connect ∈ s') s hp
    connect_demo_user.
Proof. intros Hs Hc. unfold connect_demo_user. chain_cell. Qed.

(** The cells that make no call of the chain leave the state as it is. *)
Lemma chain_populate_demo_table (Q : list stage -> Prop) s hp
    (connection : Connection) :
  Q s -> Chain (fun s' _ _ => Q s') s hp (populate_demo_table connection).
Proof.
  intros HQ. unfold populate_demo_table.
  apply (Safe_bind _ _ (fun s' _ _ => s' = s)).
  - apply Safe_with; [chain_ok_tac|intros; exact I|reflexivity|].
    intros cursor. cbn [chain_step stage_of_call].
    repeat (apply Safe_ext_bind; [chain_ok_tac|intros ?]).
    by apply Safe_ext; [chain_ok_tac|].
  - intros s' _ hp' ->.
    apply Safe_ext_bind; [chain_ok_tac|intros ?].
    by apply Safe_ext; [chain_ok_tac|].
Qed.

Lemma chain_load_the_onnx_model (Q : list stage -> Prop) s hp
    (connection : Connection) :
  Q s -> Chain (fun s' _ _ => Q s') s hp (load_the_onnx_model connection).
Proof.
  intros HQ. unfold load_the_onnx_model. cbv zeta.
  apply Safe_ext_bind; [chain_ok_tac|intros ?].
  by apply Safe_ext; [chain_ok_tac|].
Qed.

Lemma chain_create_credential (Q : list stage -> Prop) s hp
    (connection : Connection) :
  Q s -> Chain (fun s' _ _ => Q s') s hp (create_credential connection).
Proof.
  intros HQ. unfold create_credential.
  apply Safe_with; [chain_ok_tac|intros; exact I|reflexivity|].
  intros cursor. by apply Safe_ext; [chain_ok_tac|].
Qed.

Lemma chain_load_documents s hp (connection : Connection) :
  seen_upto Connect s -> Connect ∈ s ->
  Chain (fun s' _ _ => seen_upto LoadDocuments s' /\ Connect ∈ s') s hp
    (load_documents connection).
Proof. intros Hs Hc. unfold load_documents. chain_cell. Qed.

Lemma chain_generate_summary s hp (connection : Connection)
    (proxy : string) (docs : list Document) :
  seen_upto LoadDocuments s -> Connect ∈ s ->
  Chain (fun s' _ _ => seen_upto Summarize s' /\ Connect ∈ s' /\
                       (docs ≠ [] -> Summarize ∈ s')) s hp
    (generate_summary connection proxy docs).
Proof.
  intros Hs Hc. unfold generate_summary.
  apply Safe_ext_bind; [chain_ok_tac|intros summ].
  cbn [chain_step stage_of_call].
  eapply Safe_bind.
  - apply (Safe_for_each _ _
             (fun s' _ _ => seen_upto LoadDocuments s' /\ Connect ∈ s')
             (fun s' _ _ => seen_upto Summarize s' /\ Connect ∈ s' /\
                            Summarize ∈ s')); [done|].
    intros doc acc s' hp' _ [[Hs' Hc']|(Hs' & Hc' & Hm)]; chain_cell.
  - intros s' list_summary hp' [(-> & Hs' & Hc')|(Hs' & Hc' & Hm)];
      chain_cell.
Qed.

Lemma chain_split_documents s hp (connection : Connection)
    (docs : list Document) :
  seen_upto Summarize s -> Connect ∈ s -> (docs ≠ [] -> Summarize ∈ s) ->
  Chain (fun s' _ _ => seen_upto Split s' /\ Connect ∈ s' /\
                       (docs ≠ [] -> Summarize ∈ s' /\ Split ∈ s')) s hp
    (split_documents connection docs).
Proof.
  intros Hs Hc Hd. unfold split_documents, collect_chunks.
  apply Safe_ext_bind; [chain_ok_tac|intros splitter].
  cbn [chain_step stage_of_call].
  eapply Safe_bind.
  - apply (Safe_for_each _ _
             (fun s' _ _ => seen_upto Summarize s' /\ Connect ∈ s' /\
                            (docs ≠ [] -> Summarize ∈ s'))
             (fun s' _ _ => seen_upto Split s' /\ Connect ∈ s' /\
                            Summarize ∈ s' /\ Split ∈ s')); [done|].
    intros doc acc s' hp' Hin [(Hs' & Hc' & Hd')|(Hs' & Hc' & Hm & Hp)].
    + assert (Hm : Summarize ∈ s').
      { apply Hd'. intros ->. by apply elem_of_nil in Hin. }
      chain_cell.
    + chain_cell.
  - intros s' list_chunks hp' [(-> & Hs' & Hc' & _)|(Hs' & Hc' & Hm & Hp)];
      chain_cell.
Qed.

Lemma chain_generate_embeddings s hp (connection : Connection)
    (proxy : string) (splitter : Splitter) (docs : list Document) :
  seen_upto Split s -> Connect ∈ s ->
  (docs ≠ [] -> Summarize ∈ s /\ Split ∈ s) ->
  Chain (fun s' _ _ => seen_upto Embed s' /\ Connect ∈ s' /\
                       (docs ≠ [] -> Summarize ∈ s' /\ Split ∈ s')) s hp
    (generate_embeddings connection proxy splitter docs).
Proof.
  intros Hs Hc Hd. unfold generate_embeddings, collect_embeddings.
  apply Safe_ext_bind; [chain_ok_tac|intros embedder].
  cbn [chain_step stage_of_call].
  set (I1 := fun (s' : list stage) (_ : list Embedding) (_ : heap) =>
               seen_upto Embed s' /\ Connect ∈ s' /\
               Summarize ∈ s' /\ Split ∈ s').
  eapply Safe_bind.
  - apply (Safe_for_each _ _
             (fun s' _ _ => seen_upto Split s' /\ Connect ∈ s' /\
                            (docs ≠ [] -> Summarize ∈ s' /\ Split ∈ s'))
             I1); [done|].
    intros doc acc s' hp' Hin Hpre.
    assert (Hpre' : seen_upto Embed s' /\ Connect ∈ s' /\
                    Summarize ∈ s' /\ Split ∈ s').
    { destruct Hpre as [(Hs' & Hc' & Hd')|Hpre]; [|done].
      destruct Hd' as [Hm Hp]; [intros ->; by apply elem_of_nil in Hin|].
      split_and!; [upto_tac|done..]. }
    clear Hpre. destruct Hpre' as (Hs' & Hc' & Hm & Hp).
    apply Safe_ext_bind; [chain_ok_tac|intros chunks].
    cbn [chain_step stage_of_call].
    eapply Safe_weaken;
      [|apply (Safe_for_each _ _ I1 I1); [unfold I1; post_tac|]].
    + intros s'' acc'' hp'' [[_ H]|H]; exact H.
    + intros chunk acc' s'' hp'' _ H.
      assert (H' : I1 s'' acc' hp'') by (by destruct H). clear H.
      destruct H' as (Hs'' & Hc'' & Hm'' & Hp''). unfold I1. chain_cell.
  - intros s' embeddings hp' [(-> & Hs' & Hc' & _)|(Hs' & Hc' & Hm & Hp)];
      chain_cell.
Qed.

Lemma chain_end_to_end_pipeline s hp (docs : list Document) :
  seen_upto Embed s -> Connect ∈ s ->
  (docs ≠ [] -> Summarize ∈ s /\ Split ∈ s) ->
  Chain (fun s' _ _ => seen_upto Embed s') s hp (end_to_end_pipeline docs).
Proof.
  intros Hs Hc Hd. unfold end_to_end_pipeline, process_documents. cbv zeta.
  apply Safe_with; [chain_ok_tac|intros; exact I|reflexivity|].
  intros connection. cbn [chain_step stage_of_call].
  do 7 (apply Safe_ext_bind; [chain_ok_tac|intros ?];
        cbn [chain_step stage_of_call]).
  set (I1 := fun (s' : list stage) (_ : list Document) (_ : heap) =>
               seen_upto Embed s' /\ Summarize ∈ s' /\ Split ∈ s').
  eapply Safe_bind.
  - apply (Safe_for_each _ _
             (fun s' _ _ => seen_upto Embed s' /\
                            (docs ≠ [] -> Summarize ∈ s' /\ Split ∈ s'))
             I1).
    { split; [upto_tac|]. intros [Hm Hp]%Hd. split; seen_tac. }
    intros [id doc] acc s' hp' Hin%enumerate_nonempty Hpre.
    assert (Hpre' : I1 s' acc hp').
    { destruct Hpre as [[Hs' Hd']|Hpre]; [|done].
      destruct (Hd' Hin). by split_and!. }
    clear Hpre. destruct Hpre' as (Hs' & Hm & Hp). unfold I1. chain_cell.
  - intros s' chunks_with_mdata hp' Hpost.
    assert (Hs' : seen_upto Embed s').
    { by destruct Hpost as [(_ & ? & _)|(? & _)]. }
    chain_cell.
Qed.

Lemma chain_create_vector_store s hp (chunks_with_mdata : list Document)
    (embedder : Embedder) (connection : Connection) :
  seen_upto Embed s ->
  Chain (fun s' _ _ => seen_upto Store s') s hp
    (create_vector_store chunks_with_mdata embedder connection).
Proof. intros Hs. unfold create_vector_store. chain_cell. Qed.

Lemma chain_create_the_index s hp (connection : Connection)
    (vectorstore : VectorStore) :
  seen_upto Store s ->
  Chain (fun s' _ _ => seen_upto Index s') s hp
    (create_the_index connection vectorstore).
Proof. intros Hs. unfold create_the_index. chain_cell. Qed.

Lemma chain_semantic_search s hp (vectorstore : VectorStore) :
  seen_upto Index s ->
  Chain (fun _ _ _ => True) s hp (semantic_search vectorstore).
Proof. intros Hs. unfold semantic_search. chain_cell. Qed.

Lemma chain_oracle_notebook hp :
  Chain (fun _ _ _ => True) [] hp OracleDemo.notebook.
Proof.
  unfold OracleDemo.notebook.
  eapply Safe_bind; [apply chain_create_demo_user; constructor|].
  intros s1 ? hp1 [Hs1 Hc1].
  eapply Safe_bind; [by apply chain_connect_demo_user|].
  intros s2 connection hp2 [Hs2 Hc2].
  eapply Safe_bind;
    [apply (chain_populate_demo_table
              (fun s' => seen_upto Connect s' /\ Connect ∈ s')); done|].
  intros s3 ? hp3 [Hs3 Hc3].
  eapply Safe_bind;
    [apply (chain_load_the_onnx_model
              (fun s' => seen_upto Connect s' /\ Connect ∈ s')); done|].
  intros s4 ? hp4 [Hs4 Hc4].
  eapply Safe_bind;
    [apply (chain_create_credential
              (fun s' => seen_upto Connect s' /\ Connect ∈ s')); done|].
  intros s5 ? hp5 [Hs5 Hc5].
  eapply Safe_bind; [by apply chain_load_documents|].
  intros s6 [loader docs] hp6 [Hs6 Hc6].
  eapply Safe_bind; [by apply chain_generate_summary|].
  intros s7 [summ list_summary] hp7 (Hs7 & Hc7 & Hd7).
  eapply Safe_bind; [by apply chain_split_documents|].
  intros s8 [splitter list_chunks] hp8 (Hs8 & Hc8 & Hd8).
  eapply Safe_bind; [by apply chain_generate_embeddings|].
  intros s9 [embedder embeddings] hp9 (Hs9 & Hc9 & Hd9).
  eapply Safe_bind; [by apply chain_end_to_end_pipeline|].
  intros s10 names hp10 Hs10. cbv zeta.
  eapply Safe_bind; [by apply chain_create_vector_store|].
  intros s11 vectorstore hp11 Hs11.
  eapply Safe_bind; [by apply chain_create_the_index|].
  intros s12 ? hp12 Hs12.
  by apply chain_semantic_search.
Qed.

End ChainCells.

(** ** Where texts and documents come from *)

Section ProvenanceFacts.
Implicit Types (s : provenance) (hp : heap).

Lemma receive_documents_built (raws : list RawDocument) hp :
  exists ds hp',
    receive_documents raws hp = Ret (ds, hp') /\ built hp hp' ds raws.
Proof.
  revert hp. induction raws as [|r raws IH]; intros hp.
  - exists [], hp. split; [done|apply built_nil].
  - cbn [receive_documents]. unfold mbind at 1. unfold nb_bind at 1.
    unfold new_dict. cbn [bind]. unfold mbind at 1. unfold nb_bind at 1.
    destruct (IH (hp ++ [raw_metadata r])) as (ds & hp' & -> & Hb).
    cbn [bind mret nb_ret]. eexists _, hp'. split; [done|].
    apply (built_app hp (hp ++ [raw_metadata r]) hp' [_] ds [r] raws);
      [|done].
    destruct r as [text m]. apply built_one.
Qed.

(** What [expected_metadata] holds under the keys it sets. *)
Lemma expected_metadata_lookup (m : pydict) (id ic : nat)
    (summ : list string) :
  expected_metadata m id ic summ !! "id"
  = Some (PStr ((((oid_of m +:+ "$") +:+ str_of_int id) +:+ "$")
                +:+ str_of_int ic)) /\
  expected_metadata m id ic summ !! "document_id"
  = Some (PStr (str_of_int id)) /\
  expected_metadata m id ic summ !! "document_summary"
  = Some (PStr (first_of summ)).
Proof.
  unfold expected_metadata. split_and!.
  - rewrite !lookup_insert_ne by done. apply lookup_insert_eq.
  - rewrite lookup_insert_ne by done. apply lookup_insert_eq.
  - apply lookup_insert_eq.
Qed.

(** It holds what [m] holds under every other key. *)
Lemma expected_metadata_agree (m : pydict) (id ic : nat)
    (summ : list string) :
  agree_off pipeline_keys (expected_metadata m id ic summ) m.
Proof.
  intros k Hk. unfold expected_metadata, pipeline_keys in *.
  rewrite !lookup_insert_ne; [done|set_solver..].
Qed.

End ProvenanceFacts.

(** ** Recorded calls *)

Section RecordFacts.

Lemma after_record {X : Type} (f : entry -> option X) (s : list X)
    (tr : list entry) :
  after (record f) s tr = reverse (omap f tr) ++ s.
Proof.
  revert s. induction tr as [|[R c r] tr IH]; intros s; [done|].
  cbn [after]. rewrite IH. unfold record. cbn [omap list_omap].
  destruct (f (Entry c r)) as [x|]; [|done].
  by rewrite reverse_cons, <-(assoc_L (++)).
Qed.

(** What a program that returns has recorded, first call first. *)
Lemma recorded {World A X : Type} (f : entry -> option X) (l : list X)
    (Q : list X -> A -> Prop) (p : prog A) :
  safe any_call (record f) Q [] p ->
  (forall s a, Q s a -> s = reverse l) ->
  forall (h : handler World) w tr w' a,
    run p h w = (tr, w', inr a) -> omap f tr = l.
Proof.
  intros Hsafe HQ h w tr w' a Hrun.
  destruct (safe_run _ _ _ _ _ Hsafe h w tr w' _ Hrun) as [_ Hres].
  specialize (Hres a eq_refl). apply HQ in Hres.
  rewrite after_record, app_nil_r in Hres.
  by apply (inj reverse).
Qed.

Lemma accepts_lookup {S : Type}
    (ok : forall R : Type, S -> Ext.call R -> Prop)
    (step : forall R : Type, S -> Ext.call R -> exn + R -> S)
    (s : S) (tr : list entry) (i : nat) (en : entry) :
  accepts ok step s tr -> tr !! i = Some en ->
  ok _ (after step s (take i tr)) (entry_call en).
Proof.
  revert s i. induction tr as [|[R c r] tr IH]; intros s i; [done|].
  intros [Hok Hacc]. destruct i as [|i]; cbn.
  - by intros [= <-].
  - intros Hi. by apply IH.
Qed.

Lemma search_call_has_variant {R : Type} (c : Ext.call R) :
  is_search_call c = true -> is_Some (variant_of_call c).
Proof. destruct c; try done; cbn; by destruct filter. Qed.

End RecordFacts.

Section RecordCells.
Implicit Types (hp : heap).

Lemma variants_semantic_search (s : list search_variant) hp
    (vectorstore : VectorStore) :
  Safe any_call (record variant_of)
    (fun s' _ _ =>
       s' = [MaxMarginalRelevance; MaxMarginalRelevance; ScoredSimilarity;
             ScoredSimilarity; FilteredSimilarity; PlainSimilarity] ++ s)
    s hp (OracleDemo.semantic_search vectorstore).
Proof.
  unfold OracleDemo.semantic_search.
  repeat (apply Safe_ext_bind;
          [exact I|intros ?; unfold record;
                   cbn [variant_of variant_of_call entry_call OracleDemo.filter]]).
  apply Safe_ext; [exact I|]. by intros [].
Qed.

Lemma api_calls_spacy_notebook hp :
  Safe any_call (record api_call_of)
    (fun s' _ _ =>
       s' = [SingleQuery SpacyDemo.query; Batch SpacyDemo.texts;
             Instantiate "en_core_web_sm"])
    [] hp SpacyDemo.notebook.
Proof.
  unfold SpacyDemo.notebook, SpacyDemo.initialize, SpacyDemo.embed_the_texts,
    SpacyDemo.embed_the_query.
  eapply Safe_bind.
  { apply (Safe_ext _ _ (fun s' _ _ => s' = [Instantiate "en_core_web_sm"]));
      [exact I|done]. }
  intros s1 embedder hp1 ->.
  eapply Safe_bind.
  { apply Safe_ext_bind; [exact I|]. intros embeddings.
    unfold record. cbn [api_call_of entry_call].
    set (s2 := [Batch SpacyDemo.texts; Instantiate "en_core_web_sm"]).
    eapply Safe_bind.
    - apply (Safe_for_each _ _ (fun s' _ _ => s' = s2)
               (fun s' _ _ => s' = s2)); [done|].
      intros [i embedding] [] s' hp' _ Hs'.
      assert (s' = s2) as -> by (by destruct Hs').
      apply Safe_ext; [exact I|done].
    - intros s' ? hp' Hs'.
      assert (s' = s2) as -> by (by destruct Hs' as [[_ ?]|?]).
      apply (Safe_ret _ _ (fun s' _ _ => s' = s2)). done. }
  intros s2 embeddings hp2 ->. cbn beta.
  eapply Safe_bind.
  { apply Safe_ext_bind; [exact I|]. intros query_embedding.
    unfold record. cbn [api_call_of entry_call].
    apply Safe_ext_bind; [exact I|]. intros [].
    unfold record. cbn [api_call_of entry_call].
    apply (Safe_ret _ _
             (fun s' _ _ =>
                s' = [SingleQuery SpacyDemo.query; Batch SpacyDemo.texts;
                      Instantiate "en_core_web_sm"])).
    done. }
  intros s3 ? hp3 ->. by apply Safe_ret.
Qed.

End RecordCells.

(** ** The notebooks in the sample world *)

(** The calls of the chain that a run of the Oracle notebook makes on
    two documents, the first of two chunks. *)
Example sample_stages :
  stages (log (OracleDemo.notebook []) sample_world 0)
  = [Connect; Connect; LoadDocuments; Summarize; Summarize; Split; Split;
     Split; Embed; Embed; Split; Embed; Connect; Summarize; Split;
     Summarize; Split; Store; Index; Query; Query; Query; Query; Query;
     Query].
Proof. vm_compute. reflexivity. Qed.

(** The identifiers the pipeline cell gives to the three chunks. *)
Example sample_chunk_ids :
  (fun r => raw_metadata r !! "id")
    <$> expected_documents sample_heap sample_summarize sample_split
          sample_documents
  = [Some (PStr "6F1A$1$1"); Some (PStr "6F1A$1$2"); Some (PStr "6F1B$2$1")].
Proof. vm_compute. reflexivity. Qed.

(** A call that raises inside the two [with] blocks of the first cell:
    both blocks are left, and nothing else is called. *)
Example sample_failure_log :
  length (log (OracleDemo.notebook [])
            (failing_at 3 (LibraryError "DatabaseError" "ORA-01031")
               sample_docs sample_summarize sample_split sample_embed) 0)
  = 6.
Proof. vm_compute. reflexivity. Qed.

(** * Further properties of the cells *)

(** ** The pipeline cell on documents it cannot process *)

Section PipelineEdges.
Context {World : Type}.
Variables (summarize split : string -> list string).
Variable h : handler World.
Hypothesis summarize_pure :
  forall sm text w, (h _ (Ext.get_summary sm text) w).2 = inr (summarize text).
Hypothesis split_pure :
  forall sp text w, (h _ (Ext.split_text sp text) w).2 = inr (split text).

Lemma process_chunk_error (id : nat) (doc : Document) (summ : list string)
    (ic : nat) (chunk : string) (cwm : list Document) (hp : heap) :
  OracleDemo.process_chunk id doc summ ic chunk cwm hp =
  match chunk_error (hp !!! metadata doc) summ with
  | Some e => Raise e
  | None =>
      Ret (cwm ++ [mkDocument chunk (length hp)],
           hp ++ [expected_metadata (hp !!! metadata doc) id ic summ])
  end.
Proof.
  rewrite process_chunk_eq. unfold chunk_error.
  destruct (_ !! "_oid") as [[oid|n|l]|]; [|done..].
  by destruct (summ !! 0).
Qed.

Lemma chunk_error_processable (hp : heap) (doc : Document) :
  metadata doc < length hp ->
  chunk_error (hp !!! metadata doc) (summarize (page_content doc)) = None ->
  processable hp summarize doc.
Proof.
  intros Hvalid Herr. unfold chunk_error in Herr.
  destruct (lookup_lt_is_Some_2 hp (metadata doc) Hvalid) as [m Hm].
  rewrite (list_lookup_total_correct _ _ _ Hm) in Herr.
  destruct (m !! "_oid") as [[oid|n|l]|] eqn:Hoid; [|done..].
  destruct (summarize (page_content doc) !! 0) as [s0|] eqn:Hs; [|done].
  by exists m, oid, s0.
Qed.

Lemma passable_grow (hp hp' : heap) ds raws (doc : Document) :
  built hp hp' ds raws -> passable hp summarize split doc ->
  passable hp' summarize split doc.
Proof.
  intros Hb [Hnil|[Hvalid Herr]]; [by left|right]. split.
  - rewrite (built_length _ _ _ _ Hb). lia.
  - replace (hp' !!! metadata doc) with (hp !!! metadata doc); [done|].
    symmetry. by eapply built_frame_total.
Qed.

(** The loop over passable documents returns; a document without chunks
    adds nothing. *)
Lemma process_documents_passable (summary : Summary) (splitter : Splitter)
    (docs : list Document) (start : nat) (cwm : list Document)
    (hp : heap) (w : World) :
  Forall (passable hp summarize split) docs ->
  exists tr w' ds hp',
    run (for_each (enumerate docs start)
           (fun '(id, doc) chunks_with_mdata =>
              summ ← ext (Ext.get_summary summary (page_content doc));
              chunks ← ext (Ext.split_text splitter (page_content doc));
              for_each (enumerate chunks 1)
                (fun '(ic, chunk) chunks_with_mdata =>
                   OracleDemo.process_chunk id doc summ ic chunk
                     chunks_with_mdata)
                chunks_with_mdata)
           cwm hp) h w
    = (tr, w', inr (cwm ++ ds, hp')) /\
    omap summary_text_of tr = page_content <$> docs /\
    built hp hp' ds
      (concat
         (imap (fun i doc =>
                  imap (fun j chunk =>
                          mkRaw chunk
                            (expected_metadata (hp !!! metadata doc)
                               (i + start) (j + 1)
                               (summarize (page_content doc))))
                    (split (page_content doc)))
            docs)).
Proof using summarize_pure split_pure.
  revert start cwm hp w.
  induction docs as [|doc docs IH]; intros start cwm hp w Hdocs.
  - exists [], w, [], hp. split_and!; [by rewrite app_nil_r|done|apply built_nil].
  - apply Forall_cons in Hdocs as [Hdoc Hdocs].
    cbn [enumerate for_each].
    rewrite !run_mbind, run_ext, summarize_pure.
    rewrite !run_mbind, run_ext, split_pure.
    assert (exists ds1 hp1,
               for_each (enumerate (split (page_content doc)) 1)
                 (fun '(ic, chunk) chunks_with_mdata =>
                    OracleDemo.process_chunk start doc
                      (summarize (page_content doc)) ic chunk
                      chunks_with_mdata)
                 cwm hp
               = Ret (cwm ++ ds1, hp1) /\
               built hp hp1 ds1
                 (imap (fun j chunk =>
                          mkRaw chunk
                            (expected_metadata (hp !!! metadata doc) start
                               (j + 1) (summarize (page_content doc))))
                    (split (page_content doc))))
      as (ds1 & hp1 & -> & Hb1).
    { destruct Hdoc as [->|[Hvalid Herr]].
      - exists [], hp. split; [by rewrite app_nil_r|apply built_nil].
      - destruct (chunk_error_processable hp doc Hvalid Herr)
          as (m & oid & s0 & Hm & Hoid & Hs).
        eapply process_chunks_ok; [done| |done].
        by erewrite list_lookup_total_correct. }
    cbn [run].
    destruct (IH (S start) (cwm ++ ds1) hp1
                (h _ (Ext.split_text splitter (page_content doc))
                   (h _ (Ext.get_summary summary (page_content doc)) w).1).1)
      as (tr2 & w2 & ds2 & hp2 & -> & Htexts & Hb2).
    { eapply Forall_impl; [exact Hdocs|]. intros d. by eapply passable_grow. }
    eexists _, w2, (ds1 ++ ds2), hp2. split_and!.
    + by rewrite <-(assoc_L (++) cwm).
    + cbn. by rewrite Htexts.
    + rewrite imap_cons. cbn [concat Nat.add].
      eapply built_app; [exact Hb1|].
      erewrite imap_ext; [exact Hb2|]. intros i d Hd. cbn.
      apply imap_ext. intros j chunk Hj. cbn.
      replace (i + S start) with (S (i + start)) by lia.
      do 2 f_equal. symmetry.
      rewrite Forall_lookup in Hdocs.
      destruct (Hdocs i d Hd) as [Hnil|[Hvalid _]].
      * rewrite Hnil in Hj. done.
      * by eapply built_frame_total.
Qed.

Lemma run_for_each_app {X T : Type} (xs ys : list X) (body : X -> T -> nb T)
    (acc : T) (hp : heap) (w : World) :
  run (for_each (xs ++ ys) body acc hp) h w =
  match run (for_each xs body acc hp) h w with
  | (tr, w1, inl e) => (tr, w1, inl e)
  | (tr, w1, inr (acc1, hp1)) =>
      let '(tr2, w2, res) := run (for_each ys body acc1 hp1) h w1 in
      (tr ++ tr2, w2, res)
  end.
Proof.
  revert acc hp w. induction xs as [|x xs IH]; intros acc hp w.
  - cbn. by destruct (run (for_each ys body acc hp) h w) as [[tr2 w2] res].
  - cbn [app for_each]. rewrite !run_mbind.
    destruct (run (body x acc hp) h w) as [[tr w1] [e|[a hp1]]]; [done|].
    rewrite IH.
    destruct (run (for_each xs body a hp1) h w1) as [[tr1 w2] [e|[a1 hp2]]];
      [done|].
    destruct (run (for_each ys body a1 hp2) h w2) as [[tr2 w3] res].
    by rewrite (assoc_L (++)).
Qed.

Lemma enumerate_app {X : Type} (xs ys : list X) (start : nat) :
  enumerate (xs ++ ys) start
  = enumerate xs start ++ enumerate ys (start + length xs).
Proof.
  revert start. induction xs as [|x xs IH]; intros start; cbn.
  - by rewrite Nat.add_0_r.
  - rewrite IH. do 3 f_equal. lia.
Qed.

(** The loop stops at the first document it cannot process: the
    documents before it are processed, it is summarized and split, and
    the error of its first chunk ends the loop. *)
Lemma process_documents_error (summary : Summary) (splitter : Splitter)
    (good rest : list Document) (bad : Document) (hp : heap) (w : World)
    (e : exn) :
  Forall (passable hp summarize split) good ->
  metadata bad < length hp ->
  split (page_content bad) ≠ [] ->
  chunk_error (hp !!! metadata bad) (summarize (page_content bad)) = Some e ->
  exists tr w',
    run (OracleDemo.process_documents summary splitter
           (good ++ bad :: rest) hp) h w
    = (tr, w', inl e) /\
    omap summary_text_of tr = page_content <$> (good ++ [bad]).
Proof using summarize_pure split_pure.
  intros Hgood Hvalid Hchunks Herr. unfold OracleDemo.process_documents.
  rewrite enumerate_app, run_for_each_app.
  destruct (process_documents_passable summary splitter good 1 [] hp w Hgood)
    as (tr1 & w1 & ds & hp1 & -> & Htexts & Hb).
  cbn [enumerate for_each].
  rewrite !run_mbind, run_ext, summarize_pure.
  rewrite !run_mbind, run_ext, split_pure.
  destruct (split (page_content bad)) as [|chunk chunks] eqn:Hsplit; [done|].
  cbn [enumerate for_each]. rewrite run_mbind, process_chunk_error.
  replace (hp1 !!! metadata bad) with (hp !!! metadata bad)
    by (symmetry; by eapply built_frame_total).
  rewrite Herr. cbn [run].
  eexists _, _. split; [done|].
  rewrite omap_app, Htexts, fmap_app. by cbn.
Qed.

End PipelineEdges.

(** ** What is called after a failure *)

Section FailFast.
Context {World : Type}.
Implicit Types (h : handler World) (w : World).

Lemma unwinding_run {A : Type} (p : prog A) :
  unwinding p ->
  forall h w tr w' res,
    run p h w = (tr, w', res) -> Forall (fun en => leaves en = true) tr.
Proof.
  induction 1 as [e|R c k Hc _ IH]; intros h w tr w' res; cbn.
  - intros [= <- _ _]. constructor.
  - destruct (h R c w) as [w1 r].
    destruct (run (k r) h w1) as [[tr1 w2] res1] eqn:Hk.
    intros [= <- _ _]. constructor; [exact Hc|]. by eapply IH.
Qed.

(** In a log of a program that fails fast, a call that raised is
    followed by exits only. *)
Lemma fail_fast_run {A : Type} (p : prog A) :
  fail_fast p ->
  forall h w tr w' res tr1 en tr2,
    run p h w = (tr, w', res) ->
    tr = tr1 ++ en :: tr2 -> failed en = true ->
    Forall (fun en' => leaves en' = true) tr2.
Proof.
  induction 1 as [a|e0|R c k Hl _ IHr]; intros h w tr w' res tr1 en tr2; cbn.
  - intros [= <- _ _]. by destruct tr1.
  - intros [= <- _ _]. by destruct tr1.
  - destruct (h R c w) as [w1 [e|v]];
      destruct (run (k _) h w1) as [[tr' w2] res1] eqn:Hk;
      intros [= <- _ _].
    + apply (unwinding_run _ (Hl e)) in Hk.
      destruct tr1 as [|en1 tr1]; intros [= <- Htr] _.
      * by subst.
      * subst. apply Forall_app in Hk as [_ Hk]. by inversion Hk.
    + destruct tr1 as [|en1 tr1]; intros [= <- Htr] Hen; [done|].
      by eapply IHr.
Qed.

End FailFast.

Section FailFastRules.

Lemma unwinding_bind {A B : Type} (p : prog A) (f : A -> prog B) :
  unwinding p -> unwinding (bind p f).
Proof. induction 1; cbn; by constructor. Qed.

Lemma fail_fast_bind {A B : Type} (p : prog A) (f : A -> prog B) :
  fail_fast p -> (forall a, fail_fast (f a)) -> fail_fast (bind p f).
Proof.
  intros Hp Hf. induction Hp as [a|e|R c k Hl _ IHr]; cbn.
  - apply Hf.
  - constructor.
  - constructor; [|done]. intros e. by apply unwinding_bind.
Qed.

Lemma fail_fast_perform {R : Type} (c : Ext.call R) : fail_fast (perform c).
Proof. constructor; by constructor. Qed.

Lemma unwinding_finally {A : Type} (p : prog A) (x : Ext.call unit) :
  is_exit x = true -> unwinding p -> unwinding (finally_ p (perform x)).
Proof.
  intros Hx. induction 1; cbn.
  - constructor; [done|]. intros [?|?]; constructor.
  - by constructor.
Qed.

Lemma fail_fast_finally {A : Type} (p : prog A) (x : Ext.call unit) :
  is_exit x = true -> fail_fast p -> fail_fast (finally_ p (perform x)).
Proof.
  intros Hx. induction 1 as [a|e|R' c k Hl _ IHr]; cbn.
  - constructor; intros; constructor.
  - constructor; intros; constructor.
  - constructor; [|done]. intros e. by apply unwinding_finally.
Qed.

Lemma Fail_fast_ret {A : Type} (a : A) : Fail_fast (mret a).
Proof. intros hp. constructor. Qed.

Lemma Fail_fast_bind {A B : Type} (m : nb A) (f : A -> nb B) :
  Fail_fast m -> (forall a, Fail_fast (f a)) -> Fail_fast (m ≫= f).
Proof.
  intros Hm Hf hp. apply fail_fast_bind; [apply Hm|].
  intros [a hp']. apply Hf.
Qed.

Lemma Fail_fast_ext {R : Type} (c : Ext.call R) : Fail_fast (ext c).
Proof.
  intros hp. apply fail_fast_bind; [apply fail_fast_perform|].
  intros r. constructor.
Qed.

Lemma Fail_fast_with {R A : Type} (mgr : Ext.call R)
    (exit_ : R -> Ext.call unit) (body : R -> nb A) :
  (forall x, is_exit (exit_ x) = true) ->
  (forall x, Fail_fast (body x)) -> Fail_fast (with_ mgr exit_ body).
Proof.
  intros Hexit Hbody hp. apply fail_fast_bind; [apply fail_fast_perform|].
  intros x. apply fail_fast_finally; [apply Hexit|apply Hbody].
Qed.

Lemma Fail_fast_for_each {X S : Type} (xs : list X) (body : X -> S -> nb S)
    (s : S) :
  (forall x s, Fail_fast (body x s)) -> Fail_fast (for_each xs body s).
Proof.
  intros Hbody. revert s. induction xs as [|x xs IH]; intros s; cbn.
  - apply Fail_fast_ret.
  - apply Fail_fast_bind; [apply Hbody|apply IH].
Qed.

Lemma Fail_fast_local {A : Type} (m : nb A) : local m -> Fail_fast m.
Proof. intros Hm hp. destruct (Hm hp) as [[r ->]|[e ->]]; constructor. Qed.

End FailFastRules.

Ltac fail_fast_step :=
  first
    [ apply Fail_fast_ext
    | apply Fail_fast_local; solve [local_tac]
    | apply Fail_fast_bind
    | apply Fail_fast_with; [intros ?; reflexivity|]
    | apply Fail_fast_for_each
    | progress cbv zeta
    | intros [? ?]
    | intros ? ].

Ltac fail_fast_cell := repeat fail_fast_step.

Section FailFastCells.
Import OracleDemo.

Lemma Fail_fast_oracle_notebook : Fail_fast OracleDemo.notebook.
Proof.
  unfold OracleDemo.notebook, create_demo_user, connect_demo_user,
    populate_demo_table, load_the_onnx_model, create_credential,
    load_documents, generate_summary, split_documents, collect_chunks,
    generate_embeddings, collect_embeddings, end_to_end_pipeline,
    process_documents, create_vector_store, create_the_index,
    semantic_search.
  fail_fast_cell.
Qed.

Lemma Fail_fast_spacy_notebook : Fail_fast SpacyDemo.notebook.
Proof.
  unfold SpacyDemo.notebook, SpacyDemo.initialize, SpacyDemo.embed_the_texts,
    SpacyDemo.embed_the_query.
  fail_fast_cell.
Qed.

End FailFastCells.

(** * The flow of texts and documents *)

Section FlowFacts.

Lemma after_flow (s : flow) (tr : list entry) :
  after flow_step s tr
  = mkFlow (fl_loaded s ++ concat (omap loaded_of tr))
      (fl_summaries s ++ omap summary_call_of tr)
      (fl_splits s ++ omap split_call_of tr).
Proof.
  revert s. induction tr as [|[R c r] tr IH]; intros s.
  - destruct s. cbn. by rewrite !app_nil_r.
  - cbn [after]. rewrite IH. clear IH.
    destruct c; try (destruct s; reflexivity);
      destruct r as [e|v]; destruct s; cbn;
      by rewrite <-?(assoc_L (++)).
Qed.

Lemma lastn_app {X : Type} (l k : list X) : lastn (length k) (l ++ k) = k.
Proof.
  unfold lastn. rewrite length_app.
  replace (length l + length k - length k) with (length l) by lia.
  apply drop_app_length.
Qed.

Lemma length_enumerate {X : Type} (xs : list X) (start : nat) :
  length (enumerate xs start) = length xs.
Proof. revert start. induction xs; intros start; cbn; [done|]. by rewrite IHxs. Qed.

Lemma enumerate_lookup {X : Type} (xs : list X) (start k i : nat) (x : X) :
  enumerate xs start !! k = Some (i, x) -> i = start + k /\ xs !! k = Some x.
Proof.
  revert start k. induction xs as [|y xs IH]; intros start k; [done|].
  destruct k as [|k]; cbn.
  - intros [= <- <-]. split; [lia|done].
  - intros [-> ?]%IH. split; [lia|done].
Qed.

End FlowFacts.

Section IndexedLoop.
Context {S : Type}.
Variable ok : forall R : Type, S -> Ext.call R -> Prop.
Variable step : forall R : Type, S -> Ext.call R -> exn + R -> S.

(** A loop whose invariant counts the rounds. *)
Lemma Safe_for_each_indexed {X T : Type} (Inv : nat -> S -> T -> heap -> Prop)
    (s : S) (hp : heap) (xs : list X) (body : X -> T -> nb T) (acc : T) :
  Inv 0 s acc hp ->
  (forall k x acc s' hp',
      xs !! k = Some x -> Inv k s' acc hp' ->
      Safe ok step (Inv (Datatypes.S k)) s' hp' (body x acc)) ->
  Safe ok step (Inv (length xs)) s hp (for_each xs body acc).
Proof.
  intros H0 Hbody.
  assert (Hloop : forall ys k0 acc s' hp',
            (forall k y, ys !! k = Some y -> xs !! (k0 + k) = Some y) ->
            Inv k0 s' acc hp' ->
            Safe ok step (Inv (k0 + length ys)) s' hp' (for_each ys body acc)).
  { induction ys as [|y ys IH]; intros k0 acc' s' hp' Hin Hinv; cbn.
    - apply Safe_ret. by rewrite Nat.add_0_r.
    - eapply Safe_bind.
      + apply (Hbody k0); [|exact Hinv].
        specialize (Hin 0 y eq_refl). by rewrite Nat.add_0_r in Hin.
      + intros s'' acc'' hp'' Hinv'.
        replace (k0 + Datatypes.S (length ys))
          with (Datatypes.S k0 + length ys) by lia.
        apply IH; [|done]. intros k z Hz.
        replace (Datatypes.S k0 + k) with (k0 + Datatypes.S k) by lia.
        by apply Hin. }
  apply (Hloop xs 0); done.
Qed.

End IndexedLoop.

(** ** The loop over the chunks of a document *)

Section ChunkLoop.
Implicit Types (hp : heap) (doc : Document) (summ chunks : list string).

(** The loop returns when there is no chunk or when the body raises
    nothing, and then it has appended one document for each chunk. *)
Lemma process_chunks_cases (id : nat) doc summ chunks (start : nat)
    (cwm : list Document) hp :
  metadata doc < length hp ->
  for_each (enumerate chunks start)
    (fun '(ic, chunk) chunks_with_mdata =>
       OracleDemo.process_chunk id doc summ ic chunk chunks_with_mdata)
    cwm hp
  = match chunks, chunk_error (hp !!! metadata doc) summ with
    | [], _ => Ret (cwm, hp)
    | _ :: _, Some e => Raise e
    | _ :: _, None =>
        Ret (cwm ++ imap (fun j chunk => mkDocument chunk (length hp + j))
                      chunks,
             hp ++ imap (fun j chunk =>
                           expected_metadata (hp !!! metadata doc) id
                             (j + start) summ)
                     chunks)
    end.
Proof.
  revert start cwm hp.
  induction chunks as [|chunk chunks IH]; intros start cwm hp Hvalid; [done|].
  cbn [enumerate for_each]. unfold mbind at 1. unfold nb_bind at 1.
  rewrite process_chunk_error.
  destruct (chunk_error (hp !!! metadata doc) summ) as [e|] eqn:Herr;
    [done|].
  cbn [bind].
  set (m' := expected_metadata (hp !!! metadata doc) id start summ).
  assert (Hsame : (hp ++ [m']) !!! metadata doc = hp !!! metadata doc)
    by by apply lookup_total_app_l.
  rewrite IH by (rewrite length_app; lia). rewrite Hsame, Herr.
  destruct chunks as [|chunk2 chunks].
  - cbn. by rewrite Nat.add_0_r.
  - f_equal. f_equal.
    + rewrite <-(assoc_L (++) cwm). f_equal.
      rewrite (imap_cons _ chunk). cbn [app]. rewrite Nat.add_0_r. f_equal.
      apply imap_ext. intros j x _. cbn. f_equal.
      rewrite length_app. cbn. lia.
    + rewrite <-(assoc_L (++) hp). f_equal.
      rewrite (imap_cons _ chunk). cbn [app Nat.add]. f_equal.
      apply imap_ext. intros j x _. cbn. f_equal. lia.
Qed.

Lemma built_imap hp chunks (f : nat -> string -> pydict) :
  built hp (hp ++ imap f chunks)
    (imap (fun j chunk => mkDocument chunk (length hp + j)) chunks)
    (imap (fun j chunk => mkRaw chunk (f j chunk)) chunks).
Proof.
  split.
  - by rewrite fmap_imap.
  - apply list_eq. intros j. rewrite !list_lookup_imap.
    by destruct (chunks !! j).
Qed.

(** The same as a relation between the stores. *)
Lemma process_chunks_built (id : nat) doc summ chunks (cwm cwm' : list Document)
    hp hp' :
  metadata doc < length hp ->
  for_each (enumerate chunks 1)
    (fun '(ic, chunk) chunks_with_mdata =>
       OracleDemo.process_chunk id doc summ ic chunk chunks_with_mdata)
    cwm hp
  = Ret (cwm', hp') ->
  processed hp (doc, (summ, chunks)) /\
  exists ds,
    cwm' = cwm ++ ds /\
    built hp hp' ds
      (imap (fun j chunk =>
               mkRaw chunk
                 (expected_metadata (hp !!! metadata doc) id (j + 1) summ))
         chunks).
Proof.
  intros Hvalid. rewrite process_chunks_cases by done.
  destruct chunks as [|chunk chunks].
  - intros [= <- <-]. split; [by left|]. exists []. rewrite app_nil_r.
    split; [done|apply built_nil].
  - destruct (chunk_error _ _) eqn:Herr; [done|]. intros [= <- <-].
    split; [by right|]. eexists. split; [done|].
    apply (built_imap hp (chunk :: chunks)
             (fun j _ => expected_metadata (hp !!! metadata doc) id (j + 1)
                           summ)).
Qed.

End ChunkLoop.

(** ** The loop over the documents, whatever the libraries answer *)

Section DocumentLoop.
Implicit Types (hp : heap) (s : flow).

Lemma zip3_snoc {X Y Z : Type} (xs : list X) (ys : list Y) (zs : list Z)
    (x : X) (y : Y) (z : Z) :
  length ys = length xs -> length zs = length xs ->
  zip (xs ++ [x]) (zip (ys ++ [y]) (zs ++ [z]))
  = zip xs (zip ys zs) ++ [(x, (y, z))].
Proof.
  intros Hy Hz.
  rewrite (zip_with_app _ ys [y] zs [z]) by lia.
  rewrite (zip_with_app _ xs [x]); [done|].
  rewrite length_zip_with. lia.
Qed.

Lemma chunk_documents_snoc (start : nat) hp (docs : list Document)
    (summs chunkss : list (list string)) (doc : Document)
    (summ chunks : list string) :
  length summs = length docs -> length chunkss = length docs ->
  chunk_documents_from start hp (docs ++ [doc]) (summs ++ [summ])
    (chunkss ++ [chunks])
  = chunk_documents_from start hp docs summs chunkss
    ++ imap (fun j chunk =>
               mkRaw chunk
                 (expected_metadata (hp !!! metadata doc)
                    (length docs + start) (j + 1) summ))
         chunks.
Proof.
  intros Hs Hc. unfold chunk_documents_from.
  rewrite zip3_snoc by done. rewrite imap_app, concat_app. f_equal.
  cbn. rewrite app_nil_r.
  rewrite length_zip_with, length_zip_with.
  replace (length docs `min` (length summs `min` length chunkss) + 0)
    with (length docs) by lia.
  done.
Qed.

Lemma zip_snoc {X Y : Type} (xs : list X) (ys : list Y) (x : X) (y : Y) :
  length ys = length xs ->
  zip (xs ++ [x]) (ys ++ [y]) = zip xs ys ++ [(x, y)].
Proof. intros Hy. by rewrite (zip_with_app _ xs [x]). Qed.

Lemma flow_process_documents s hp (summary : Summary) (splitter : Splitter)
    (docs : list Document) :
  Forall (fun d => metadata d < length hp /\
                   page_content d ∈ raw_content <$> fl_loaded s) docs ->
  Safe flow_ok flow_step
    (fun s' chunks_with_mdata hp' =>
       exists summs chunkss,
         s' = mkFlow (fl_loaded s)
                (fl_summaries s ++ zip (page_content <$> docs) summs)
                (fl_splits s ++ zip (page_content <$> docs) chunkss) /\
         length summs = length docs /\ length chunkss = length docs /\
         built hp hp' chunks_with_mdata
           (chunk_documents hp docs summs chunkss) /\
         Forall (processed hp) (zip docs (zip summs chunkss)))
    s hp (OracleDemo.process_documents summary splitter docs).
Proof.
  intros Hdocs. unfold OracleDemo.process_documents.
  set (Inv := fun (k : nat) s' (cwm : list Document) hp' =>
         exists summs chunkss,
           s' = mkFlow (fl_loaded s)
                  (fl_summaries s
                     ++ zip (page_content <$> take k docs) summs)
                  (fl_splits s
                     ++ zip (page_content <$> take k docs) chunkss) /\
           length summs = k /\ length chunkss = k /\
           built hp hp' cwm (chunk_documents hp (take k docs) summs chunkss) /\
           Forall (processed hp) (zip (take k docs) (zip summs chunkss))).
  eapply Safe_weaken;
    [|apply (Safe_for_each_indexed _ _ Inv)].
  - intros s' cwm hp'. rewrite length_enumerate.
    intros (summs & chunkss & -> & Hs & Hc & Hb & Hp).
    rewrite firstn_all in *. by exists summs, chunkss.
  - exists [], []. destruct s. cbn. rewrite !app_nil_r.
    split_and!; [done..|apply built_nil|constructor].
  - intros k [id doc] cwm s' hp' [-> Hk]%enumerate_lookup
      (summs & chunkss & -> & Hs & Hc & Hb & Hp).
    rewrite Forall_lookup in Hdocs. destruct (Hdocs k doc Hk) as [Hvalid Htext].
    pose proof (lookup_lt_Some _ _ _ Hk) as Hlt.
    assert (Hlen : length (take k docs) = k) by (rewrite length_take; lia).
    apply Safe_ext_bind; [exact Htext|]. intros summ. cbn [flow_step].
    apply Safe_ext_bind; [exact Htext|]. intros chunks. cbn [flow_step].
    cbn [fl_loaded fl_summaries fl_splits].
    apply Safe_local.
    { apply local_for_each. intros [ic chunk] acc. apply local_process_chunk. }
    intros cwm' hp'' Hret.
    apply process_chunks_built in Hret as (Hproc & ds & -> & Hb2).
    2:{ rewrite (built_length _ _ _ _ Hb). lia. }
    assert (Hsame : hp' !!! metadata doc = hp !!! metadata doc)
      by by eapply built_frame_total.
    rewrite Hsame in Hb2. unfold processed in Hproc. cbn in Hproc.
    rewrite Hsame in Hproc.
    exists (summs ++ [summ]), (chunkss ++ [chunks]).
    rewrite (take_S_r _ _ _ Hk), fmap_app. cbn [fmap list_fmap].
    rewrite !zip_snoc by (rewrite length_fmap; lia).
    split_and!.
    + by rewrite <-!(assoc_L (++)).
    + rewrite length_app. cbn. lia.
    + rewrite length_app. cbn. lia.
    + unfold chunk_documents. rewrite chunk_documents_snoc by lia.
      eapply built_app; [exact Hb|]. rewrite Hlen.
      replace (k + 1) with (1 + k) by lia. exact Hb2.
    + rewrite zip3_snoc by lia. apply Forall_app. split; [done|].
      by constructor.
Qed.

End DocumentLoop.

(** ** The run of the loop over the documents *)

Section DocumentRun.
Context {World : Type}.
Variable h : handler World.
Implicit Types (hp : heap) (w : World).

(** When the loop returns, it has called [get_summary] and [split_text]
    once for each document, in order, and what it has built is told by
    the answers. *)
Lemma process_documents_inr (summary : Summary) (splitter : Splitter)
    (docs : list Document) hp w tr w' (cwm : list Document) hp' :
  Forall (fun d => metadata d < length hp) docs ->
  run (OracleDemo.process_documents summary splitter docs hp) h w
  = (tr, w', inr (cwm, hp')) ->
  exists summs chunkss,
    length summs = length docs /\ length chunkss = length docs /\
    omap summary_call_of tr = zip (page_content <$> docs) summs /\
    omap split_call_of tr = zip (page_content <$> docs) chunkss /\
    Forall (processed hp) (zip docs (zip summs chunkss)) /\
    built hp hp' cwm (chunk_documents hp docs summs chunkss).
Proof.
  intros Hvalid Hrun.
  set (s0 := mkFlow (resolve hp <$> docs) [] []).
  assert (Hpre : Forall (fun d => metadata d < length hp /\
                                  page_content d
                                  ∈ raw_content <$> fl_loaded s0) docs).
  { apply Forall_forall. intros d Hd. split.
    - rewrite Forall_forall in Hvalid. by apply Hvalid.
    - cbn. rewrite <-list_fmap_compose.
      change (page_content d) with ((raw_content ∘ resolve hp) d).
      by apply list_elem_of_fmap_2. }
  destruct (safe_run _ _ _ _ _
              (flow_process_documents s0 hp summary splitter docs Hpre)
              h w tr w' _ Hrun) as [_ Hres].
  destruct (Hres _ eq_refl) as (summs & chunkss & Hs & Hls & Hlc & Hb & Hp).
  cbn [fst snd] in *. rewrite after_flow in Hs. cbn in Hs.
  injection Hs as _ Ht1 Ht2.
  exists summs, chunkss. split_and!; done.
Qed.

Section Progress.
Hypothesis summary_answers :
  forall sm text w, exists s0 rest,
    (h _ (Ext.get_summary sm text) w).2 = inr (s0 :: rest).
Hypothesis split_answers :
  forall sp text w, exists chunks,
    (h _ (Ext.split_text sp text) w).2 = inr chunks.

(** The loop returns when the libraries answer, no summary is empty
    and every document has a [str] under [_oid]. *)
Lemma process_documents_progress (summary : Summary) (splitter : Splitter)
    (docs : list Document) (start : nat) (cwm : list Document)
    hp (more : heap) w :
  Forall (has_oid hp) docs ->
  exists tr w' cwm' hp',
    run (for_each (enumerate docs start)
           (fun '(id, doc) chunks_with_mdata =>
              summ ← ext (Ext.get_summary summary (page_content doc));
              chunks ← ext (Ext.split_text splitter (page_content doc));
              for_each (enumerate chunks 1)
                (fun '(ic, chunk) chunks_with_mdata =>
                   OracleDemo.process_chunk id doc summ ic chunk
                     chunks_with_mdata)
                chunks_with_mdata)
           cwm (hp ++ more)) h w
    = (tr, w', inr (cwm', hp')).
Proof using summary_answers split_answers.
  revert start cwm more w.
  induction docs as [|doc docs IH]; intros start cwm more w Hdocs.
  - by exists [], w, cwm, (hp ++ more).
  - apply Forall_cons in Hdocs as [(m & oid & Hm & Hoid) Hdocs].
    pose proof (lookup_lt_Some _ _ _ Hm) as Hvalid.
    cbn [enumerate for_each].
    destruct (summary_answers summary (page_content doc) w)
      as (s0 & rest & Hsumm).
    rewrite !run_mbind, run_ext, Hsumm.
    destruct (split_answers splitter (page_content doc)
                (h _ (Ext.get_summary summary (page_content doc)) w).1)
      as (chunks & Hsplit).
    rewrite !run_mbind, run_ext, Hsplit.
    rewrite process_chunks_cases by (rewrite length_app; lia).
    assert (Herr : chunk_error ((hp ++ more) !!! metadata doc) (s0 :: rest)
                   = None).
    { rewrite lookup_total_app_l by done.
      erewrite list_lookup_total_correct by exact Hm.
      unfold chunk_error. by rewrite Hoid. }
    rewrite Herr.
    destruct chunks as [|chunk chunks]; cbn [run].
    + destruct (IH (S start) cwm more
                  (h _ (Ext.split_text splitter (page_content doc))
                     (h _ (Ext.get_summary summary (page_content doc)) w).1).1
                  Hdocs) as (tr & w' & cwm' & hp' & ->).
      by eexists _, _, _, _.
    + rewrite <-(assoc_L (++) hp).
      match goal with
      | |- context [run (for_each _ _ ?acc (hp ++ ?more')) h ?w1] =>
          destruct (IH (S start) acc more' w1 Hdocs)
            as (tr & w' & cwm' & hp' & ->)
      end.
      by eexists _, _, _, _.
Qed.

End Progress.

End DocumentRun.

(** ** The flow through the cells *)

Ltac flow_cell :=
  repeat first
    [ apply Safe_ret
    | apply Safe_ext_bind; [exact I | intros ?; cbn [flow_step]]
    | apply Safe_ext; [exact I | intros ?; cbn [flow_step]]
    | apply Safe_with;
      [exact I | intros; exact I | reflexivity
      | intros ?; cbn [flow_step]]
    | split_pair
    | progress cbv zeta
    | progress cbn beta ].

Section FlowCells.
Import OracleDemo.
Implicit Types (s : flow) (hp : heap).

Lemma held_text s hp (docs : list Document) (d : Document) :
  held s hp docs -> d ∈ docs -> page_content d ∈ raw_content <$> fl_loaded s.
Proof.
  intros [_ <-] Hd. rewrite <-list_fmap_compose.
  change (page_content d) with ((raw_content ∘ resolve hp) d).
  by apply list_elem_of_fmap_2.
Qed.

Lemma held_loaded s s' hp (docs : list Document) :
  fl_loaded s' = fl_loaded s -> held s hp docs -> held s' hp docs.
Proof. unfold held. by intros ->. Qed.

Lemma flow_create_demo_user s hp :
  Flow (fun s' _ hp' => s' = s /\ hp' = hp) s hp create_demo_user.
Proof. unfold create_demo_user. flow_cell; done. Qed.

Lemma flow_connect_demo_user s hp :
  Flow (fun s' _ hp' => s' = s /\ hp' = hp) s hp connect_demo_user.
Proof. unfold connect_demo_user. flow_cell; done. Qed.

Lemma flow_populate_demo_table s hp (connection : Connection) :
  Flow (fun s' _ hp' => s' = s /\ hp' = hp) s hp
    (populate_demo_table connection).
Proof.
  unfold populate_demo_table.
  apply (Safe_bind _ _ (fun s' _ hp' => s' = s /\ hp' = hp)).
  - flow_cell; done.
  - intros s' ? hp' [-> ->]. flow_cell; done.
Qed.

Lemma flow_load_the_onnx_model s hp (connection : Connection) :
  Flow (fun s' _ hp' => s' = s /\ hp' = hp) s hp
    (load_the_onnx_model connection).
Proof. unfold load_the_onnx_model. flow_cell; done. Qed.

Lemma flow_create_credential s hp (connection : Connection) :
  Flow (fun s' _ hp' => s' = s /\ hp' = hp) s hp
    (create_credential connection).
Proof. unfold create_credential. flow_cell; done. Qed.

Lemma flow_load_documents s hp (connection : Connection) :
  fl_loaded s = [] ->
  Flow (fun s' r hp' => held s' hp' r.2) s hp (load_documents connection).
Proof.
  intros Hnone. unfold load_documents.
  apply Safe_ext_bind; [exact I|intros loader; cbn [flow_step]].
  apply Safe_ext_bind; [exact I|intros raws; cbn [flow_step]].
  apply Safe_local_bind; [apply local_receive_documents|].
  intros docs hp' Hret.
  destruct (receive_documents_built raws hp) as (ds & hp0 & Heq & Hb).
  rewrite Heq in Hret. injection Hret as <- <-.
  flow_cell. cbn. split.
  - eapply Forall_impl; [by eapply built_new|]. intros d. cbn. lia.
  - rewrite Hnone. cbn.
    rewrite <-(app_nil_r hp0). by eapply built_resolve.
Qed.

Lemma flow_generate_summary s hp (connection : Connection) (proxy : string)
    (docs : list Document) :
  held s hp docs ->
  Flow (fun s' _ hp' => fl_loaded s' = fl_loaded s /\ hp' = hp) s hp
    (generate_summary connection proxy docs).
Proof.
  intros Hk. unfold generate_summary.
  apply Safe_ext_bind; [exact I|intros summ; cbn [flow_step]].
  eapply Safe_bind.
  - apply (Safe_for_each _ _
             (fun s' _ hp' => fl_loaded s' = fl_loaded s /\ hp' = hp)
             (fun s' _ hp' => fl_loaded s' = fl_loaded s /\ hp' = hp)); [done|].
    intros doc acc s' hp' Hin H.
    assert (fl_loaded s' = fl_loaded s /\ hp' = hp) as [Hl ->]
      by (by destruct H).
    apply Safe_ext_bind.
    { cbn. rewrite Hl. by eapply held_text. }
    intros summary. cbn [flow_step]. by apply Safe_ret.
  - intros s' list_summary hp' H.
    assert (fl_loaded s' = fl_loaded s /\ hp' = hp) as [Hl ->]
      by (by destruct H as [[_ ?]|?]).
    flow_cell; done.
Qed.

Lemma flow_split_documents s hp (connection : Connection)
    (docs : list Document) :
  held s hp docs ->
  Flow (fun s' _ hp' => fl_loaded s' = fl_loaded s /\ hp' = hp) s hp
    (split_documents connection docs).
Proof.
  intros Hk. unfold split_documents, collect_chunks.
  apply Safe_ext_bind; [exact I|intros splitter; cbn [flow_step]].
  eapply Safe_bind.
  - apply (Safe_for_each _ _
             (fun s' _ hp' => fl_loaded s' = fl_loaded s /\ hp' = hp)
             (fun s' _ hp' => fl_loaded s' = fl_loaded s /\ hp' = hp)); [done|].
    intros doc acc s' hp' Hin H.
    assert (fl_loaded s' = fl_loaded s /\ hp' = hp) as [Hl ->]
      by (by destruct H).
    apply Safe_ext_bind.
    { cbn. rewrite Hl. by eapply held_text. }
    intros chunks. cbn [flow_step]. by apply Safe_ret.
  - intros s' list_chunks hp' H.
    assert (fl_loaded s' = fl_loaded s /\ hp' = hp) as [Hl ->]
      by (by destruct H as [[_ ?]|?]).
    flow_cell; done.
Qed.

Lemma flow_generate_embeddings s hp (connection : Connection)
    (proxy : string) (splitter : Splitter) (docs : list Document) :
  held s hp docs ->
  Flow (fun s' _ hp' => fl_loaded s' = fl_loaded s /\ hp' = hp) s hp
    (generate_embeddings connection proxy splitter docs).
Proof.
  intros Hk. unfold generate_embeddings, collect_embeddings.
  apply Safe_ext_bind; [exact I|intros embedder; cbn [flow_step]].
  eapply Safe_bind.
  - apply (Safe_for_each _ _
             (fun s' _ hp' => fl_loaded s' = fl_loaded s /\ hp' = hp)
             (fun s' _ hp' => fl_loaded s' = fl_loaded s /\ hp' = hp)); [done|].
    intros doc acc s' hp' Hin H.
    assert (fl_loaded s' = fl_loaded s /\ hp' = hp) as [Hl ->]
      by (by destruct H).
    apply Safe_ext_bind.
    { cbn. rewrite Hl. by eapply held_text. }
    intros chunks. cbn [flow_step].
    set (s2 := mkFlow (fl_loaded s') (fl_summaries s')
                 (fl_splits s' ++ [(page_content doc, chunks)])).
    eapply Safe_weaken;
      [|apply (Safe_for_each _ _ (fun s'' _ hp'' => s'' = s2 /\ hp'' = hp)
                 (fun s'' _ hp'' => s'' = s2 /\ hp'' = hp)); [done|]].
    + intros s'' acc'' hp'' H'.
      assert (s'' = s2 /\ hp'' = hp) as [-> ->]
        by (by destruct H' as [[_ ?]|?]).
      done.
    + intros chunk acc' s'' hp'' Hchunk H'.
      assert (s'' = s2 /\ hp'' = hp) as [-> ->] by (by destruct H').
      apply Safe_ext_bind.
      { cbn. rewrite fmap_app, concat_app. apply elem_of_app. right. cbn.
        by rewrite app_nil_r. }
      intros embed. cbn [flow_step]. by apply Safe_ret.
  - intros s' embeddings hp' H.
    assert (fl_loaded s' = fl_loaded s /\ hp' = hp) as [Hl ->]
      by (by destruct H as [[_ ?]|?]).
    flow_cell; done.
Qed.

Lemma flow_end_to_end_pipeline s hp (docs : list Document) :
  held s hp docs ->
  Flow (fun s' names hp' =>
          handed_on s hp docs s' hp' (pl_chunks_with_mdata names)) s hp
    (end_to_end_pipeline docs).
Proof.
  intros Hk. unfold end_to_end_pipeline. cbv zeta.
  apply Safe_with; [exact I|intros; exact I|reflexivity|].
  intros connection. cbn [flow_step].
  do 7 (apply Safe_ext_bind; [exact I|intros ?; cbn [flow_step]]).
  eapply Safe_bind.
  { apply flow_process_documents. apply Forall_forall. intros d Hd. split.
    - destruct Hk as [Hvalid _]. rewrite Forall_forall in Hvalid.
      by apply Hvalid.
    - by eapply held_text. }
  intros s' chunks_with_mdata hp' (summs & chunkss & -> & Hs & Hc & Hb & _).
  flow_cell. by exists summs, chunkss.
Qed.

Lemma chunk_documents_flow (start : nat) hp (docs : list Document)
    (summs chunkss : list (list string)) :
  length summs = length docs -> length chunkss = length docs ->
  chunk_documents_of (resolve hp <$> docs) chunkss
    (chunk_documents_from start hp docs summs chunkss).
Proof.
  intros Hs Hc. unfold chunk_documents_of, chunk_documents_from.
  eexists. split; [done|].
  revert start summs chunkss Hs Hc.
  induction docs as [|doc docs IH];
    intros start [|summ summs] [|chunks chunkss] Hs Hc; try done.
  - constructor.
  - cbn [zip_with fmap list_fmap]. rewrite imap_cons. constructor.
    + split.
      * rewrite fmap_imap. apply list_eq. intros j.
        rewrite list_lookup_imap. by destruct (chunks !! j).
      * apply Forall_forall. intros d (j & chunk & -> & _)%elem_of_lookup_imap.
        cbn. apply expected_metadata_agree.
    + erewrite imap_ext; [apply (IH (S start) summs chunkss); cbn in *; lia|].
      intros i [d [sm ch]] _. cbn. apply imap_ext. intros j chunk _. cbn.
      do 2 f_equal. lia.
Qed.

Lemma flow_create_vector_store s hp (docs : list Document) s' hp'
    (chunks_with_mdata : list Document) (embedder : Embedder)
    (connection : Connection) :
  held s hp docs ->
  handed_on s hp docs s' hp' chunks_with_mdata ->
  Flow (fun _ _ _ => True) s' hp'
    (create_vector_store chunks_with_mdata embedder connection).
Proof.
  intros [_ Hres] (summs & chunkss & Hl & Hch & Hs & Hc & Hb).
  unfold create_vector_store.
  apply Safe_local_bind; [apply local_send_documents|].
  intros sent hp'' [= <- <-].
  apply Safe_ext_bind.
  { cbn. unfold made_of_chunks. rewrite Hl, Hch, <-Hres, length_fmap.
    replace (length docs)
      with (length (zip (page_content <$> docs) chunkss))
      by (rewrite length_zip_with, length_fmap; lia).
    rewrite lastn_app, fst_zip, snd_zip by (rewrite length_fmap; lia).
    split.
    - rewrite <-list_fmap_compose. done.
    - rewrite <-(app_nil_r hp'), (built_resolve _ _ _ _ _ Hb).
      by apply chunk_documents_flow. }
  intros vectorstore. cbn [flow_step]. flow_cell. exact I.
Qed.

Lemma flow_create_the_index s hp (connection : Connection)
    (vectorstore : VectorStore) :
  Flow (fun _ _ _ => True) s hp (create_the_index connection vectorstore).
Proof. unfold create_the_index. flow_cell; done. Qed.

Lemma flow_semantic_search s hp (vectorstore : VectorStore) :
  Flow (fun _ _ _ => True) s hp (semantic_search vectorstore).
Proof. unfold semantic_search. flow_cell; done. Qed.

Lemma flow_oracle_notebook hp :
  Flow (fun _ _ _ => True) (mkFlow [] [] []) hp OracleDemo.notebook.
Proof.
  unfold OracleDemo.notebook.
  eapply Safe_bind; [apply flow_create_demo_user|].
  intros s1 ? hp1 [-> ->].
  eapply Safe_bind; [apply flow_connect_demo_user|].
  intros s2 connection hp2 [-> ->].
  eapply Safe_bind; [apply flow_populate_demo_table|].
  intros s3 ? hp3 [-> ->].
  eapply Safe_bind; [apply flow_load_the_onnx_model|].
  intros s4 ? hp4 [-> ->].
  eapply Safe_bind; [apply flow_create_credential|].
  intros s5 ? hp5 [-> ->].
  eapply Safe_bind; [by apply flow_load_documents|].
  intros s6 [loader docs] hp6 Hk. cbn in Hk.
  eapply Safe_bind; [by apply flow_generate_summary|].
  intros s7 [summ list_summary] hp7 [Hl7 ->].
  apply (held_loaded _ s7) in Hk; [|done].
  eapply Safe_bind; [by apply flow_split_documents|].
  intros s8 [splitter list_chunks] hp8 [Hl8 ->].
  apply (held_loaded _ s8) in Hk; [|done].
  eapply Safe_bind; [by apply flow_generate_embeddings|].
  intros s9 [embedder embeddings] hp9 [Hl9 ->].
  apply (held_loaded _ s9) in Hk; [|done].
  eapply Safe_bind; [by apply flow_end_to_end_pipeline|].
  intros s10 names hp10 Hd. cbv zeta.
  eapply Safe_bind; [by eapply flow_create_vector_store|].
  intros s11 vectorstore hp11 _.
  eapply Safe_bind; [apply flow_create_the_index|].
  intros s12 ? hp12 _.
  apply flow_semantic_search.
Qed.

Lemma flow_spacy_notebook hp :
  Flow (fun _ _ _ => True) (mkFlow [] [] []) hp SpacyDemo.notebook.
Proof.
  unfold SpacyDemo.notebook, SpacyDemo.initialize, SpacyDemo.embed_the_texts,
    SpacyDemo.embed_the_query.
  repeat calls_step ltac:(exact I).
Qed.

End FlowCells.

(** ** The properties of the specification *)

(** C1 (as stated, refuted).  In the sample world the documents that the
    notebook gives to the vector store are not the loaded ones passed
    through: their metadata has keys that the pipeline cell computed. *)
Lemma pass_through_counterexample :
  ~ passes_through (log (OracleDemo.notebook []) sample_world 0).
Proof.
  intros Hpass. unfold passes_through in Hpass.
  set (tr := log (OracleDemo.notebook []) sample_world 0) in *.
  assert (exists docs e c t d r,
             tr !! 53 = Some (Entry (Ext.from_documents docs e c t d) r) /\
             docs !! 0 = Some (mkRaw "One."
                                 (expected_metadata (sample_heap !!! 0) 1 1
                                    (sample_summarize "One. Two.")))) as
    (docs & e & c & t & d & r & Hen & Hdoc).
  { eexists _, _, _, _, _, _. split; vm_compute; reflexivity. }
  pose proof (accepts_lookup _ _ _ _ _ _ Hpass Hen) as Hok.
  cbn [entry_call provenance_ok] in Hok.
  rewrite Forall_lookup in Hok.
  destruct (Hok _ _ Hdoc) as [_ (src & Hsrc & Heq)].
  assert (Hloaded : loaded (after provenance_step (mkProvenance [] [])
                              (take 53 tr)) = sample_docs)
    by (vm_compute; reflexivity).
  rewrite Hloaded in Hsrc.
  apply (f_equal (fun m : pydict => m !! "document_id")) in Heq.
  cbn [raw_metadata] in Heq.
  unfold sample_docs in Hsrc.
  apply elem_of_cons in Hsrc as [->|Hsrc];
    [|apply elem_of_cons in Hsrc as [->|Hsrc];
      [|by apply elem_of_nil in Hsrc]];
    vm_compute in Heq; discriminate.
Qed.

(** C1 (amended).  In every run of the two notebooks, whatever the
    libraries answer: no failure is recovered from and no call is
    retried, since when a call raises the notebook ends with the
    exception of the last call that raised, and after a call has raised
    nothing is called but the [__exit__] of the [with] blocks it was
    in; and the texts handed to the libraries are passed through, since
    the text given to [get_summary] or [split_text] is the text of a
    document that [load] returned and the text given to [embed_query]
    is a chunk that [split_text] returned.  The exception is the
    pipeline cell, which computes the documents given to
    [OracleVS.from_documents]: the last [split_text] calls, one for
    each loaded document, were made on the texts of the loaded
    documents in order, and there is, for every loaded document in
    order and for every chunk its call returned, in order, one
    document, with the chunk as its text and with a metadata mapping
    that agrees with that of the loaded document at every key other
    than ["id"], ["document_id"] and ["document_summary"]. *)
Theorem documents_pass_through_but_metadata {World : Type}
    (h : handler World) (w : World) :
  ((forall e, last_failure (log (OracleDemo.notebook []) h w) = Some e ->
              outcome (OracleDemo.notebook []) h w = inl e) /\
   fails_fast (log (OracleDemo.notebook []) h w) /\
   flows (log (OracleDemo.notebook []) h w)) /\
  ((forall e, last_failure (log (SpacyDemo.notebook []) h w) = Some e ->
              outcome (SpacyDemo.notebook []) h w = inl e) /\
   fails_fast (log (SpacyDemo.notebook []) h w) /\
   flows (log (SpacyDemo.notebook []) h w)).
Proof.
  unfold fails_fast, flows, log, outcome. split.
  - destruct (run (OracleDemo.notebook []) h w) as [[tr w'] res] eqn:Hrun.
    cbn [fst snd]. split_and!.
    + intros e. by eapply handlerless_run; [apply Handlerless_oracle_notebook|].
    + intros tr1 en tr2.
      by eapply fail_fast_run; [apply Fail_fast_oracle_notebook|].
    + by destruct (safe_run _ _ _ _ _ (flow_oracle_notebook [])
                     h w _ _ _ Hrun).
  - destruct (run (SpacyDemo.notebook []) h w) as [[tr w'] res] eqn:Hrun.
    cbn [fst snd]. split_and!.
    + intros e. by eapply handlerless_run; [apply Handlerless_spacy_notebook|].
    + intros tr1 en tr2.
      by eapply fail_fast_run; [apply Fail_fast_spacy_notebook|].
    + by destruct (safe_run _ _ _ _ _ (flow_spacy_notebook [])
                     h w _ _ _ Hrun).
Qed.



(** C3.  Every search call that a run of either notebook makes is a
    plain, filtered, scored or max-marginal-relevance search, and a run
    of the semantic-search cell that returns has made, in this order, a
    plain search, a filtered one, two scored ones (without and with a
    filter) and two max-marginal-relevance ones (without and with a
    filter): each of the four variants is exercised. *)
Theorem search_variants_exercised {World : Type} (h : handler World)
    (w : World) (vectorstore : VectorStore) (hp : heap) (tr : list entry)
    (w' : World) (res : unit * heap) :
  run (OracleDemo.semantic_search vectorstore hp) h w = (tr, w', inr res) ->
  omap variant_of tr
  = [PlainSimilarity; FilteredSimilarity; ScoredSimilarity;
     ScoredSimilarity; MaxMarginalRelevance; MaxMarginalRelevance] /\
  (forall v : search_variant, v ∈ omap variant_of tr) /\
  (forall en, en ∈ log (OracleDemo.notebook []) h w
              \/ en ∈ log (SpacyDemo.notebook []) h w ->
              is_search_call (entry_call en) = true ->
              is_Some (variant_of en)).
Proof.
  intros Hrun.
  assert (Hvs : omap variant_of tr
                = [PlainSimilarity; FilteredSimilarity; ScoredSimilarity;
                   ScoredSimilarity; MaxMarginalRelevance;
                   MaxMarginalRelevance]).
  { eapply (recorded variant_of); [apply (variants_semantic_search [])| |done].
    intros s [a hp'] ->. done. }
  split_and!; [done| |].
  - rewrite Hvs. intros []; set_solver.
  - intros en _. apply search_call_has_variant.
Qed.

(** The search cell returns in the sample world. *)
Lemma search_variants_exercised_witness :
  exists tr,
    omap variant_of tr
    = [PlainSimilarity; FilteredSimilarity; ScoredSimilarity;
       ScoredSimilarity; MaxMarginalRelevance; MaxMarginalRelevance] /\
    (forall v : search_variant, v ∈ omap variant_of tr) /\
    (forall en, en ∈ log (OracleDemo.notebook []) sample_world 0
                \/ en ∈ log (SpacyDemo.notebook []) sample_world 0 ->
                is_search_call (entry_call en) = true ->
                is_Some (variant_of en)).
Proof.
  eexists.
  apply (search_variants_exercised sample_world 0 7 [] _ 12 (tt, [])).
  vm_compute. reflexivity.
Defined.



(** C5.  In every run of either notebook, every instantiation of
    [OracleSummary] is given a mapping whose keys are exactly
    ["provider"], ["glevel"], ["numParagraphs"] and ["language"]. *)
Theorem summary_configuration_keys {World : Type} (h : handler World)
    (w : World) (en : entry) (params : pydict) :
  en ∈ log (OracleDemo.notebook []) h w
  \/ en ∈ log (SpacyDemo.notebook []) h w ->
  summary_params_of en = Some params ->
  dom params = summary_keys.
Proof.
  assert (Hacc : forall tr, accepts summary_keys_ok no_step tt tr ->
                            en ∈ tr -> summary_params_of en = Some params ->
                            dom params = summary_keys).
  { intros tr Hacc [i Hi]%list_elem_of_lookup.
    pose proof (accepts_lookup _ _ _ _ _ _ Hacc Hi) as Hok.
    destruct en as [R c r]. unfold summary_params_of. cbn in *.
    destruct c; try done. by intros [= <-]. }
  unfold log. intros [Hen|Hen].
  - destruct (run (OracleDemo.notebook []) h w) as [[tr w'] res] eqn:Hrun.
    eapply Hacc; [|exact Hen].
    by destruct (safe_run _ _ _ _ _ (summary_keys_oracle_notebook [])
                   h w _ _ _ Hrun).
  - destruct (run (SpacyDemo.notebook []) h w) as [[tr w'] res] eqn:Hrun.
    eapply Hacc; [|exact Hen].
    by destruct (safe_run _ _ _ _ _ (summary_keys_spacy_notebook [])
                   h w _ _ _ Hrun).
Qed.

(** The instantiation of the Generate Summary cell. *)
Lemma summary_configuration_keys_witness :
  dom OracleDemo.summary_params = summary_keys.
Proof.
  apply (summary_configuration_keys sample_world 0
           (Entry (Ext.OracleSummary 1 OracleDemo.summary_params
                     (Some OracleDemo.proxy)) (inr 4))).
  - left. apply list_elem_of_lookup. exists 24. vm_compute. reflexivity.
  - reflexivity.
Defined.

(** C6.  A run of the spaCy notebook that returns has made, besides
    [print], exactly three calls: the instantiation of [SpacyEmbeddings],
    one [embed_documents] on the list of texts and one [embed_query] on
    the query; no other entry point is called. *)
Theorem spacy_embedding_entry_points {World : Type} (h : handler World)
    (w : World) (tr : list entry) (w' : World) (res : unit * heap) :
  run (SpacyDemo.notebook []) h w = (tr, w', inr res) ->
  omap api_call_of tr
  = [Instantiate "en_core_web_sm"; Batch SpacyDemo.texts;
     SingleQuery SpacyDemo.query].
Proof.
  intros Hrun.
  eapply (recorded api_call_of); [apply (api_calls_spacy_notebook [])| |done].
  intros s [a hp'] ->. done.
Qed.

(** The spaCy notebook returns in the sample world. *)
Lemma spacy_embedding_entry_points_witness :
  exists tr,
    omap api_call_of tr
    = [Instantiate "en_core_web_sm"; Batch SpacyDemo.texts;
       SingleQuery SpacyDemo.query].
Proof.
  eexists.
  apply (spacy_embedding_entry_points sample_world 0 _ 8 (tt, [])).
  vm_compute. reflexivity.
Defined.

(** C8.  Pipeline cell, the loop over the documents of a store,
    whatever [get_summary] and [split_text] answer, in whatever state.
    When the loop returns, it has called [get_summary] and [split_text]
    once on the text of each document, in order, and with [summ] and
    [chunks] the answers for the document number [id], the documents
    appended to [chunks_with_mdata] are, for [id] and the chunk number
    [ic] (both from 1) in order, the chunk with a new metadata mapping:
    the document's one with ["id"] set to
    [_oid + "$" + str(id) + "$" + str(ic)], ["document_id"] to [str(id)]
    and ["document_summary"] to [str(summ[0])], where a document with a
    chunk has a [str] under [_oid] and a summary that is not empty.
    Every mapping that was in the store, the documents' own included,
    is unchanged, and no appended document shares its mapping with
    them.  The loop does return when the two calls answer, no summary
    is empty and every document has a [str] under [_oid]. *)
Theorem chunk_metadata_is_updated_copy {World : Type} (h : handler World)
    (summary : Summary) (splitter : Splitter) (docs : list Document)
    (hp : heap) (w : World) :
  Forall (fun d => metadata d < length hp) docs ->
  (forall tr w' chunks_with_mdata hp',
      run (OracleDemo.process_documents summary splitter docs hp) h w
      = (tr, w', inr (chunks_with_mdata, hp')) ->
      exists summs chunkss,
        length summs = length docs /\ length chunkss = length docs /\
        omap summary_call_of tr = zip (page_content <$> docs) summs /\
        omap split_call_of tr = zip (page_content <$> docs) chunkss /\
        Forall (processed hp) (zip docs (zip summs chunkss)) /\
        resolve hp' <$> chunks_with_mdata
        = chunk_documents hp docs summs chunkss /\
        (forall l m, hp !! l = Some m -> hp' !! l = Some m) /\
        Forall (fun d => length hp <= metadata d) chunks_with_mdata) /\
  ((forall sm text w, exists s0 rest,
       (h _ (Ext.get_summary sm text) w).2 = inr (s0 :: rest)) ->
   (forall sp text w, exists chunks,
       (h _ (Ext.split_text sp text) w).2 = inr chunks) ->
   Forall (has_oid hp) docs ->
   exists tr w' chunks_with_mdata hp',
     run (OracleDemo.process_documents summary splitter docs hp) h w
     = (tr, w', inr (chunks_with_mdata, hp'))).
Proof.
  intros Hvalid. split.
  - intros tr w' cwm hp' Hrun.
    destruct (process_documents_inr h summary splitter docs hp w tr w' cwm
                hp' Hvalid Hrun)
      as (summs & chunkss & Hs & Hc & Hst & Hct & Hp & Hb).
    exists summs, chunkss. split_and!; [done..| | |].
    + rewrite <-(app_nil_r hp'). by eapply built_resolve.
    + intros l m. by eapply built_frame.
    + eapply Forall_impl; [by eapply built_new|]. intros d. cbn. lia.
  - intros Hsumm Hsplit Hoid. unfold OracleDemo.process_documents.
    rewrite <-(app_nil_r hp).
    by apply (process_documents_progress h Hsumm Hsplit).
Qed.

(** Two documents with the same text, in a world that answers each
    [get_summary] call with another summary: the loop returns and the
    chunk of each document has the summary of its own call. *)
Lemma chunk_metadata_is_updated_copy_witness :
  exists tr w' chunks_with_mdata hp',
    run (OracleDemo.process_documents 4 5 twin_documents sample_heap)
      counting_world 0
    = (tr, w', inr (chunks_with_mdata, hp')) /\
    resolve hp' <$> chunks_with_mdata
    = chunk_documents sample_heap twin_documents
        [["0: Three."]; ["2: Three."]] [["Three."]; ["Three."]].
Proof.
  destruct (chunk_metadata_is_updated_copy counting_world 4 5 twin_documents
              sample_heap 0) as [Hbuilt Hreturns].
  { repeat constructor. }
  destruct Hreturns as (tr & w' & cwm & hp' & Hrun).
  { intros. eexists _, _. reflexivity. }
  { intros. eexists. reflexivity. }
  { constructor; [|constructor; [|constructor]].
    - by eexists _, "6F1A".
    - by eexists _, "6F1B". }
  exists tr, w', cwm, hp'. split; [exact Hrun|].
  destruct (Hbuilt _ _ _ _ Hrun)
    as (summs & chunkss & Hs & Hc & Hst & Hct & _ & -> & _).
  vm_compute in Hrun. injection Hrun as <- _ _ _.
  destruct summs as [|s1 [|s2 [|? ?]]]; try discriminate Hs.
  destruct chunkss as [|c1 [|c2 [|? ?]]]; try discriminate Hc.
  injection Hst as <- <-. injection Hct as <- <-. reflexivity.
Defined.

(** C9.  Generate Embeddings cell: when [split_text] and [embed_query]
    are functions of their text argument, the loop returns one embedding
    per chunk: [embeddings] is the embedding of every chunk of every
    loaded document in order, and its length is the sum over the
    documents of the number of chunks of their [page_content]. *)
Theorem embeddings_one_per_chunk {World : Type} (h : handler World)
    (split : string -> list string) (embed : string -> Embedding)
    (embedder : Embedder) (splitter : Splitter) (docs : list Document)
    (hp : heap) (w : World) :
  (forall sp text w, (h _ (Ext.split_text sp text) w).2 = inr (split text)) ->
  (forall e text w, (h _ (Ext.embed_query e text) w).2 = inr (embed text)) ->
  exists tr w' embeddings,
    run (OracleDemo.collect_embeddings embedder splitter docs hp) h w
    = (tr, w', inr (embeddings, hp)) /\
    embeddings
    = concat ((fun doc => embed <$> split (page_content doc)) <$> docs) /\
    length embeddings
    = sum_list_with (fun doc => length (split (page_content doc))) docs.
Proof.
  intros Hsplit Hembed. unfold OracleDemo.collect_embeddings.
  destruct (collect_embeddings_from split embed h Hsplit Hembed
              embedder splitter docs [] hp w) as (tr & w' & Hrun).
  eexists tr, w', _. split_and!; [exact Hrun|done|].
  clear. induction docs as [|doc docs IH]; [done|].
  cbn. rewrite length_app, length_fmap. by rewrite <-IH.
Qed.

(** The sample splitter and embedder are functions of the text. *)
Lemma embeddings_one_per_chunk_witness :
  exists tr w' embeddings,
    run (OracleDemo.collect_embeddings 6 5 sample_documents sample_heap)
      sample_world 0
    = (tr, w', inr (embeddings, sample_heap)) /\
    embeddings
    = concat ((fun doc => sample_embed <$> sample_split (page_content doc))
                <$> sample_documents) /\
    length embeddings
    = sum_list_with (fun doc => length (sample_split (page_content doc)))
        sample_documents.
Proof.
  apply (embeddings_one_per_chunk sample_world sample_split sample_embed);
    intros; reflexivity.
Defined.

(** C10.  Split Documents cell: when the splitter answers every call,
    the loop returns; it calls [split_text] once per loaded document, on
    its [page_content] and in load order, and [list_chunks] is the
    concatenation, in that order, of the lists the calls returned: no
    chunk is dropped, duplicated or reordered. *)
Theorem list_chunks_is_concatenation {World : Type} (h : handler World)
    (splitter : Splitter) (docs : list Document) (hp : heap) (w : World) :
  (forall sp text w, exists chunks,
      (h _ (Ext.split_text sp text) w).2 = inr chunks) ->
  exists tr w' list_chunks,
    run (OracleDemo.collect_chunks splitter docs hp) h w
    = (tr, w', inr (list_chunks, hp)) /\
    omap split_text_of tr = page_content <$> docs /\
    list_chunks = concat (omap chunks_of tr).
Proof.
  intros Hsplit. unfold OracleDemo.collect_chunks.
  destruct (collect_chunks_total h Hsplit splitter docs [] hp w)
    as (tr & w' & lc & Hrun).
  exists tr, w', lc. split; [done|].
  by apply collect_chunks_from in Hrun as (? & ? & _).
Qed.

(** The sample splitter answers every call. *)
Lemma list_chunks_is_concatenation_witness :
  exists tr w' list_chunks,
    run (OracleDemo.collect_chunks 5 sample_documents sample_heap)
      sample_world 0
    = (tr, w', inr (list_chunks, sample_heap)) /\
    omap split_text_of tr = page_content <$> sample_documents /\
    list_chunks = concat (omap chunks_of tr).
Proof.
  apply (list_chunks_is_concatenation sample_world).
  intros sp text w. eexists. reflexivity.
Defined.

(** ** The identifiers of the chunks *)

Section ChunkIds.

Lemma string_app_assoc (a b c : string) : (a +:+ b) +:+ c = a +:+ (b +:+ c).
Proof.
  induction a as [|x a IH]; [done|].
  change (String x ((a +:+ b) +:+ c) = String x (a +:+ (b +:+ c))).
  by f_equal.
Qed.

Lemma no_dollar_app (a b : string) :
  no_dollar (a +:+ String dollar b) -> False.
Proof.
  induction a as [|x a IH].
  - change (no_dollar (String dollar b) -> False). by intros [? _].
  - change (no_dollar (String x (a +:+ String dollar b)) -> False).
    by intros [_ ?].
Qed.

(** A string is cut at its last ["$"] in one way only. *)
Lemma cut_at_last_dollar (a b d1 d2 : string) :
  a +:+ String dollar d1 = b +:+ String dollar d2 ->
  no_dollar d1 -> no_dollar d2 -> a = b /\ d1 = d2.
Proof.
  revert b. induction a as [|x a IH]; intros [|y b];
    repeat match goal with
      | |- context [EmptyString +:+ ?s] =>
          change (EmptyString +:+ s) with s
      | |- context [String ?c ?a +:+ ?s] =>
          change (String c a +:+ s) with (String c (a +:+ s))
      end.
  - by intros [= ->].
  - intros [= <- ->] Hd _. by apply no_dollar_app in Hd.
  - intros [= -> <-] _ Hd. by apply no_dollar_app in Hd.
  - intros [= -> Heq] H1 H2. destruct (IH b Heq H1 H2) as [-> ->]. done.
Qed.

Lemma pretty_N_char_no_dollar (x : N) : pretty_N_char x ≠ dollar.
Proof. unfold pretty_N_char. by repeat case_match. Qed.

Lemma pretty_N_go_no_dollar (x : N) (s : string) :
  no_dollar s -> no_dollar (pretty_N_go x s).
Proof.
  revert s. induction (N.lt_wf_0 x) as [x _ IH]; intros s Hs.
  assert (x = 0 \/ 0 < x)%N as [->|Hx] by lia.
  - by rewrite pretty_N_go_0.
  - rewrite pretty_N_go_step by done. apply IH.
    + by apply N.div_lt.
    + split; [apply pretty_N_char_no_dollar|done].
Qed.

(** [str(n)] is made of digits. *)
Lemma str_of_int_no_dollar (n : nat) : no_dollar (str_of_int n).
Proof.
  unfold str_of_int, pretty, pretty_nat, pretty, pretty_N.
  case_decide; [cbn; by split|]. by apply pretty_N_go_no_dollar.
Qed.

(** The identifier of a chunk tells its document and its place in it,
    whatever the [_oid]. *)
Lemma chunk_id_inj (oid1 oid2 : string) (id1 id2 ic1 ic2 : nat) :
  chunk_id oid1 id1 ic1 = chunk_id oid2 id2 ic2 ->
  oid1 = oid2 /\ id1 = id2 /\ ic1 = ic2.
Proof.
  unfold chunk_id. rewrite !(string_app_assoc _ "$").
  change ("$" +:+ ?s) with (String dollar s).
  intros [Hleft Hic]%cut_at_last_dollar; [|apply str_of_int_no_dollar..].
  apply cut_at_last_dollar in Hleft as [-> Hid];
    [|apply str_of_int_no_dollar..].
  split_and!; [done|by apply (inj pretty)..].
Qed.

(** Values built from the place [(i, j)] of an element of a list of
    lists, one to one, are pairwise distinct. *)
Lemma NoDup_concat_imap {A B C : Type} (f : nat -> A -> nat -> B -> C)
    (g : A -> list B) (l : list A) :
  (forall i a j b i' a' j' b',
      f i a j b = f i' a' j' b' -> i = i' /\ j = j') ->
  NoDup (concat (imap (fun i a => imap (f i a) (g a)) l)).
Proof.
  revert f. induction l as [|a l IH]; intros f Hf; [constructor|].
  rewrite imap_cons. cbn [concat]. apply NoDup_app. split_and!.
  - apply NoDup_alt. intros p q x.
    rewrite !list_lookup_imap.
    destruct (g a !! p) as [b|]; [|done].
    destruct (g a !! q) as [b'|]; [|done]. cbn.
    intros [= <-] [= Heq]. by destruct (Hf _ _ _ _ _ _ _ _ Heq).
  - intros x [j [b [-> _]]]%elem_of_lookup_imap Hin.
    apply list_elem_of_In, in_concat in Hin as (blk & Hblk & Hx).
    apply list_elem_of_In, elem_of_lookup_imap in Hblk
      as (i' & a' & -> & _).
    apply list_elem_of_In, elem_of_lookup_imap in Hx as (j' & b' & Heq & _).
    by destruct (Hf _ _ _ _ _ _ _ _ Heq).
  - apply (IH (fun i => f (S i))). intros i a0 j b i' a' j' b' Heq.
    destruct (Hf _ _ _ _ _ _ _ _ Heq) as [[= ->] ->]. done.
Qed.

Lemma expected_documents_ids (hp : heap)
    (summarize split : string -> list string) (docs : list Document) :
  column "id" (expected_documents hp summarize split docs)
  = concat
      (imap (fun i doc =>
               imap (fun j (_ : string) =>
                       Some (PStr (chunk_id (oid_of (hp !!! metadata doc))
                                     (i + 1) (j + 1))))
                 (split (page_content doc)))
         docs).
Proof.
  unfold column, expected_documents.
  change (fmap ?f (concat ?l)) with (map f (concat l)).
  rewrite concat_map.
  change (map ?f ?l) with (fmap f l). rewrite fmap_imap. f_equal.
  apply imap_ext. intros i doc _. cbn. rewrite fmap_imap.
  apply imap_ext. intros j chunk _. cbn.
  by destruct (expected_metadata_lookup (hp !!! metadata doc) (i + 1) (j + 1)
                 (summarize (page_content doc))) as [-> _].
Qed.

Lemma expected_documents_ids_NoDup (hp : heap)
    (summarize split : string -> list string) (docs : list Document) :
  NoDup (column "id" (expected_documents hp summarize split docs)).
Proof.
  rewrite expected_documents_ids.
  apply (NoDup_concat_imap
           (fun i doc j (_ : string) =>
              Some (PStr (chunk_id (oid_of (hp !!! metadata doc))
                            (i + 1) (j + 1))))
           (fun doc => split (page_content doc))).
  intros i a j b i' a' j' b' [= Heq].
  apply chunk_id_inj in Heq as (_ & ? & ?). lia.
Qed.

(** The same of what the loop builds from any answers. *)
Lemma chunk_documents_ids_NoDup (start : nat) (hp : heap)
    (docs : list Document) (summs chunkss : list (list string)) :
  NoDup (column "id" (chunk_documents_from start hp docs summs chunkss)).
Proof.
  assert (Hids :
    column "id" (chunk_documents_from start hp docs summs chunkss)
    = concat
        (imap (fun i (x : Document * (list string * list string)) =>
                 imap (fun j (_ : string) =>
                         Some (PStr (chunk_id (oid_of (hp !!! metadata x.1))
                                       (i + start) (j + 1))))
                   x.2.2)
           (zip docs (zip summs chunkss)))).
  { unfold column, chunk_documents_from.
    change (fmap ?f (concat ?l)) with (map f (concat l)).
    rewrite concat_map.
    change (map ?f ?l) with (fmap f l). rewrite fmap_imap. f_equal.
    apply imap_ext. intros i [doc [summ chunks]] _. cbn. rewrite fmap_imap.
    apply imap_ext. intros j chunk _. cbn.
    by destruct (expected_metadata_lookup (hp !!! metadata doc) (i + start)
                   (j + 1) summ) as [-> _]. }
  rewrite Hids.
  apply (NoDup_concat_imap
           (fun i (x : Document * (list string * list string)) j
                (_ : string) =>
              Some (PStr (chunk_id (oid_of (hp !!! metadata x.1))
                            (i + start) (j + 1))))
           (fun x => x.2.2)).
  intros i a j b i' a' j' b' [= Heq].
  apply chunk_id_inj in Heq as (_ & ? & ?). lia.
Qed.

End ChunkIds.

(** ** The connection of the vector store *)

Section WithStep.
Context {S : Type}.
Variable ok : forall R : Type, S -> Ext.call R -> Prop.
Variable step : forall R : Type, S -> Ext.call R -> exn + R -> S.

(** Leaving a [with] block, when the call that leaves it counts. *)
Lemma safe_finally_step {A : Type} (Q Q' : S -> A -> Prop) (s : S)
    (p : prog A) (x : Ext.call unit) :
  (forall s', ok unit s' x) ->
  (forall s' a v, Q s' a -> Q' (step unit s' x (inr v)) a) ->
  safe ok step Q s p -> safe ok step Q' s (finally_ p (perform x)).
Proof.
  intros Hok HQ. induction 1 as [s a Ha|s e|s R c k Hc _ IH]; cbn.
  - constructor; [done|]. intros [e|v]; constructor. by apply HQ.
  - constructor; [done|]. intros [e'|v]; constructor.
  - by constructor.
Qed.

Lemma Safe_with_step {R A : Type} (Q0 : R -> S -> A -> heap -> Prop)
    (Q : S -> A -> heap -> Prop) (s : S) (hp : heap) (mgr : Ext.call R)
    (exit_ : R -> Ext.call unit) (body : R -> nb A) :
  ok R s mgr ->
  (forall x s', ok unit s' (exit_ x)) ->
  (forall x, Safe ok step (Q0 x) (step R s mgr (inr x)) hp (body x)) ->
  (forall x s' a hp' v,
      Q0 x s' a hp' -> Q (step unit s' (exit_ x) (inr v)) a hp') ->
  Safe ok step Q s hp (with_ mgr exit_ body).
Proof.
  intros Hok Hexit Hbody HQ. unfold Safe, with_.
  eapply safe_bind;
    [by apply (safe_perform _ _ (fun s' x => s' = step R s mgr (inr x)))|].
  intros s' x ->.
  eapply safe_finally_step; [apply Hexit| |apply Hbody].
  intros s' [a hp'] v. apply HQ.
Qed.

End WithStep.

(** The rules for a cell of which nothing is to be known but that its
    calls are allowed. *)
Ltac allowed_step :=
  first
    [ apply Safe_ret; exact I
    | apply Safe_ext_bind; [exact I | intros ?]
    | apply Safe_ext; [exact I | intros; exact I]
    | apply (Safe_with_step _ _ (fun _ _ _ _ => True));
      [exact I | intros; exact I | intros ? | intros; exact I]
    | apply Safe_local_bind; [solve [local_tac] | intros ? ? _]
    | apply Safe_local; [solve [local_tac] | intros; exact I]
    | eapply Safe_weaken;
      [ | apply (Safe_for_each _ _ (fun _ _ _ => True) (fun _ _ _ => True));
          [exact I | intros ? ? ? ? _ _] ];
      [intros; exact I | ]
    | apply (Safe_bind _ _ (fun _ _ _ => True)); [ | intros ? ? ? _ ]
    | split_pair
    | progress cbv zeta
    | progress cbn beta ].

Section Connections.
Import OracleDemo.
Implicit Types (hp : heap) (s : list Connection).

(** The pipeline cell binds [connection] to the connection it leaves. *)
Lemma left_end_to_end_pipeline s hp (docs : list Document) :
  Safe left_ok (record left) (fun s' names _ => pl_connection names ∈ s')
    s hp (end_to_end_pipeline docs).
Proof.
  unfold end_to_end_pipeline, process_documents.
  apply (Safe_with_step _ _ (fun x _ names _ => pl_connection names = x));
    [exact I|intros; exact I| |].
  - intros connection. cbv zeta.
    do 7 (apply Safe_ext_bind; [exact I|intros ?]).
    eapply Safe_bind.
    { eapply Safe_weaken;
        [|apply (Safe_for_each _ _ (fun _ _ _ => True) (fun _ _ _ => True));
          [exact I|intros [id doc] ? ? ? _ _]];
        [intros; exact I|].
      repeat allowed_step. }
    intros ? chunks_with_mdata ? _.
    apply Safe_ext_bind; [exact I|intros ?]. by apply Safe_ret.
  - intros connection s' names hp' v <-. unfold record. cbn.
    apply list_elem_of_here.
Qed.

Lemma left_oracle_notebook hp :
  Safe left_ok (record left) (fun _ _ _ => True) [] hp OracleDemo.notebook.
Proof.
  unfold OracleDemo.notebook.
  apply (Safe_bind _ _ (fun _ _ _ => True));
    [unfold create_demo_user; repeat allowed_step|intros s1 ? hp1 _].
  apply (Safe_bind _ _ (fun _ _ _ => True));
    [unfold connect_demo_user; repeat allowed_step|intros s2 connection hp2 _].
  apply (Safe_bind _ _ (fun _ _ _ => True));
    [unfold populate_demo_table; repeat allowed_step|intros s3 ? hp3 _].
  apply (Safe_bind _ _ (fun _ _ _ => True));
    [unfold load_the_onnx_model; repeat allowed_step|intros s4 ? hp4 _].
  apply (Safe_bind _ _ (fun _ _ _ => True));
    [unfold create_credential; repeat allowed_step|intros s5 ? hp5 _].
  apply (Safe_bind _ _ (fun _ _ _ => True));
    [unfold load_documents; repeat allowed_step|intros s6 [loader docs] hp6 _].
  apply (Safe_bind _ _ (fun _ _ _ => True));
    [unfold generate_summary; repeat allowed_step
    |intros s7 [summ list_summary] hp7 _].
  apply (Safe_bind _ _ (fun _ _ _ => True));
    [unfold split_documents, collect_chunks; repeat allowed_step
    |intros s8 [splitter list_chunks] hp8 _].
  apply (Safe_bind _ _ (fun _ _ _ => True));
    [unfold generate_embeddings, collect_embeddings; repeat allowed_step
    |intros s9 [embedder embeddings] hp9 _].
  eapply Safe_bind; [apply left_end_to_end_pipeline|].
  intros s10 names hp10 Hleft. cbv zeta.
  apply (Safe_bind _ _ (fun s' _ _ => s' = s10)).
  { unfold create_vector_store.
    apply Safe_local_bind; [local_tac|intros sent ? _].
    apply Safe_ext_bind; [exact Hleft|intros vectorstore].
    apply Safe_ext_bind; [exact I|intros name].
    apply Safe_ext_bind; [exact I|intros ?]. by apply Safe_ret. }
  intros ? vectorstore hp11 ->.
  apply (Safe_bind _ _ (fun _ _ _ => True)).
  { unfold create_the_index.
    apply Safe_ext_bind; [exact Hleft|intros ?].
    apply Safe_ext; [exact I|done]. }
  intros s12 ? hp12 _. unfold semantic_search. repeat allowed_step.
Qed.

End Connections.

(** ** The connections and cursors of a run *)

Section RunCases.
Context {World : Type}.
Implicit Types (h : handler World) (w : World).

Lemma run_mbind_cases {A B : Type} (m : nb A) (f : A -> nb B) (hp : heap)
    h w tr w' res :
  run ((m ≫= f) hp) h w = (tr, w', res) ->
  (exists e, run (m hp) h w = (tr, w', inl e) /\ res = inl e) \/
  (exists tr1 w1 a hp1 tr2,
      run (m hp) h w = (tr1, w1, inr (a, hp1)) /\
      run (f a hp1) h w1 = (tr2, w', res) /\ tr = tr1 ++ tr2).
Proof.
  rewrite run_mbind.
  destruct (run (m hp) h w) as [[tr1 w1] [e|[a hp1]]].
  - intros [= <- <- <-]. left. by exists e.
  - destruct (run (f a hp1) h w1) as [[tr2 w2] res2] eqn:E2.
    intros [= <- <- <-]. right. by exists tr1, w1, a, hp1, tr2.
Qed.

Lemma run_finally {A : Type} (p : prog A) (x : Ext.call unit) h w :
  run (finally_ p (perform x)) h w =
  let '(tr, w1, res) := run p h w in
  let '(w2, r) := h _ x w1 in
  (tr ++ [Entry x r], w2, match r with inl e => inl e | inr _ => res end).
Proof.
  revert w. induction p as [a|e|R c k IH]; intros w; cbn.
  - by destruct (h _ x w) as [w2 [e|[]]].
  - by destruct (h _ x w) as [w2 [e'|[]]].
  - destruct (h R c w) as [w1 r]. rewrite IH.
    destruct (run (k r) h w1) as [[tr w2] res].
    by destruct (h _ x w2) as [w3 r'].
Qed.

(** A [with] block: the manager raises and nothing else is called, or
    the body is run and the block is left, whatever the body did. *)
Lemma run_with_cases {R A : Type} (mgr : Ext.call R)
    (exit_ : R -> Ext.call unit) (body : R -> nb A) (hp : heap)
    h w tr w' res :
  run (with_ mgr exit_ body hp) h w = (tr, w', res) ->
  (exists e, tr = [Entry mgr (inl e)] /\ res = inl e) \/
  (exists x w1 trb w2 resb r,
      run (body x hp) h w1 = (trb, w2, resb) /\
      tr = Entry mgr (inr x) :: trb ++ [Entry (exit_ x) r] /\
      (forall a, res = inr a -> resb = inr a)).
Proof.
  unfold with_. rewrite run_bind, run_perform.
  destruct (h R mgr w) as [w1 [e|x]]; cbn [fst snd].
  - intros [= <- _ <-]. left. by exists e.
  - rewrite run_finally.
    destruct (run (body x hp) h w1) as [[trb w2] resb] eqn:Hb.
    destruct (h _ (exit_ x) w2) as [w3 r].
    intros [= <- _ <-]. right. exists x, w1, trb, w2, resb, r.
    split_and!; [done..|]. by destruct r.
Qed.

(** A [with] block that returns: the manager, the body and the
    [__exit__] have returned. *)
Lemma run_with_inr {R A : Type} (mgr : Ext.call R)
    (exit_ : R -> Ext.call unit) (body : R -> nb A) (hp : heap)
    h w tr w' a :
  run (with_ mgr exit_ body hp) h w = (tr, w', inr a) ->
  exists x w1 trb w2,
    run (body x hp) h w1 = (trb, w2, inr a) /\
    tr = Entry mgr (inr x) :: trb ++ [Entry (exit_ x) (inr tt)].
Proof.
  unfold with_. rewrite run_bind, run_perform.
  destruct (h R mgr w) as [w1 [e|x]]; cbn [fst snd]; [done|].
  rewrite run_finally.
  destruct (run (body x hp) h w1) as [[trb w2] resb] eqn:Hb.
  destruct (h _ (exit_ x) w2) as [w3 [e|[]]]; [done|].
  intros [= <- _ <-]. by exists x, w1, trb, w2.
Qed.

Lemma mute_run {X A : Type} (f : entry -> option X) (p : prog A) :
  mute f p ->
  forall h w tr w' res, run p h w = (tr, w', res) -> omap f tr = [].
Proof.
  induction 1 as [a|e|R c k Hc _ IH]; intros h w tr w' res; cbn.
  - by intros [= <- _ _].
  - by intros [= <- _ _].
  - destruct (h R c w) as [w1 r].
    destruct (run (k r) h w1) as [[tr1 w2] res1] eqn:Hk.
    intros [= <- _ _]. cbn. rewrite Hc. by eapply IH.
Qed.

End RunCases.

Section MuteRules.
Context {X : Type} (f : entry -> option X).

Lemma mute_bind {A B : Type} (p : prog A) (g : A -> prog B) :
  mute f p -> (forall a, mute f (g a)) -> mute f (bind p g).
Proof. intros Hp Hg. induction Hp; cbn; [apply Hg|constructor..]; auto. Qed.

Lemma Mute_ret {A : Type} (a : A) : Mute f (mret a).
Proof. intros hp. constructor. Qed.

Lemma Mute_bind {A B : Type} (m : nb A) (g : A -> nb B) :
  Mute f m -> (forall a, Mute f (g a)) -> Mute f (m ≫= g).
Proof.
  intros Hm Hg hp. apply mute_bind; [apply Hm|]. intros [a hp']. apply Hg.
Qed.

Lemma Mute_ext {R : Type} (c : Ext.call R) :
  (forall r, f (Entry c r) = None) -> Mute f (ext c).
Proof.
  intros Hc hp. unfold ext, perform. cbn. constructor; [done|].
  intros [e|v]; constructor.
Qed.

Lemma mute_finally {A : Type} (p : prog A) (x : Ext.call unit) :
  (forall r, f (Entry x r) = None) -> mute f p ->
  mute f (finally_ p (perform x)).
Proof.
  intros Hx. induction 1; cbn.
  - constructor; [done|]. intros [?|?]; constructor.
  - constructor; [done|]. intros [?|?]; constructor.
  - by constructor.
Qed.

Lemma Mute_with {R A : Type} (mgr : Ext.call R)
    (exit_ : R -> Ext.call unit) (body : R -> nb A) :
  (forall r, f (Entry mgr r) = None) ->
  (forall x r, f (Entry (exit_ x) r) = None) ->
  (forall x, Mute f (body x)) -> Mute f (with_ mgr exit_ body).
Proof.
  intros Hmgr Hexit Hbody hp. unfold with_, perform. cbn.
  constructor; [done|]. intros [e|x]; cbn; [constructor|].
  apply mute_finally; [apply Hexit|apply Hbody].
Qed.

Lemma Mute_for_each {Y S : Type} (xs : list Y) (body : Y -> S -> nb S)
    (s : S) :
  (forall x s, Mute f (body x s)) -> Mute f (for_each xs body s).
Proof.
  intros Hbody. revert s. induction xs as [|x xs IH]; intros s; cbn.
  - apply Mute_ret.
  - apply Mute_bind; [apply Hbody|apply IH].
Qed.

Lemma Mute_local {A : Type} (m : nb A) : local m -> Mute f m.
Proof. intros Hm hp. destruct (Hm hp) as [[r ->]|[e ->]]; constructor. Qed.

End MuteRules.

Ltac mute_step :=
  first
    [ apply Mute_ext; intros ?; reflexivity
    | apply Mute_local; solve [local_tac]
    | apply Mute_bind
    | apply Mute_with; [intros ?; reflexivity|intros ? ?; reflexivity|]
    | apply Mute_for_each
    | progress cbv zeta
    | intros [? ?]
    | intros ? ].

Ltac mute_cell := repeat mute_step.

(** A log of a computation of which [resource_event_of] reads nothing. *)
Ltac mute_in H :=
  apply (mute_run resource_event_of) in H;
  [|match goal with
    | |- mute ?f (?m ?hp) => apply ((fun (Hm : Mute f m) => Hm hp))
    end; mute_cell].

Section Resources.
Context {World : Type}.
Variable h : handler World.
Implicit Types (w : World) (hp : heap).
Import OracleDemo.

Lemma events_create_demo_user hp w tr w' a :
  run (create_demo_user hp) h w = (tr, w', inr a) ->
  exists c k,
    omap resource_event_of tr
    = [Opened c; CursorOpened c k; CursorClosed k; Closed c].
Proof.
  unfold create_demo_user. cbv zeta.
  intros (c & w1 & trb & w2 & Hb & ->)%run_with_inr.
  destruct a as [a hp'].
  apply run_mbind_inr in Hb
    as (tr1 & w3 & [] & hp1 & tr2 & Hp & Hw & ->).
  mute_in Hp.
  apply run_with_inr in Hw as (k & w4 & trk & w5 & Hk & ->).
  mute_in Hk. exists c, k.
  cbn [omap list_omap resource_event_of].
  rewrite omap_app, omap_app, Hp. cbn [app omap list_omap resource_event_of].
  by rewrite omap_app, Hk.
Qed.

Lemma events_connect_demo_user hp w tr w' (c : Connection) hp' :
  run (connect_demo_user hp) h w = (tr, w', inr (c, hp')) ->
  omap resource_event_of tr = [Opened c].
Proof.
  unfold connect_demo_user. cbv zeta.
  intros (tr1 & w1 & c1 & hp1 & tr2 & Hc & Hrest & ->)%run_mbind_inr.
  apply run_ext_inr in Hc as (_ & -> & _ & ->).
  apply run_mbind_inr in Hrest
    as (tr3 & w3 & [] & hp3 & tr4 & Hp & Hret & ->).
  mute_in Hp. apply run_mret_inr in Hret as (-> & _ & -> & _).
  cbn [omap list_omap resource_event_of app].
  by rewrite app_nil_r, Hp.
Qed.

Lemma events_populate_demo_table (c : Connection) hp w tr w' a :
  run (populate_demo_table c hp) h w = (tr, w', inr a) ->
  exists k,
    omap resource_event_of tr
    = [CursorOpened c k; CursorClosed k; Committed c].
Proof.
  unfold populate_demo_table. destruct a as [a hp'].
  intros (tr1 & w1 & [] & hp1 & tr2 & Hw & Hrest & ->)%run_mbind_inr.
  apply run_with_inr in Hw as (k & w3 & trk & w4 & Hk & ->).
  mute_in Hk. exists k.
  apply run_mbind_inr in Hrest
    as (tr3 & w5 & [] & hp3 & tr4 & Hc & Hp & ->).
  apply run_ext_inr in Hc as (_ & -> & _ & ->). mute_in Hp.
  rewrite omap_app. cbn [omap list_omap resource_event_of].
  rewrite omap_app, Hk, omap_app, Hp. done.
Qed.

Lemma events_create_credential (c : Connection) hp w tr w' a :
  run (create_credential c hp) h w = (tr, w', inr a) ->
  exists k, omap resource_event_of tr = [CursorOpened c k; CursorClosed k].
Proof.
  unfold create_credential.
  intros (k & w3 & trk & w4 & Hk & ->)%run_with_inr.
  destruct a as [a hp']. mute_in Hk. exists k.
  cbn [omap list_omap resource_event_of]. by rewrite omap_app, Hk.
Qed.

Lemma events_end_to_end_pipeline (docs : list Document) hp w tr w' a :
  run (end_to_end_pipeline docs hp) h w = (tr, w', inr a) ->
  exists c, omap resource_event_of tr = [Opened c; Closed c].
Proof.
  unfold end_to_end_pipeline, process_documents. cbv zeta.
  intros (c & w3 & trb & w4 & Hb & ->)%run_with_inr.
  destruct a as [a hp']. mute_in Hb. exists c.
  cbn [omap list_omap resource_event_of]. by rewrite omap_app, Hb.
Qed.

(** The events of a run of the notebook that returns. *)
Lemma resources_run w tr w' a :
  run (OracleDemo.notebook []) h w = (tr, w', inr a) ->
  exists c1 k1 c2 k2 k3 c3,
    omap resource_event_of tr = resource_protocol c1 k1 c2 k2 k3 c3.
Proof.
  unfold OracleDemo.notebook. destruct a as [a hp'].
  intros (tr1 & w1 & [] & hp1 & tr0 & H1 & H & ->)%run_mbind_inr.
  apply events_create_demo_user in H1 as (c1 & k1 & E1).
  apply run_mbind_inr in H
    as (tr2 & w2 & c2 & hp2 & tr & H2 & H & ->).
  apply events_connect_demo_user in H2 as E2.
  apply run_mbind_inr in H
    as (tr3 & w3 & [] & hp3 & tr0 & H3 & H & ->).
  apply events_populate_demo_table in H3 as (k2 & E3).
  apply run_mbind_inr in H
    as (tr4 & w4 & [] & hp4 & tr & H4 & H & ->).
  mute_in H4.
  apply run_mbind_inr in H
    as (tr5 & w5 & [] & hp5 & tr0 & H5 & H & ->).
  apply events_create_credential in H5 as (k3 & E5).
  apply run_mbind_inr in H
    as (tr6 & w6 & [loader docs] & hp6 & tr & H6 & H & ->).
  mute_in H6.
  apply run_mbind_inr in H
    as (tr7 & w7 & [summ list_summary] & hp7 & tr0 & H7 & H & ->).
  mute_in H7.
  apply run_mbind_inr in H
    as (tr8 & w8 & [splitter list_chunks] & hp8 & tr & H8 & H & ->).
  mute_in H8.
  apply run_mbind_inr in H
    as (tr9 & w9 & [embedder embeddings] & hp9 & tr0 & H9 & H & ->).
  mute_in H9.
  apply run_mbind_inr in H
    as (tr10 & w10 & names & hp10 & tr & H10 & H & ->).
  apply events_end_to_end_pipeline in H10 as (c3 & E10).
  cbv zeta in H. mute_in H.
  exists c1, k1, c2, k2, k3, c3.
  rewrite !omap_app, E1, E2, E3, H4, E5, H6, H7, H8, H9, E10, H. done.
Qed.

End Resources.

(** ** The loops of the cells, one by one *)

Section SummaryCell.
Context {World : Type}.
Variable h : handler World.
Implicit Types (w : World) (hp : heap).
Hypothesis summary_answers :
  forall sm text w, exists summ,
    (h _ (Ext.get_summary sm text) w).2 = inr summ.

(** The loop that fills [list_summary]: one call for each document, in
    order, and one summary appended for each call. *)
Lemma collect_summaries_total (summ : Summary) (docs : list Document)
    (acc : list (list string)) hp w :
  exists tr w',
    run (for_each docs
           (fun doc list_summary =>
              summary ← ext (Ext.get_summary summ (page_content doc));
              mret (list_summary ++ [summary]))
           acc hp) h w
    = (tr, w', inr (acc ++ omap summaries_of tr, hp)) /\
    omap summary_text_of tr = page_content <$> docs /\
    length (omap summaries_of tr) = length docs.
Proof using summary_answers.
  revert acc w. induction docs as [|doc docs IH]; intros acc w.
  - exists [], w. by rewrite app_nil_r.
  - cbn [for_each]. rewrite !run_mbind, run_ext.
    destruct (summary_answers summ (page_content doc) w) as [s ->].
    cbn [mret nb_ret run].
    destruct (IH (acc ++ [s])
                (h _ (Ext.get_summary summ (page_content doc)) w).1)
      as (tr & w' & -> & Htexts & Hlen).
    exists (Entry (Ext.get_summary summ (page_content doc)) (inr s) :: tr), w'.
    split_and!.
    + cbn [app omap list_omap summaries_of]. by rewrite <-(assoc_L (++) acc).
    + cbn. by rewrite Htexts.
    + cbn. by rewrite Hlen.
Qed.

End SummaryCell.

Section SpacyPrints.
Context {World : Type}.
Variable h : handler World.
Implicit Types (w : World) (hp : heap).
Hypothesis print_returns :
  forall parts w, (h _ (Ext.print parts) w).2 = inr tt.

(** The line printed for the embedding number [i], counted from 0. *)
Lemma print_embeddings_from (embeddings : list Embedding) (start : nat)
    hp w :
  exists w',
    run (for_each (enumerate embeddings start)
           (fun '(i, embedding) (_ : unit) =>
              ext (Ext.print
                     [ShowStr ("Embedding for document "
                               +:+ str_of_int (i + 1) +:+ ": ");
                      ShowEmbedding embedding]))
           tt hp) h w
    = (imap (fun i embedding =>
               Entry (Ext.print
                        [ShowStr ("Embedding for document "
                                  +:+ str_of_int (start + i + 1) +:+ ": ");
                         ShowEmbedding embedding])
                 (inr tt))
         embeddings,
       w', inr (tt, hp)).
Proof using print_returns.
  revert start w.
  induction embeddings as [|embedding embeddings IH]; intros start w.
  - by exists w.
  - cbn [enumerate for_each]. rewrite run_mbind, run_ext, print_returns.
    destruct (IH (S start) (h _ (Ext.print
                     [ShowStr ("Embedding for document "
                               +:+ str_of_int (start + 1) +:+ ": ");
                      ShowEmbedding embedding]) w).1) as [w' ->].
    exists w'. cbn [app imap]. rewrite Nat.add_0_r. do 3 f_equal.
    apply imap_ext. intros i e _. cbn. do 7 f_equal. lia.
Qed.

End SpacyPrints.

Section FreshMetadata.
Import OracleDemo.
Implicit Types (hp : heap).

(** Whatever the libraries answer, every document the loop appends
    refers to a mapping of its own, made after those of the store the
    loop started in, which are left as they were. *)
Lemma fresh_process_documents (summary : Summary) (splitter : Splitter)
    (docs : list Document) hp :
  Safe any_call no_step
    (fun _ chunks_with_mdata hp' =>
       take (length hp) hp' = hp /\
       metadata <$> chunks_with_mdata
       = seq (length hp) (length chunks_with_mdata) /\
       length hp' = length hp + length chunks_with_mdata)
    tt hp (process_documents summary splitter docs).
Proof.
  unfold process_documents.
  set (Inv := fun (_ : unit) (cwm : list Document) (hp' : heap) =>
              take (length hp) hp' = hp /\
              metadata <$> cwm = seq (length hp) (length cwm) /\
              length hp' = length hp + length cwm).
  assert (HI0 : Inv tt [] hp).
  { split_and!; [by rewrite firstn_all|done|cbn; lia]. }
  eapply Safe_weaken;
    [|apply (Safe_for_each _ _ Inv Inv); [exact HI0|]].
  { intros s cwm hp' [[_ ?]|?]; done. }
  intros [id doc] cwm s hp1 _ HI.
  assert (HI1 : Inv s cwm hp1) by (by destruct HI). clear HI.
  apply Safe_ext_bind; [exact I|intros summ].
  apply Safe_ext_bind; [exact I|intros chunks].
  eapply Safe_weaken;
    [|apply (Safe_for_each _ _ Inv Inv); [exact HI1|]].
  { intros s' cwm' hp' [[_ ?]|?]; done. }
  intros [ic chunk] cwm2 s2 hp2 _ HI.
  assert (HI2 : Inv s2 cwm2 hp2) by (by destruct HI). clear HI.
  apply Safe_local; [apply local_process_chunk|].
  intros cwm3 hp3. rewrite process_chunk_error.
  destruct (chunk_error _ _); [done|]. intros [= <- <-].
  destruct HI2 as (Htake & Hmeta & Hlen). split_and!.
  - rewrite take_app_le by lia. exact Htake.
  - rewrite fmap_app, length_app, seq_app, Hmeta. cbn. do 3 f_equal. lia.
  - rewrite !length_app. cbn. lia.
Qed.

End FreshMetadata.

Section CellsAgree.
Context {World : Type}.
Variables (split : string -> list string).
Variable h : handler World.
Implicit Types (w : World) (hp : heap).
Hypothesis split_pure :
  forall sp text w, (h _ (Ext.split_text sp text) w).2 = inr (split text).

(** The loop that fills [list_chunks], when [split_text] is a function
    of the text. *)
Lemma collect_chunks_pure (splitter : Splitter) (docs : list Document)
    (acc : list string) hp w :
  exists tr w',
    run (for_each docs
           (fun doc list_chunks =>
              chunks ← ext (Ext.split_text splitter (page_content doc));
              mret (list_chunks ++ chunks))
           acc hp) h w
    = (tr, w',
       inr (acc ++ concat ((fun doc => split (page_content doc)) <$> docs),
            hp)).
Proof using split_pure.
  revert acc w. induction docs as [|doc docs IH]; intros acc w.
  - exists [], w. by rewrite app_nil_r.
  - cbn [for_each]. rewrite !run_mbind, run_ext, split_pure.
    cbn [mret nb_ret run].
    destruct (IH (acc ++ split (page_content doc))
                (h _ (Ext.split_text splitter (page_content doc)) w).1)
      as (tr & w' & ->).
    rewrite <-(assoc_L (++) acc). by eexists _, _.
Qed.

Lemma expected_documents_texts (hp0 : heap)
    (summarize : string -> list string) (docs : list Document) :
  raw_content <$> expected_documents hp0 summarize split docs
  = concat ((fun doc => split (page_content doc)) <$> docs).
Proof.
  unfold expected_documents.
  change (fmap ?f (concat ?l)) with (map f (concat l)).
  rewrite concat_map.
  change (map ?f ?l) with (fmap f l). rewrite fmap_imap. f_equal.
  apply list_eq. intros i. rewrite list_lookup_imap, list_lookup_fmap.
  destruct (docs !! i) as [doc|]; [|done]. cbn. f_equal.
  rewrite fmap_imap. apply list_eq. intros j. rewrite list_lookup_imap.
  by destruct (split (page_content doc) !! j).
Qed.

End CellsAgree.

(** ** The loaders of a run *)

(** A log of a computation of which [loader_event_of] reads nothing. *)
Ltac unloaded_in H :=
  apply (mute_run loader_event_of) in H;
  [|match goal with
    | |- mute ?f (?m ?hp) => apply ((fun (Hm : Mute f m) => Hm hp))
    end; mute_cell].

Section Loaders.
Context {World : Type}.
Variable h : handler World.
Implicit Types (w : World) (hp : heap).
Import OracleDemo.

Lemma loaders_load_documents (c : Connection) hp w tr w' res :
  run (load_documents c hp) h w = (tr, w', res) ->
  (omap loader_event_of tr = [] /\ forall a, res <> inr a) \/
  (exists l, omap loader_event_of tr = [LoaderMade l; LoadCalled l]).
Proof.
  unfold load_documents. intros H.
  apply run_mbind_cases in H
    as [(e & Hc & ->)|(tr1 & w1 & l & hp1 & tr2 & Hc & Hrest & ->)].
  - left. rewrite run_ext in Hc. destruct (h _ _ w) as [w1 [e'|v]]; [|done].
    by injection Hc as <- _ _.
  - right. exists l. apply run_ext_inr in Hc as (_ & -> & _ & ->).
    cbn [omap list_omap loader_event_of app].
    apply run_mbind_cases in Hrest
      as [(e & Hl & ->)|(tr3 & w3 & raws & hp3 & tr4 & Hl & Hrest & ->)].
    + rewrite run_ext in Hl. destruct (h _ _ _) as [w2 [e'|v]]; [|done].
      by injection Hl as <- _ _.
    + apply run_ext_inr in Hl as (_ & -> & _ & ->).
      unloaded_in Hrest. cbn [omap list_omap loader_event_of app].
      by rewrite Hrest.
Qed.

Lemma loaders_end_to_end_pipeline (docs : list Document) hp w tr w' res :
  run (end_to_end_pipeline docs hp) h w = (tr, w', res) ->
  (omap loader_event_of tr = [] /\ forall a, res <> inr a) \/
  (exists l, omap loader_event_of tr = [LoaderMade l]).
Proof.
  unfold end_to_end_pipeline, process_documents. cbv zeta. intros H.
  apply run_with_cases in H
    as [(e' & -> & ->)|(c & w3 & trb & w4 & resb & r' & Hb & -> & Hres)];
    [by left|].
  cbn [omap list_omap loader_event_of]. rewrite omap_app. cbn [app].
  rewrite app_nil_r.
  assert (Hraised : forall e, resb = inl e -> forall a, res <> inr a).
  { intros e -> a Ha. by specialize (Hres a Ha). }
  clear Hres.
  apply run_mbind_cases in Hb
    as [(e & H1 & ->)|(tr1 & w1 & [] & hp1 & tr & H1 & Hb & ->)];
    unloaded_in H1; [left; rewrite H1; eauto|].
  rewrite omap_app, H1. clear H1 tr1. cbn [app].
  apply run_mbind_cases in Hb
    as [(e & H1 & ->)|(tr1 & w2 & [] & hp2 & tr' & H1 & Hb & ->)];
    unloaded_in H1; [left; rewrite H1; eauto|].
  rewrite omap_app, H1. clear H1 tr1. cbn [app].
  apply run_mbind_cases in Hb
    as [(e & H1 & ->)|(tr1 & w5 & [] & hp5 & tr & H1 & Hb & ->)];
    unloaded_in H1; [left; rewrite H1; eauto|].
  rewrite omap_app, H1. clear H1 tr1. cbn [app].
  apply run_mbind_cases in Hb
    as [(e & Hc & ->)|(tr1 & w6 & l & hp6 & tr' & Hc & Hb & ->)].
  - left. rewrite run_ext in Hc. destruct (h _ _ w5) as [w6 [e'|v]]; [|done].
    injection Hc as <- _ <-. eauto.
  - right. exists l. apply run_ext_inr in Hc as (_ & -> & _ & ->).
    unloaded_in Hb. cbn [omap list_omap loader_event_of app].
    by rewrite Hb.
Qed.

(** One loader is asked to load, the one of the Load Documents cell. *)
Lemma loaders_run w tr w' res :
  run (OracleDemo.notebook []) h w = (tr, w', res) ->
  exists l1 l2 n,
    n <= 3 /\
    omap loader_event_of tr
    = take n [LoaderMade l1; LoadCalled l1; LoaderMade l2] /\
    (forall a, res = inr a -> n = 3).
Proof.
  unfold OracleDemo.notebook. intros H.
  apply run_mbind_cases in H
    as [(e & H1 & ->)|(tr1 & w1 & [] & hp1 & tr' & H1 & H & ->)];
    unloaded_in H1; [exists 0, 0, 0; rewrite H1; split_and!; [lia|done..]|].
  rewrite omap_app, H1. clear H1 tr1. cbn [app].
  apply run_mbind_cases in H
    as [(e & H1 & ->)|(tr1 & w2 & connection & hp2 & tr & H1 & H & ->)];
    unloaded_in H1; [exists 0, 0, 0; rewrite H1; split_and!; [lia|done..]|].
  rewrite omap_app, H1. clear H1 tr1. cbn [app].
  apply run_mbind_cases in H
    as [(e & H1 & ->)|(tr1 & w3 & [] & hp3 & tr' & H1 & H & ->)];
    unloaded_in H1; [exists 0, 0, 0; rewrite H1; split_and!; [lia|done..]|].
  rewrite omap_app, H1. clear H1 tr1. cbn [app].
  apply run_mbind_cases in H
    as [(e & H1 & ->)|(tr1 & w4 & [] & hp4 & tr & H1 & H & ->)];
    unloaded_in H1; [exists 0, 0, 0; rewrite H1; split_and!; [lia|done..]|].
  rewrite omap_app, H1. clear H1 tr1. cbn [app].
  apply run_mbind_cases in H
    as [(e & H1 & ->)|(tr1 & w5 & [] & hp5 & tr' & H1 & H & ->)];
    unloaded_in H1; [exists 0, 0, 0; rewrite H1; split_and!; [lia|done..]|].
  rewrite omap_app, H1. clear H1 tr1. cbn [app].
  (* Load Documents *)
  apply run_mbind_cases in H
    as [(e & H6 & ->)
       |(tr6 & w6 & [loader docs] & hp6 & tr & H6 & H & ->)];
    apply loaders_load_documents in H6 as [[E6 F6]|(l1 & E6)];
    try (by destruct (F6 (loader, docs, hp6))).
  { exists 0, 0, 0. rewrite E6. split_and!; [lia|done..]. }
  { exists l1, 0, 2. rewrite E6. split_and!; [lia|done..]. }
  rewrite omap_app, E6. clear E6 tr6.
  apply run_mbind_cases in H
    as [(e & H1 & ->)
       |(tr1 & w7 & [summ list_summary] & hp7 & tr' & H1 & H & ->)];
    unloaded_in H1;
    [exists l1, 0, 2; rewrite H1; split_and!; [lia|done..]|].
  rewrite omap_app, H1. clear H1 tr1. cbn [app].
  apply run_mbind_cases in H
    as [(e & H1 & ->)
       |(tr1 & w8 & [splitter list_chunks] & hp8 & tr & H1 & H & ->)];
    unloaded_in H1;
    [exists l1, 0, 2; rewrite H1; split_and!; [lia|done..]|].
  rewrite omap_app, H1. clear H1 tr1. cbn [app].
  apply run_mbind_cases in H
    as [(e & H1 & ->)
       |(tr1 & w9 & [embedder embeddings] & hp9 & tr' & H1 & H & ->)];
    unloaded_in H1;
    [exists l1, 0, 2; rewrite H1; split_and!; [lia|done..]|].
  rewrite omap_app, H1. clear H1 tr1. cbn [app].
  (* The pipeline cell *)
  apply run_mbind_cases in H
    as [(e & H10 & ->)|(tr10 & w10 & names & hp10 & tr & H10 & H & ->)];
    apply loaders_end_to_end_pipeline in H10 as [[E10 F10]|(l2 & E10)];
    try (by destruct (F10 (names, hp10))).
  { exists l1, 0, 2. rewrite E10. split_and!; [lia|done..]. }
  { exists l1, l2, 3. rewrite E10. split_and!; [lia|done..]. }
  rewrite omap_app, E10. clear E10 tr10.
  cbv zeta in H. unloaded_in H. rewrite H.
  exists l1, l2, 3. split_and!; [lia|done..].
Qed.

End Loaders.

(** ** The populate cell *)

Section Populate.
Context {World : Type}.
Variable h : handler World.
Implicit Types (w : World) (hp : heap).

(** The cell commits after its three statements and the closing of its
    cursor have returned, and not otherwise. *)
Lemma commit_in_populate (connection : Connection) hp w (i : nat)
    (en : entry) :
  log (OracleDemo.populate_demo_table connection hp) h w !! i = Some en ->
  is_commit (entry_call en) = true ->
  exists cursor,
    take i (log (OracleDemo.populate_demo_table connection hp) h w)
    = [ Entry (Ext.cursor connection) (inr cursor);
        Entry (Ext.execute cursor "drop table if exists demo_tab") (inr tt);
        Entry (Ext.execute cursor
                 "create table demo_tab (id number, data clob)") (inr tt);
        Entry (Ext.executemany cursor "insert into demo_tab values (:1, :2)"
                 OracleDemo.rows_to_insert) (inr tt);
        Entry (Ext.cursor_exit cursor) (inr tt) ].
Proof.
  unfold log, OracleDemo.populate_demo_table, with_, ext, perform.
  unfold mbind, nb_bind. cbn [bind finally_ run].
  repeat match goal with
         | |- context [h unit ?c ?w0] =>
             destruct (h unit c w0) as [? [?|[]]];
             cbn [bind finally_ run fst snd]
         | |- context [h ?R ?c ?w0] =>
             destruct (h R c w0) as [? [?|?]]; cbn [bind finally_ run fst snd]
         end;
    intros Hi Hc;
    repeat (destruct i as [|i];
            [cbn in Hi; injection Hi as <-; try discriminate Hc
            |cbn in Hi]);
    try discriminate Hi.
  all: by eexists.
Qed.

End Populate.

(** * Further properties of the notebooks *)

(** X1.  Pipeline cell, the loop over the documents: when [get_summary]
    and [split_text] are functions of their text argument, a document
    whose text has no chunk is summarized like the others but adds
    nothing to [chunks_with_mdata], and its metadata and its summary
    are not looked at: a missing [_oid] or an empty summary raises
    nothing for it.  The loop returns the chunks of the other
    documents, numbered by the place of their document among all the
    documents. *)
Theorem pipeline_skips_documents_without_chunks {World : Type}
    (h : handler World) (summarize split : string -> list string)
    (summary : Summary) (splitter : Splitter) (docs : list Document)
    (hp : heap) (w : World) :
  (forall sm text w,
      (h _ (Ext.get_summary sm text) w).2 = inr (summarize text)) ->
  (forall sp text w, (h _ (Ext.split_text sp text) w).2 = inr (split text)) ->
  Forall (passable hp summarize split) docs ->
  exists tr w' chunks_with_mdata hp',
    run (OracleDemo.process_documents summary splitter docs hp) h w
    = (tr, w', inr (chunks_with_mdata, hp')) /\
    omap summary_text_of tr = page_content <$> docs /\
    resolve hp' <$> chunks_with_mdata
    = expected_documents hp summarize split docs.
Proof.
  intros Hsumm Hsplit Hdocs. unfold OracleDemo.process_documents.
  destruct (process_documents_passable summarize split h Hsumm Hsplit
              summary splitter docs 1 [] hp w Hdocs)
    as (tr & w' & ds & hp' & Hrun & Htexts & Hbuilt).
  exists tr, w', ds, hp'. split_and!; [exact Hrun|exact Htexts|].
  rewrite <-(app_nil_r hp'). by eapply built_resolve.
Qed.

(** The second document has neither chunk nor [_oid]. *)
Lemma pipeline_skips_documents_without_chunks_witness :
  exists tr w' chunks_with_mdata hp',
    run (OracleDemo.process_documents 4 5 sample_documents odd_heap)
      (obliging sample_docs sample_summarize sparse_split sample_embed) 0
    = (tr, w', inr (chunks_with_mdata, hp')) /\
    omap summary_text_of tr = page_content <$> sample_documents /\
    resolve hp' <$> chunks_with_mdata
    = expected_documents odd_heap sample_summarize sparse_split
        sample_documents.
Proof.
  apply (pipeline_skips_documents_without_chunks
           (obliging sample_docs sample_summarize sparse_split sample_embed)).
  - intros; reflexivity.
  - intros; reflexivity.
  - constructor; [|constructor; [|constructor]].
    + right. split; [cbn; lia|reflexivity].
    + left. reflexivity.
Defined.

(** X2.  Pipeline cell, the loop over the documents: when [get_summary]
    and [split_text] are functions of their text argument, the loop
    ends at the first document with a chunk that it cannot process,
    with [KeyError('_oid')] when the metadata has no [_oid], else with
    [TypeError] when the [_oid] is not a [str], else with [IndexError]
    when the summary is empty.  That document is the last one to be
    summarized: the documents after it are not touched. *)
Theorem pipeline_stops_at_first_error {World : Type}
    (h : handler World) (summarize split : string -> list string)
    (summary : Summary) (splitter : Splitter)
    (good rest : list Document) (bad : Document) (hp : heap) (w : World)
    (e : exn) :
  (forall sm text w,
      (h _ (Ext.get_summary sm text) w).2 = inr (summarize text)) ->
  (forall sp text w, (h _ (Ext.split_text sp text) w).2 = inr (split text)) ->
  Forall (passable hp summarize split) good ->
  metadata bad < length hp ->
  split (page_content bad) ≠ [] ->
  chunk_error (hp !!! metadata bad) (summarize (page_content bad)) = Some e ->
  exists tr w',
    run (OracleDemo.process_documents summary splitter
           (good ++ bad :: rest) hp) h w
    = (tr, w', inl e) /\
    omap summary_text_of tr = page_content <$> (good ++ [bad]).
Proof.
  intros Hsumm Hsplit.
  by apply (process_documents_error summarize split h Hsumm Hsplit).
Qed.

(** The second document has a chunk and no [_oid]. *)
Lemma pipeline_stops_at_first_error_witness :
  exists tr w',
    run (OracleDemo.process_documents 4 5
           ([mkDocument "One. Two." 0]
              ++ mkDocument "Three." 1 :: [mkDocument "Four." 0])
           odd_heap)
      sample_world 0
    = (tr, w', inl (KeyError "_oid")) /\
    omap summary_text_of tr
    = page_content <$> ([mkDocument "One. Two." 0] ++ [mkDocument "Three." 1]).
Proof.
  apply (pipeline_stops_at_first_error sample_world sample_summarize
           sample_split).
  - intros; reflexivity.
  - intros; reflexivity.
  - constructor; [|constructor]. right. split; [cbn; lia|reflexivity].
  - cbn; lia.
  - discriminate.
  - reflexivity.
Defined.

(** X3.  Pipeline cell, the ["id"] of a chunk, for the documents of a
    store and whatever [get_summary] and [split_text] answer: when the
    loop returns, no two documents of [chunks_with_mdata] have the same
    ["id"], whatever the [_oid]s are, also when documents share an
    [_oid] or a metadata mapping: [str] of a number has no ["$"], so an
    ["id"] is cut at its last two ["$"] in one way only. *)
Theorem chunk_ids_are_distinct {World : Type} (h : handler World)
    (summary : Summary) (splitter : Splitter) (docs : list Document)
    (hp : heap) (w : World) (tr : list entry) (w' : World)
    (chunks_with_mdata : list Document) (hp' : heap) :
  Forall (fun d => metadata d < length hp) docs ->
  run (OracleDemo.process_documents summary splitter docs hp) h w
  = (tr, w', inr (chunks_with_mdata, hp')) ->
  NoDup (column "id" (resolve hp' <$> chunks_with_mdata)).
Proof.
  intros Hvalid Hrun.
  destruct (process_documents_inr h summary splitter docs hp w tr w'
              chunks_with_mdata hp' Hvalid Hrun)
    as (summs & chunkss & _ & _ & _ & _ & _ & Hb).
  rewrite <-(app_nil_r hp'), (built_resolve _ _ _ _ _ Hb).
  apply chunk_documents_ids_NoDup.
Qed.

(** Two documents with the same metadata mapping. *)
Lemma chunk_ids_are_distinct_witness :
  NoDup (column "id"
           (resolve
              (sample_heap
                 ++ (raw_metadata
                       <$> expected_documents sample_heap sample_summarize
                             sample_split sharing_documents))
              <$> [mkDocument "One." 2; mkDocument "Two." 3;
                   mkDocument "Three." 4])).
Proof.
  apply (chunk_ids_are_distinct sample_world 4 5 sharing_documents
           sample_heap 0
           (log (OracleDemo.process_documents 4 5 sharing_documents
                   sample_heap) sample_world 0)
           4).
  - repeat constructor.
  - vm_compute. reflexivity.
Defined.

(** X4.  Both notebooks, every cell: once a call has raised, nothing is
    called but the [__exit__] of the [with] blocks the call was made
    in.  No call is tried again, no later statement or cell is run, and
    nothing is committed. *)
Theorem only_exits_follow_a_failure {World : Type} (h : handler World)
    (w : World) (notebook : nb unit) (tr1 tr2 : list entry) (en : entry) :
  notebook = OracleDemo.notebook \/ notebook = SpacyDemo.notebook ->
  log (notebook []) h w = tr1 ++ en :: tr2 ->
  failed en = true ->
  Forall (fun en' => leaves en' = true) tr2.
Proof.
  intros Hnb Hlog Hen. unfold log in Hlog.
  destruct (run (notebook []) h w) as [[tr w'] res] eqn:Hrun.
  cbn in Hlog.
  eapply (fail_fast_run (notebook [])); [|exact Hrun|exact Hlog|exact Hen].
  destruct Hnb as [->| ->];
    [apply Fail_fast_oracle_notebook|apply Fail_fast_spacy_notebook].
Qed.

(** The statement that sets up the user raises inside two [with]
    blocks: the cursor and the connection are left, in this order. *)
Lemma only_exits_follow_a_failure_witness :
  Forall (fun en' => leaves en' = true)
    [Entry (Ext.cursor_exit 2) (inr tt);
     Entry (Ext.connection_exit 1) (inr tt)].
Proof.
  apply (only_exits_follow_a_failure
           (failing_at 3 (LibraryError "DatabaseError" "ORA-01031")
              sample_docs sample_summarize sample_split sample_embed)
           0 OracleDemo.notebook
           [Entry (Ext.connect "SYSTEM" EmptyString EmptyString) (inr 1);
            Entry (Ext.print [ShowStr "Connection successful!"]) (inr tt);
            Entry (Ext.cursor 1) (inr 2)]
           _
           (Entry (Ext.execute 2 OracleDemo.create_user_sql)
              (inl (LibraryError "DatabaseError" "ORA-01031")))).
  - left. reflexivity.
  - vm_compute. reflexivity.
  - reflexivity.
Defined.

(** X5.  The cells that create the vector store and its index: the
    [connection] they give to [OracleVS.from_documents] and to
    [oraclevs.create_index] is one whose [with] block has been left
    before the call.  The pipeline cell binds [connection] in its
    [with] statement, and the cells after it read that name. *)
Theorem vector_store_is_given_a_left_connection {World : Type}
    (h : handler World) (w : World) (i : nat) (en : entry)
    (connection : Connection) :
  log (OracleDemo.notebook []) h w !! i = Some en ->
  client en = Some connection ->
  connection ∈ omap left (take i (log (OracleDemo.notebook []) h w)).
Proof.
  intros Hi Hclient. unfold log in *.
  destruct (run (OracleDemo.notebook []) h w) as [[tr w'] res] eqn:Hrun.
  cbn [fst snd] in *.
  destruct (safe_run _ _ _ _ _ (left_oracle_notebook []) h w tr w' res Hrun)
    as [Hacc _].
  pose proof (accepts_lookup _ _ _ _ _ _ Hacc Hi) as Hok.
  unfold left_ok in Hok. unfold client in Hclient. rewrite Hclient in Hok.
  rewrite after_record, app_nil_r in Hok. by apply elem_of_reverse.
Qed.

(** In the sample world the store is created by the call number 53. *)
Lemma vector_store_is_given_a_left_connection_witness :
  1 ∈ omap left (take 53 (log (OracleDemo.notebook []) sample_world 0)).
Proof.
  apply (vector_store_is_given_a_left_connection sample_world 0 53
           (Entry (Ext.from_documents
                     (expected_documents sample_heap sample_summarize
                        sample_split sample_documents)
                     6 1 "oravs" DOT_PRODUCT)
              (inr 7))).
  - vm_compute. reflexivity.
  - reflexivity.
Defined.

(** X6.  [oracleai_demo.ipynb], the connections and cursors of a run
    that returns, taking the [__enter__] of a connection or a cursor
    to return the object itself: three connections are opened and two
    are closed, those of the [with] statements of the first cell and
    of the pipeline cell; the connection of the Connect cell, which is
    opened without [with], is used for the cursors of the populate and
    credential cells and for the commit, and is never closed.  Each of
    the three cursors is closed before anything else is opened and
    before its connection is; the populate cell commits after its
    cursor is closed. *)
Theorem resources_are_opened_and_closed {World : Type} (h : handler World)
    (w : World) (a : unit * heap) :
  outcome (OracleDemo.notebook []) h w = inr a ->
  exists c1 k1 c2 k2 k3 c3,
    omap resource_event_of (log (OracleDemo.notebook []) h w)
    = resource_protocol c1 k1 c2 k2 k3 c3.
Proof.
  unfold log, outcome.
  destruct (run (OracleDemo.notebook []) h w) as [[tr w'] res] eqn:Hrun.
  cbn [fst snd]. intros ->. by apply (resources_run h w tr w' a).
Qed.

(** The notebook returns in the sample world. *)
Lemma resources_are_opened_and_closed_witness :
  exists c1 k1 c2 k2 k3 c3,
    omap resource_event_of (log (OracleDemo.notebook []) sample_world 0)
    = resource_protocol c1 k1 c2 k2 k3 c3.
Proof.
  apply (resources_are_opened_and_closed sample_world 0
           (tt, sample_heap
                  ++ (raw_metadata
                        <$> expected_documents sample_heap sample_summarize
                              sample_split sample_documents))).
  vm_compute. reflexivity.
Defined.

(** X7.  Generate Summary cell: when the summarization API and [print]
    return, the cell makes one [get_summary] call for each loaded
    document, in order, on the text of the document; [list_summary]
    holds the answers in the order of the calls, so it is as long as
    [docs], and that length is what the cell prints last. *)
Theorem one_summary_per_document {World : Type} (h : handler World)
    (connection : Connection) (proxy : string) (docs : list Document)
    (hp : heap) (w : World) :
  (forall conn params proxy w, exists summ,
      (h _ (Ext.OracleSummary conn params proxy) w).2 = inr summ) ->
  (forall sm text w, exists summary,
      (h _ (Ext.get_summary sm text) w).2 = inr summary) ->
  (forall parts w, (h _ (Ext.print parts) w).2 = inr tt) ->
  exists summ tr w' list_summary,
    run (OracleDemo.generate_summary connection proxy docs hp) h w
    = (Entry (Ext.OracleSummary connection OracleDemo.summary_params
                (Some proxy)) (inr summ)
         :: tr
         ++ [Entry (Ext.print
                      [ShowStr ("Number of Summaries: "
                                +:+ str_of_int (length docs))])
               (inr tt)],
       w', inr ((summ, list_summary), hp)) /\
    omap summary_text_of tr = page_content <$> docs /\
    list_summary = omap summaries_of tr /\
    length list_summary = length docs.
Proof.
  intros Hnew Hsumm Hprint. unfold OracleDemo.generate_summary.
  destruct (Hnew connection OracleDemo.summary_params (Some proxy) w)
    as [summ Hs].
  rewrite run_mbind, run_ext, Hs.
  destruct (collect_summaries_total h Hsumm summ docs [] hp
              (h _ (Ext.OracleSummary connection OracleDemo.summary_params
                      (Some proxy)) w).1)
    as (tr & w1 & Hloop & Htexts & Hlen).
  rewrite run_mbind, Hloop, run_mbind, run_ext, Hprint.
  cbn [mret nb_ret run app]. rewrite ?app_nil_r, Hlen.
  by eexists summ, tr, _, _.
Qed.

(** In the sample world every call returns. *)
Lemma one_summary_per_document_witness :
  exists summ tr w' list_summary,
    run (OracleDemo.generate_summary 1 OracleDemo.proxy sample_documents
           sample_heap) sample_world 0
    = (Entry (Ext.OracleSummary 1 OracleDemo.summary_params
                (Some OracleDemo.proxy)) (inr summ)
         :: tr
         ++ [Entry (Ext.print
                      [ShowStr ("Number of Summaries: "
                                +:+ str_of_int (length sample_documents))])
               (inr tt)],
       w', inr ((summ, list_summary), sample_heap)) /\
    omap summary_text_of tr = page_content <$> sample_documents /\
    list_summary = omap summaries_of tr /\
    length list_summary = length sample_documents.
Proof.
  apply (one_summary_per_document sample_world).
  - intros. eexists. reflexivity.
  - intros. eexists. reflexivity.
  - intros. reflexivity.
Defined.

(** X8.  [spacy_embedding.ipynb], the cell that embeds the texts: when
    [print] returns, the cell prints one line for each embedding that
    [embed_documents] returned, in order and numbered from 1, and
    nothing else: the number of lines is the number of embeddings
    returned, whatever the number of texts. *)
Theorem one_line_per_returned_embedding {World : Type} (h : handler World)
    (embedder : Embedder) (embeddings : list Embedding) (hp : heap)
    (w : World) :
  (h _ (Ext.embed_documents embedder SpacyDemo.texts) w).2 = inr embeddings ->
  (forall parts w, (h _ (Ext.print parts) w).2 = inr tt) ->
  exists w',
    run (SpacyDemo.embed_the_texts embedder hp) h w
    = (Entry (Ext.embed_documents embedder SpacyDemo.texts) (inr embeddings)
         :: imap (fun i embedding =>
                    Entry (Ext.print
                             [ShowStr ("Embedding for document "
                                       +:+ str_of_int (i + 1) +:+ ": ");
                              ShowEmbedding embedding])
                      (inr tt))
              embeddings,
       w', inr (embeddings, hp)).
Proof.
  intros Hembed Hprint. unfold SpacyDemo.embed_the_texts.
  rewrite run_mbind, run_ext, Hembed.
  destruct (print_embeddings_from h Hprint embeddings 0 hp
              (h _ (Ext.embed_documents embedder SpacyDemo.texts) w).1)
    as [w' Hloop].
  rewrite run_mbind, Hloop. cbn [mret nb_ret run app]. rewrite app_nil_r.
  by exists w'.
Qed.

(** A library that returns two embeddings for the four texts. *)
Lemma one_line_per_returned_embedding_witness :
  exists w',
    run (SpacyDemo.embed_the_texts 1 [])
      (fun R c w =>
         (S w,
          match c in Ext.call R return exn + R with
          | Ext.embed_documents _ _ => inr [[0.5%float]; [0.25%float]]
          | c' => inr (answers sample_docs sample_summarize sample_split
                         sample_embed _ c')
          end))
      0
    = (Entry (Ext.embed_documents 1 SpacyDemo.texts)
         (inr [[0.5%float]; [0.25%float]])
         :: imap (fun i embedding =>
                    Entry (Ext.print
                             [ShowStr ("Embedding for document "
                                       +:+ str_of_int (i + 1) +:+ ": ");
                              ShowEmbedding embedding])
                      (inr tt))
              [[0.5%float]; [0.25%float]],
       w', inr ([[0.5%float]; [0.25%float]], [])).
Proof.
  apply (one_line_per_returned_embedding
           (fun R c w =>
              (S w,
               match c in Ext.call R return exn + R with
               | Ext.embed_documents _ _ => inr [[0.5%float]; [0.25%float]]
               | c' => inr (answers sample_docs sample_summarize sample_split
                              sample_embed _ c')
               end))).
  - reflexivity.
  - intros. reflexivity.
Defined.

(** X9.  Pipeline cell, the loop over the documents, whatever
    [get_summary] and [split_text] answer: when the loop returns, every
    document of [chunks_with_mdata] refers to a metadata mapping of its
    own, made by the loop ([doc.metadata.copy()]): no two of them share
    a mapping, none shares one with a loaded document, and the mappings
    that were in the store are as they were. *)
Theorem chunk_metadata_is_never_shared {World : Type} (h : handler World)
    (summary : Summary) (splitter : Splitter) (docs : list Document)
    (hp : heap) (w : World) (tr : list entry) (w' : World)
    (chunks_with_mdata : list Document) (hp' : heap) :
  run (OracleDemo.process_documents summary splitter docs hp) h w
  = (tr, w', inr (chunks_with_mdata, hp')) ->
  take (length hp) hp' = hp /\
  length hp' = length hp + length chunks_with_mdata /\
  metadata <$> chunks_with_mdata
  = seq (length hp) (length chunks_with_mdata) /\
  NoDup (metadata <$> chunks_with_mdata).
Proof.
  intros Hrun.
  destruct (safe_run _ _ _ _ _
              (fresh_process_documents summary splitter docs hp)
              h w tr w' _ Hrun) as [_ Hres].
  destruct (Hres _ eq_refl) as (Htake & Hmeta & Hlen). cbn in *.
  split_and!; [done..|]. rewrite Hmeta. apply NoDup_seq.
Qed.

(** The three chunks of the sample documents. *)
Lemma chunk_metadata_is_never_shared_witness :
  take (length sample_heap)
    (sample_heap
       ++ (raw_metadata
             <$> expected_documents sample_heap sample_summarize sample_split
                   sample_documents))
  = sample_heap /\
  length (sample_heap
            ++ (raw_metadata
                  <$> expected_documents sample_heap sample_summarize
                        sample_split sample_documents))
  = length sample_heap
    + length [mkDocument "One." 2; mkDocument "Two." 3;
              mkDocument "Three." 4] /\
  metadata <$> [mkDocument "One." 2; mkDocument "Two." 3;
                mkDocument "Three." 4]
  = seq (length sample_heap) 3 /\
  NoDup (metadata <$> [mkDocument "One." 2; mkDocument "Two." 3;
                       mkDocument "Three." 4]).
Proof.
  apply (chunk_metadata_is_never_shared sample_world 4 5 sample_documents
           sample_heap 0
           (log (OracleDemo.process_documents 4 5 sample_documents
                   sample_heap) sample_world 0)
           4).
  vm_compute. reflexivity.
Defined.

(** X10.  The Split Documents cell, the Generate Embeddings cell and
    the pipeline cell agree: when [get_summary], [split_text] and
    [embed_query] are functions of their text argument, the texts of
    [chunks_with_mdata] are [list_chunks], in the same order, and
    [embeddings] holds the embedding of each of them. *)
Theorem cells_agree_on_the_chunks {World : Type} (h : handler World)
    (summarize split : string -> list string) (embed : string -> Embedding)
    (summary : Summary) (splitter : Splitter) (embedder : Embedder)
    (docs : list Document) (hp : heap) (w1 w2 w3 : World) :
  (forall sm text w,
      (h _ (Ext.get_summary sm text) w).2 = inr (summarize text)) ->
  (forall sp text w, (h _ (Ext.split_text sp text) w).2 = inr (split text)) ->
  (forall e text w, (h _ (Ext.embed_query e text) w).2 = inr (embed text)) ->
  Forall (passable hp summarize split) docs ->
  exists tr1 w1' list_chunks tr2 w2' embeddings tr3 w3' chunks_with_mdata hp',
    run (OracleDemo.collect_chunks splitter docs hp) h w1
    = (tr1, w1', inr (list_chunks, hp)) /\
    run (OracleDemo.collect_embeddings embedder splitter docs hp) h w2
    = (tr2, w2', inr (embeddings, hp)) /\
    run (OracleDemo.process_documents summary splitter docs hp) h w3
    = (tr3, w3', inr (chunks_with_mdata, hp')) /\
    page_content <$> chunks_with_mdata = list_chunks /\
    embeddings = embed <$> list_chunks.
Proof.
  intros Hsumm Hsplit Hembed Hdocs.
  destruct (collect_chunks_pure split h Hsplit splitter docs [] hp w1)
    as (tr1 & w1' & H1).
  destruct (collect_embeddings_from split embed h Hsplit Hembed embedder
              splitter docs [] hp w2) as (tr2 & w2' & H2).
  destruct (process_documents_passable summarize split h Hsumm Hsplit
              summary splitter docs 1 [] hp w3 Hdocs)
    as (tr3 & w3' & ds & hp' & H3 & _ & Hbuilt).
  eexists tr1, w1', _, tr2, w2', _, tr3, w3', ds, hp'.
  split_and!; [exact H1|exact H2|exact H3| |].
  - cbn [app].
    rewrite <-(expected_documents_texts split hp summarize docs).
    unfold expected_documents. destruct Hbuilt as [_ ->].
    rewrite fmap_imap. apply list_eq. intros j.
    rewrite list_lookup_imap, list_lookup_fmap.
    by destruct (_ !! j).
  - cbn [app]. change (fmap ?f (concat ?l)) with (map f (concat l)).
    rewrite concat_map. change (map ?f ?l) with (fmap f l).
    by rewrite <-list_fmap_compose.
Qed.

(** The two sample documents are processable. *)
Lemma cells_agree_on_the_chunks_witness :
  exists tr1 w1' list_chunks tr2 w2' embeddings tr3 w3' chunks_with_mdata hp',
    run (OracleDemo.collect_chunks 5 sample_documents sample_heap)
      sample_world 0
    = (tr1, w1', inr (list_chunks, sample_heap)) /\
    run (OracleDemo.collect_embeddings 6 5 sample_documents sample_heap)
      sample_world 0
    = (tr2, w2', inr (embeddings, sample_heap)) /\
    run (OracleDemo.process_documents 4 5 sample_documents sample_heap)
      sample_world 0
    = (tr3, w3', inr (chunks_with_mdata, hp')) /\
    page_content <$> chunks_with_mdata = list_chunks /\
    embeddings = sample_embed <$> list_chunks.
Proof.
  apply (cells_agree_on_the_chunks sample_world sample_summarize
           sample_split sample_embed).
  - intros; reflexivity.
  - intros; reflexivity.
  - intros; reflexivity.
  - constructor; [|constructor; [|constructor]];
      right; (split; [cbn; lia|reflexivity]).
Defined.

(** X11.  [oracleai_demo.ipynb], the loaders of a run, whatever the
    libraries answer: [load] is called at most once, on the loader of
    the Load Documents cell.  The pipeline cell makes a second loader
    and never asks it to load: the documents it processes are those
    the Load Documents cell bound to [docs].  A run that returns has
    made both loaders. *)
Theorem pipeline_loader_is_never_asked_to_load {World : Type}
    (h : handler World) (w : World) :
  exists l1 l2 n,
    n <= 3 /\
    omap loader_event_of (log (OracleDemo.notebook []) h w)
    = take n [LoaderMade l1; LoadCalled l1; LoaderMade l2] /\
    (forall a, outcome (OracleDemo.notebook []) h w = inr a -> n = 3).
Proof.
  unfold log, outcome.
  destruct (run (OracleDemo.notebook []) h w) as [[tr w'] res] eqn:Hrun.
  by apply (loaders_run h w tr w' res).
Qed.

(** X12.  Populate a Demo Table cell, whatever the libraries answer:
    when the cell calls [commit], the calls before it are the opening
    of the cursor, the three statements (drop, create, insert of the
    rows) on that cursor, in this order, and the closing of the cursor,
    and each of them has returned.  So nothing is committed when a
    statement or the closing of the cursor raised. *)
Theorem commit_follows_the_statements {World : Type} (h : handler World)
    (connection : Connection) (hp : heap) (w : World) (i : nat)
    (en : entry) :
  log (OracleDemo.populate_demo_table connection hp) h w !! i = Some en ->
  is_commit (entry_call en) = true ->
  exists cursor,
    take i (log (OracleDemo.populate_demo_table connection hp) h w)
    = [ Entry (Ext.cursor connection) (inr cursor);
        Entry (Ext.execute cursor "drop table if exists demo_tab") (inr tt);
        Entry (Ext.execute cursor
                 "create table demo_tab (id number, data clob)") (inr tt);
        Entry (Ext.executemany cursor "insert into demo_tab values (:1, :2)"
                 OracleDemo.rows_to_insert) (inr tt);
        Entry (Ext.cursor_exit cursor) (inr tt) ].
Proof. apply commit_in_populate. Qed.

(** In the sample world the cell commits with its sixth call. *)
Lemma commit_follows_the_statements_witness :
  exists cursor,
    take 5 (log (OracleDemo.populate_demo_table 1 []) sample_world 0)
    = [ Entry (Ext.cursor 1) (inr cursor);
        Entry (Ext.execute cursor "drop table if exists demo_tab") (inr tt);
        Entry (Ext.execute cursor
                 "create table demo_tab (id number, data clob)") (inr tt);
        Entry (Ext.executemany cursor "insert into demo_tab values (:1, :2)"
                 OracleDemo.rows_to_insert) (inr tt);
        Entry (Ext.cursor_exit cursor) (inr tt) ].
Proof.
  apply (commit_follows_the_statements sample_world 1 [] 0 5
           (Entry (Ext.commit 1) (inr tt))).
  - reflexivity.
  - reflexivity.
Defined.
